(** * EL embeddings: ball losses, rank evaluator and checkpoint policy

    A shallow embedding of [elembedding.py] and of the scoring loop of
    [evaluate_interactions.py].

    Conventions of the embedding.
    - A float32 / float64 tensor entry is an ideal real number ([R]):
      rounding is not modelled.  The one overflow the scores depend on is:
      [np.exp] in the score returns [inf] past the largest float32, so
      that [1 / np.exp] is 0 there ([inv_np_exp]).  The epoch loss handed
      to the checkpoint callback is a [pyfloat], which adds the two
      infinities and NaN, because the callback tests for NaN.
    - A rank-1 tensor (one row of an embedding table) is a [list R]; an
      embedding table is a list of rows, indexed from 0.
    - Integer index batches are lists of tuples of [nat].
    - A Python exception (KeyError, IndexError, a TensorFlow shape or
      range error) is [None] in the [option] monad. *)

From Stdlib Require Import Reals Lra Lia ZArith List Ascii.
From stdpp Require Import base option list gmap strings.

Local Open Scope R_scope.

(** ** Tensors *)

Definition vec := list R.
Definition matrix := list vec.

(** [x[:, -1]] on one row: the last coordinate. *)
Definition last_coord (x : vec) : R := List.last x 0.

(** [x[:, 0:-1]] on one row: every coordinate but the last. *)
Definition center (x : vec) : vec := removelast x.

(** Element-wise [x - y] and [x + y] of two rows of the same width. *)
Definition vsub (x y : vec) : vec := zip_with Rminus x y.
Definition vadd (x y : vec) : vec := zip_with Rplus x y.

Definition sum_sq (x : vec) : R := foldr (fun a s => a * a + s) 0 x.

(** [tf.norm(x, axis=1)] and [np.linalg.norm(x, axis=1)] on one row. *)
Definition norm (x : vec) : R := sqrt (sum_sq x).

(** [tf.nn.relu]. *)
Definition relu (x : R) : R := Rmax x 0.

(** ** The model ([class ELModel]) *)

Record ELModel := mkELModel {
  margin : R;
  reg_norm : R;
  batch_size : nat;
  cls_embeddings : matrix;
  rel_embeddings : matrix;
  top_embed : vec
}.

(** [np.zeros(embedding_size + 1)] with [top_embed[-1] = 1000000.0]. *)
Definition make_top_embed (embedding_size : nat) : vec :=
  replicate embedding_size 0 ++ [1000000].

(** An [Embedding] layer applied to one index: a row of the table, an
    error when the index is outside the table. *)
Definition embed (table : matrix) (i : nat) : option vec := table !! i.

Section Losses.
Variable m : ELModel.

(** [ELModel.reg] for one row. *)
Definition reg (x : vec) : R := Rabs (norm x - reg_norm m).

(** [ELModel.loss] for one pair of rows. *)
Definition loss (c d : vec) : R :=
  let rc := Rabs (last_coord c) in
  let rd := Rabs (last_coord d) in
  let c := center c in
  let d := center d in
  let euc := norm (vsub c d) in
  let dst := relu (euc + rc - rd) in
  dst + reg c + reg d.

(** The relu part of [loss]: the value of [dst] there. *)
Definition containment_violation (c d : vec) : R :=
  relu (norm (vsub (center c) (center d))
        + Rabs (last_coord c) - Rabs (last_coord d)).

(** One row of [ELModel.nf1_loss]. *)
Definition nf1_row (ex : nat * nat) : option R :=
  let '(c, d) := ex in
  c ← embed (cls_embeddings m) c;
  d ← embed (cls_embeddings m) d;
  Some (loss c d).

Definition nf1_loss (input : list (nat * nat)) : option (list R) :=
  mapM nf1_row input.

(** One row of [ELModel.nf2_loss].  [re] is read from [d], as in the
    source. *)
Definition nf2_row (ex : nat * nat * nat) : option R :=
  let '(c, d, e) := ex in
  c ← embed (cls_embeddings m) c;
  d ← embed (cls_embeddings m) d;
  e ← embed (cls_embeddings m) e;
  let rc := Rabs (last_coord c) in
  let rd := Rabs (last_coord d) in
  let re := Rabs (last_coord d) in
  let sr := rc + rd in
  let x1 := center c in
  let x2 := center d in
  let x3 := center e in
  let x := vsub x2 x1 in
  let dst := norm x in
  let dst2 := norm (vsub x3 x1) in
  let dst3 := norm (vsub x3 x2) in
  let rdst := relu (Rmin rc rd - re) in
  let dst_loss := relu (dst - sr) + relu (dst2 - rc) + relu (dst3 - rd)
                  + rdst - margin m in
  Some (dst_loss + reg x1 + reg x2 + reg x3).

Definition nf2_loss (input : list (nat * nat * nat)) : option (list R) :=
  mapM nf2_row input.

(** [tf.concat([r, tf.zeros((batch_size, 1))], 1)] on one row. *)
Definition pad_zero (r : vec) : vec := r ++ [0].

(** [tf.zeros((self.batch_size, 1))] has exactly [batch_size] rows: the
    concatenation fails for a batch of any other length. *)
Definition check_batch {A} (input : list A) : option unit :=
  if decide (length input = batch_size m) then Some tt else None.

(** One row of [ELModel.nf3_loss]: (c, r, d). *)
Definition nf3_row (ex : nat * nat * nat) : option R :=
  let '(c, r, d) := ex in
  c ← embed (cls_embeddings m) c;
  d ← embed (cls_embeddings m) d;
  r ← embed (rel_embeddings m) r;
  let rd := pad_zero r in
  let c := vadd c rd in
  Some (loss c d).

Definition nf3_loss (input : list (nat * nat * nat)) : option (list R) :=
  _ ← check_batch input; mapM nf3_row input.

(** One row of [ELModel.nf4_loss]: (r, c, d). *)
Definition nf4_row (ex : nat * nat * nat) : option R :=
  let '(r, c, d) := ex in
  c ← embed (cls_embeddings m) c;
  d ← embed (cls_embeddings m) d;
  r ← embed (rel_embeddings m) r;
  let rr := pad_zero r in
  let c := vsub c rr in
  let rc := Rabs (last_coord c) in
  let rd := Rabs (last_coord d) in
  let sr := rc + rd in
  let x1 := center c in
  let x2 := center d in
  let x := vsub x2 x1 in
  let dst := norm x in
  let dst_loss := relu (dst - sr - margin m) in
  Some (dst_loss + reg x1 + reg x2).

Definition nf4_loss (input : list (nat * nat * nat)) : option (list R) :=
  _ ← check_batch input; mapM nf4_row input.

(** The relu part of [ELModel.dis_loss] on two embedded rows. *)
Definition dis_violation (c d : vec) : R :=
  let rc := Rabs (last_coord c) in
  let rd := Rabs (last_coord d) in
  let sr := rc + rd in
  let dst := norm (vsub (center d) (center c)) in
  relu (sr - dst + margin m).

(** One row of [ELModel.dis_loss]: the input has three columns, the third
    is not read. *)
Definition dis_row (ex : nat * nat * nat) : option R :=
  let '(c, d, _) := ex in
  c ← embed (cls_embeddings m) c;
  d ← embed (cls_embeddings m) d;
  let x1 := center c in
  let x2 := center d in
  Some (dis_violation c d + reg x1 + reg x2).

Definition dis_loss (input : list (nat * nat * nat)) : option (list R) :=
  mapM dis_row input.

(** The five batches handed to [ELModel.call]. *)
Record Batch := mkBatch {
  b_nf1 : list (nat * nat);
  b_nf2 : list (nat * nat * nat);
  b_nf3 : list (nat * nat * nat);
  b_nf4 : list (nat * nat * nat);
  b_dis : list (nat * nat * nat)
}.

(** [x + y] on two (B, 1) tensors: element-wise when the row counts agree;
    a tensor of one row is broadcast over the other; any other pair of
    shapes is an error. *)
Definition tadd (x y : list R) : option (list R) :=
  if decide (length x = length y) then Some (zip_with Rplus x y)
  else match x, y with
       | [a], _ => Some ((fun v => a + v) <$> y)
       | _, [b] => Some ((fun v => v + b) <$> x)
       | _, _ => None
       end.

(** [ELModel.call]. *)
Definition call (input : Batch) : option (list R) :=
  loss1 ← nf1_loss (b_nf1 input);
  loss2 ← nf2_loss (b_nf2 input);
  loss3 ← nf3_loss (b_nf3 input);
  loss4 ← nf4_loss (b_nf4 input);
  loss_dis ← dis_loss (b_dis input);
  s ← tadd loss1 loss2;
  s ← tadd s loss3;
  s ← tadd s loss4;
  tadd s loss_dis.
End Losses.

(** ** The rank evaluator

    The scoring statements of [MyModelCheckpoint.on_epoch_end]
    (elembedding.py, the body of [for c, r, d in self.valid_data]) and of
    [main] in evaluate_interactions.py (the body of
    [for c, r, d in prog_data]) are the same statements; they differ in the
    margin they read and in how [prot_rs] was prepared.  [score_triple] is
    that body, over the margin and [prot_rs] of the caller. *)

(** [overlap] for one candidate with radius [prs] at distance [dst]. *)
Definition overlap (mg rc prs dst : R) : R :=
  if Rlt_dec 0 rc
  then Rmax 0 ((2 * rc - Rmax (dst + rc - prs - mg) 0) / (2 * rc))
  else if Req_dec_T (Rmax (dst - prs - mg) 0) 0 then 1 else 0.

(** [edst] for one candidate. *)
Definition edst (mg rc prs dst : R) : R := Rmax 0 (dst - rc - prs - mg).

(** The largest finite float32, (2 - 2^-23) * 2^127. *)
Definition float32_max : R := 340282346638528859811704183484516925440.

(** [1 / np.exp(x)] on a float32 array: [np.exp] returns [inf] once the
    exponential exceeds the largest float32 (for [x] above 88.72), and
    [1 / inf] is 0.  Rounding is not modelled. *)
Definition inv_np_exp (x : R) : R :=
  if Rlt_dec float32_max (exp x) then 0 else 1 / exp x.

(** One entry of [res]. *)
Definition score (mg rc prs dst : R) : R :=
  (overlap mg rc prs dst + inv_np_exp (edst mg rc prs dst)) / 2.

Fixpoint count_lt (x : R) (a : list R) : nat :=
  match a with
  | [] => 0%nat
  | y :: a => if Rlt_dec y x then S (count_lt x a) else count_lt x a
  end.

Fixpoint count_eq (x : R) (a : list R) : nat :=
  match a with
  | [] => 0%nat
  | y :: a => if Req_dec_T y x then S (count_eq x a) else count_eq x a
  end.

(** [rankdata(a, method='average')[i]]: the entries equal to [a[i]] share
    the mean of the positions they occupy in the sorted order. *)
Definition rankdata_average (a : list R) (i : nat) : option R :=
  x ← a !! i;
  Some (INR (count_lt x a) + (INR (count_eq x a) + 1) / 2).

(** [enumerate]. *)
Definition enumerate {A} (l : list A) : list (nat * A) :=
  zip (seq 0 (length l)) l.

(** [{v: k for k, v in enumerate(prot_index)}]: a later position wins. *)
Definition make_prot_dict (prot_index : list nat) : gmap nat nat :=
  foldl (fun dict kv => <[kv.2 := kv.1]> dict) ∅ (enumerate prot_index).

(** What scoring one triple yields: the candidate matrix after the
    statement [ec += er], and the overlap, score and rank it computed. *)
Record Scored := mkScored {
  s_prot_embeds : matrix;
  s_overlap : list R;
  s_res : list R;
  s_rank : R
}.

Definition score_triple (mg : R) (rembeds : matrix) (prot_dict : gmap nat nat)
    (prot_rs : list R) (prot_embeds : matrix) (t : nat * nat * nat)
    : option Scored :=
  let '(c, r, d) := t in
  c ← prot_dict !! c;
  d ← prot_dict !! d;
  ec ← prot_embeds !! c;
  rc ← prot_rs !! c;
  er ← rembeds !! r;
  (* [ec] is a view of row [c]: [ec += er] writes into [prot_embeds]. *)
  let ec := vadd ec er in
  let prot_embeds := <[c := ec]> prot_embeds in
  let dst := fmap (fun p => norm (vsub p ec)) prot_embeds in
  let ov := zip_with (overlap mg rc) prot_rs dst in
  let res := zip_with (score mg rc) prot_rs dst in
  rank ← rankdata_average (fmap Ropp res) d;
  Some (mkScored prot_embeds ov res rank).

(** The loop over the triples: threads the candidate matrix and collects
    what each triple computed, in order. *)
Fixpoint score_all (mg : R) (rembeds : matrix) (prot_dict : gmap nat nat)
    (prot_rs : list R) (prot_embeds : matrix) (data : list (nat * nat * nat))
    : option (list Scored) :=
  match data with
  | [] => Some []
  | t :: data =>
      s ← score_triple mg rembeds prot_dict prot_rs prot_embeds t;
      rest ← score_all mg rembeds prot_dict prot_rs (s_prot_embeds s) data;
      Some (s :: rest)
  end.

(** [mean_rank]: starts at 0, adds every rank, is divided by [n]. *)
Definition mean_rank_of (scored : list Scored) (n : nat) : R :=
  foldl (fun acc s => acc + s_rank s) 0 scored / INR n.

(** [cls_embeddings[self.prot_index]]: a copy of the selected rows. *)
Definition take_rows (table : matrix) (index : list nat) : option matrix :=
  mapM (fun i => table !! i) index.

(** The validation pass of [MyModelCheckpoint.on_epoch_end]:
    [prot_rs = prot_embeds[:, -1]] is read as stored. *)
Definition checkpoint_scores (mg : R) (cls rel : matrix)
    (prot_index : list nat) (valid_data : list (nat * nat * nat))
    : option (list Scored) :=
  prot_embeds ← take_rows cls prot_index;
  let prot_rs := fmap last_coord prot_embeds in
  let prot_embeds := fmap center prot_embeds in
  score_all mg rel (make_prot_dict prot_index) prot_rs prot_embeds valid_data.

(** The test pass of evaluate_interactions.py, from the class indices of
    the test triples on: [rs = np.abs(embeds[:, -1])], then the rows of
    [prot_index] are taken from [rs] and from [embeds[:, :-1]].  The
    filtered ranks, the top-k counters and the ROC curve are left out. *)
Definition evaluate_scores (mg : R) (embeds rembeds : matrix)
    (prot_index : list nat) (test_data : list (nat * nat * nat))
    : option (list Scored) :=
  let rs := fmap (fun e => Rabs (last_coord e)) embeds in
  let embeds := fmap center embeds in
  prot_rs ← mapM (fun i => rs !! i) prot_index;
  prot_embeds ← take_rows embeds prot_index;
  score_all mg rembeds (make_prot_dict prot_index) prot_rs prot_embeds
    test_data.

(** ** The checkpoint callback ([class MyModelCheckpoint]) *)

(** A Python float: the value of [logs.get('loss')]. *)
Inductive pyfloat :=
| Finite (r : R)
| PosInf
| NegInf
| NaN.

(** [math.isnan]. *)
Definition isnan (x : pyfloat) : bool :=
  match x with NaN => true | _ => false end.

(** What the callback does to the outside: its prints and the files it
    pickles, in order. *)
Inductive event :=
| PrintNanLoss
| PrintValidation (epoch : nat) (mean_rank : R)
| PrintSaving (epoch : nat) (mean_rank : R)
| ToPickle (file : string) (names : list string) (table : matrix).

Record Checkpoint := mkCheckpoint {
  out_classes_file : string;
  out_relations_file : string;
  cls_list : list string;
  rel_list : list string;
  valid_data : list (nat * nat * nat);
  proteins : list (string * nat);
  top : option nat;
  best_rank : R
}.

(** [MyModelCheckpoint.__init__]. *)
Definition init_checkpoint (out_classes_file out_relations_file : string)
    (cls_list rel_list : list string) (valid_data : list (nat * nat * nat))
    (proteins : list (string * nat)) (top : option nat) : Checkpoint :=
  mkCheckpoint out_classes_file out_relations_file cls_list rel_list
    valid_data proteins top 100000.

(** [self.prot_index = list(self.proteins.values())]. *)
Definition prot_index (cb : Checkpoint) : list nat := (proteins cb).*2.

Definition set_best_rank (r : R) (cb : Checkpoint) : Checkpoint :=
  mkCheckpoint (out_classes_file cb) (out_relations_file cb) (cls_list cb)
    (rel_list cb) (valid_data cb) (proteins cb) (top cb) r.

(** The state the callback works on: the Keras model with its
    [stop_training] flag, the trace of prints and pickles, and the number
    of training steps run so far. *)
Record World := mkWorld {
  model : ELModel;
  stop_training : bool;
  trace : list event;
  steps_run : nat
}.

Definition set_cls_embeddings (cls : matrix) (m : ELModel) : ELModel :=
  mkELModel (margin m) (reg_norm m) (batch_size m) cls (rel_embeddings m)
    (top_embed m).

Definition set_tables (cls rel : matrix) (m : ELModel) : ELModel :=
  mkELModel (margin m) (reg_norm m) (batch_size m) cls rel (top_embed m).

(** The truth value of [self.top] in [if self.top:]. *)
Definition truthy (top : option nat) : bool :=
  match top with
  | None => false
  | Some O => false
  | Some (S _) => true
  end.

(** [tf.assign(embeddings[self.top, :], top_embed)]. *)
Definition pin_top (t : nat) (m : ELModel) : ELModel :=
  set_cls_embeddings (<[t := top_embed m]> (cls_embeddings m)) m.

(** [MyModelCheckpoint.on_batch_begin]. *)
Definition on_batch_begin (cb : Checkpoint) (w : World) : World :=
  if truthy (top cb)
  then mkWorld (pin_top (default 0%nat (top cb)) (model w))
         (stop_training w) (trace w) (steps_run w)
  else w.

(** The two [to_pickle] calls of the save branch. *)
Definition snapshot (cb : Checkpoint) (m : ELModel) : list event :=
  [ToPickle (out_classes_file cb) (cls_list cb) (cls_embeddings m);
   ToPickle (out_relations_file cb) (rel_list cb) (rel_embeddings m)].

(** [MyModelCheckpoint.on_epoch_end]; [current_loss] is
    [logs.get(self.monitor)]. *)
Definition on_epoch_end (cb : Checkpoint) (w : World) (epoch : nat)
    (current_loss : pyfloat) : option (Checkpoint * World) :=
  if isnan current_loss then
    Some (cb, mkWorld (model w) true (trace w ++ [PrintNanLoss])
                (steps_run w))
  else if decide (length (valid_data cb) = 0%nat) then
    Some (cb, w)
  else
    let el_model := model w in
    let n := length (valid_data cb) in
    scored ← checkpoint_scores (margin el_model) (cls_embeddings el_model)
               (rel_embeddings el_model) (prot_index cb) (valid_data cb);
    let mean_rank := mean_rank_of scored n in
    let tr := trace w ++ [PrintValidation (epoch + 1) mean_rank] in
    if Rlt_dec mean_rank (best_rank cb) then
      Some (set_best_rank mean_rank cb,
            mkWorld el_model (stop_training w)
              (tr ++ PrintSaving (epoch + 1) mean_rank :: snapshot cb el_model)
              (steps_run w))
    else
      Some (cb, mkWorld el_model (stop_training w) tr (steps_run w)).

(** The files pickled in a trace. *)
Definition pickles (tr : list event) : list event :=
  List.filter (fun e => match e with ToPickle _ _ _ => true | _ => false end)
    tr.

(** The files a trace leaves on disk: [to_pickle] overwrites the file of
    that name, so a file holds what was pickled to it last. *)
Definition disk (tr : list event) : gmap string (list string * matrix) :=
  foldl (fun files e =>
           match e with
           | ToPickle file names table => <[file := (names, table)]> files
           | _ => files
           end) ∅ tr.

(** ** The training loop

    [model.fit_generator] belongs to Keras; what it does with the callback
    is its documented contract: [on_batch_begin] runs before every
    [train_on_batch], the step loop and the epoch loop both leave as soon
    as [stop_training] is set, and [on_epoch_end] receives the epoch's
    logged loss.  The optimizer step, the batches drawn by [Generator] and
    the aggregation of the step losses into the logged loss are taken as
    given. *)
Section Training.
Variable generator : nat -> Batch.
Variable train_on_batch :
  ELModel -> Batch -> option (matrix * matrix * pyfloat).
Variable epoch_logs : list pyfloat -> pyfloat.
Variable steps_per_epoch : nat.

Fixpoint run_steps (cb : Checkpoint) (n : nat) (w : World)
    (losses : list pyfloat) : option (World * list pyfloat) :=
  match n with
  | O => Some (w, losses)
  | S n =>
      let w := on_batch_begin cb w in
      '(cls, rel, l) ← train_on_batch (model w) (generator (steps_run w));
      let w := mkWorld (set_tables cls rel (model w)) (stop_training w)
                 (trace w) (S (steps_run w)) in
      if stop_training w then Some (w, losses ++ [l])
      else run_steps cb n w (losses ++ [l])
  end.

Fixpoint fit_generator (epochs epoch : nat) (cb : Checkpoint) (w : World)
    : option (Checkpoint * World) :=
  match epochs with
  | O => Some (cb, w)
  | S epochs =>
      '(w, losses) ← run_steps cb steps_per_epoch w [];
      '(cb, w) ← on_epoch_end cb w epoch (epoch_logs losses);
      if stop_training w then Some (cb, w)
      else fit_generator epochs (S epoch) cb w
  end.
End Training.

(** ** Class indices ([load_data]) and the top concept ([main]) *)

(** [if c not in classes: classes[c] = len(classes)]. *)
Definition add_class (c : string) (classes : gmap string nat)
    : gmap string nat :=
  match classes !! c with
  | Some _ => classes
  | None => <[c := size classes]> classes
  end.

(** The last branch of [load_data] on the two tokens of a line
    [SubClassOf(c d)]: both classes are indexed, the pair is stored. *)
Definition load_nf1 (c d : string) (classes : gmap string nat)
    : gmap string nat * option (nat * nat) :=
  let classes := add_class c classes in
  let classes := add_class d classes in
  (classes, ci ← classes !! c; di ← classes !! d; Some (ci, di)).

(** [top = classes.get('owl:Thing', None)]. *)
Definition get_top (classes : gmap string nat) : option nat :=
  classes !! "owl:Thing"%string.

(** ** Python strings

    A [str] is a [string]; the input files are taken to be ASCII. *)

(** [s.startswith(p)]. *)
Definition startswith (p s : string) : bool := String.prefix p s.

(** [s[n:]] for a non-negative [n]. *)
Fixpoint drop_chars (n : nat) (s : string) : string :=
  match n, s with
  | O, _ => s
  | S n, String _ s => drop_chars n s
  | S _, EmptyString => EmptyString
  end.

(** [s[:-1]]. *)
Fixpoint drop_last (s : string) : string :=
  match s with
  | EmptyString => EmptyString
  | String _ EmptyString => EmptyString
  | String a s => String a (drop_last s)
  end.

(** [a.isspace()] on the ASCII range: space, tab to carriage return, and
    the four separators 0x1c to 0x1f. *)
Definition is_space (a : ascii) : bool :=
  let n := nat_of_ascii a in
  (n =? 32)%nat || ((9 <=? n)%nat && (n <=? 13)%nat)
  || ((28 <=? n)%nat && (n <=? 31)%nat).

Fixpoint lstrip (s : string) : string :=
  match s with
  | EmptyString => EmptyString
  | String a s' => if is_space a then lstrip s' else s
  end.

Fixpoint rstrip (s : string) : string :=
  match s with
  | EmptyString => EmptyString
  | String a s' =>
      match rstrip s' with
      | EmptyString => if is_space a then EmptyString
                       else String a EmptyString
      | t => String a t
      end
  end.

(** [s.strip()]. *)
Definition strip (s : string) : string := rstrip (lstrip s).

(** [s.split(' ')]: cut at every single space, empty pieces kept. *)
Fixpoint split_space (s : string) : list string :=
  match s with
  | EmptyString => [EmptyString]
  | String a s' =>
      if Ascii.eqb a " "%char then EmptyString :: split_space s'
      else match split_space s' with
           | t :: ts => String a t :: ts
           | [] => [String a EmptyString]
           end
  end.

(** [s.split()]: cut at runs of whitespace, no empty piece. *)
Fixpoint split_ws_from (cur : string) (s : string) : list string :=
  match s with
  | EmptyString =>
      match cur with EmptyString => [] | _ => [cur] end
  | String a s' =>
      if is_space a then
        match cur with
        | EmptyString => split_ws_from EmptyString s'
        | _ => cur :: split_ws_from EmptyString s'
        end
      else split_ws_from (cur +:+ String a EmptyString) s'
  end.

Definition split_ws (s : string) : list string := split_ws_from EmptyString s.

(** [s.find(p) != -1]. *)
Fixpoint contains (p s : string) : bool :=
  String.prefix p s
  || match s with
     | EmptyString => false
     | String _ s' => contains p s'
     end.

(** ** Python dictionaries of indices

    [classes] and [relations] map a name to its index; a [dict] also
    keeps its keys in insertion order, which [classes.items()] follows. *)
Record IndexDict := mkIndexDict {
  d_map : gmap string nat;
  d_keys : list string
}.

Definition empty_dict : IndexDict := mkIndexDict ∅ [].

(** [if c not in classes: classes[c] = len(classes)]. *)
Definition add_key (c : string) (d : IndexDict) : IndexDict :=
  mkIndexDict (add_class c (d_map d))
    (match d_map d !! c with
     | Some _ => d_keys d
     | None => d_keys d ++ [c]
     end).

(** [classes.items()]. *)
Definition items (d : IndexDict) : list (string * nat) :=
  omap (fun k => i ← d_map d !! k; Some (k, i)) (d_keys d).

(** ** The axiom parser ([load_data], as [main] calls it: [index=True]) *)

Record AxiomData := mkAxiomData {
  a_nf1 : list (nat * nat);
  a_nf2 : list (nat * nat * nat);
  a_nf3 : list (nat * nat * nat);
  a_nf4 : list (nat * nat * nat);
  a_disjoint : list (nat * nat * nat)
}.

Record Parsed := mkParsed {
  p_data : AxiomData;
  p_classes : IndexDict;
  p_relations : IndexDict
}.

Definition empty_parsed : Parsed :=
  mkParsed (mkAxiomData [] [] [] [] []) empty_dict empty_dict.

(** The branch on [ObjectIntersectionOf(]: C and D SubClassOf E. *)
Definition load_intersection (line : string) (st : Parsed)
    : option Parsed :=
  let it := split_space line in
  it0 ← it !! 0%nat; it1 ← it !! 1%nat; it2 ← it !! 2%nat;
  let c := drop_chars 21 it0 in
  let d := drop_last it1 in
  let e := it2 in
  let classes := add_key e (add_key d (add_key c (p_classes st))) in
  ci ← d_map classes !! c; di ← d_map classes !! d;
  ei ← d_map classes !! e;
  let data := p_data st in
  let data :=
    if decide (e = "owl:Nothing"%string) then
      mkAxiomData (a_nf1 data) (a_nf2 data) (a_nf3 data) (a_nf4 data)
        (a_disjoint data ++ [(ci, di, ei)])
    else
      mkAxiomData (a_nf1 data) (a_nf2 data ++ [(ci, di, ei)]) (a_nf3 data)
        (a_nf4 data) (a_disjoint data) in
  Some (mkParsed data classes (p_relations st)).

(** The branch on [ObjectSomeValuesFrom(] first: R some C SubClassOf D. *)
Definition load_some_first (line : string) (st : Parsed) : option Parsed :=
  let it := split_space line in
  it0 ← it !! 0%nat; it1 ← it !! 1%nat; it2 ← it !! 2%nat;
  let r := drop_chars 21 it0 in
  let c := drop_last it1 in
  let d := it2 in
  let classes := add_key d (add_key c (p_classes st)) in
  let relations := add_key r (p_relations st) in
  ri ← d_map relations !! r; ci ← d_map classes !! c;
  di ← d_map classes !! d;
  let data := p_data st in
  Some (mkParsed
          (mkAxiomData (a_nf1 data) (a_nf2 data) (a_nf3 data)
             (a_nf4 data ++ [(ri, ci, di)]) (a_disjoint data))
          classes relations).

(** The branch on [ObjectSomeValuesFrom] elsewhere: C SubClassOf R some D. *)
Definition load_some_second (line : string) (st : Parsed)
    : option Parsed :=
  let it := split_space line in
  it0 ← it !! 0%nat; it1 ← it !! 1%nat; it2 ← it !! 2%nat;
  let c := it0 in
  let r := drop_chars 21 it1 in
  let d := drop_last it2 in
  let classes := add_key d (add_key c (p_classes st)) in
  let relations := add_key r (p_relations st) in
  ci ← d_map classes !! c; ri ← d_map relations !! r;
  di ← d_map classes !! d;
  let data := p_data st in
  Some (mkParsed
          (mkAxiomData (a_nf1 data) (a_nf2 data)
             (a_nf3 data ++ [(ci, ri, di)]) (a_nf4 data) (a_disjoint data))
          classes relations).

(** The last branch: C SubClassOf D. *)
Definition load_subclass (line : string) (st : Parsed) : option Parsed :=
  let it := split_space line in
  it0 ← it !! 0%nat; it1 ← it !! 1%nat;
  let c := it0 in
  let d := it1 in
  let classes := add_key d (add_key c (p_classes st)) in
  ci ← d_map classes !! c; di ← d_map classes !! d;
  let data := p_data st in
  Some (mkParsed
          (mkAxiomData (a_nf1 data ++ [(ci, di)]) (a_nf2 data) (a_nf3 data)
             (a_nf4 data) (a_disjoint data))
          classes (p_relations st)).

(** The body of [for line in f]. *)
Definition load_line (st : Parsed) (line : string) : option Parsed :=
  if startswith "SubObjectPropertyOf" line then Some st
  else
    let line := drop_last (drop_chars 11 (strip line)) in
    match line with
    | EmptyString => Some st
    | _ =>
        if startswith "ObjectIntersectionOf(" line then
          load_intersection line st
        else if startswith "ObjectSomeValuesFrom(" line then
          load_some_first line st
        else if contains "ObjectSomeValuesFrom" line then
          load_some_second line st
        else load_subclass line st
    end.

(** The loop over the lines of the file. *)
Definition load_lines (lines : list string) : option Parsed :=
  foldl (fun st line => st ← st; load_line st line) (Some empty_parsed)
    lines.

(** [val[index]]: the rows of [val] in the order of [index]. *)
Definition take {A} (val : list A) (index : list nat) : option (list A) :=
  mapM (fun i => val !! i) index.

(** [load_data]: the parse, then every axiom set reordered by
    [np.random.shuffle] of [np.arange(len)] under the fixed seed 100;
    [shuffle n] is the order that call leaves for [n] rows. *)
Definition load_data (shuffle : nat -> list nat) (lines : list string)
    : option Parsed :=
  st ← load_lines lines;
  let data := p_data st in
  nf1 ← take (a_nf1 data) (shuffle (length (a_nf1 data)));
  nf2 ← take (a_nf2 data) (shuffle (length (a_nf2 data)));
  nf3 ← take (a_nf3 data) (shuffle (length (a_nf3 data)));
  nf4 ← take (a_nf4 data) (shuffle (length (a_nf4 data)));
  dis ← take (a_disjoint data) (shuffle (length (a_disjoint data)));
  Some (mkParsed (mkAxiomData nf1 nf2 nf3 nf4 dis) (p_classes st)
          (p_relations st)).

(** ** The validation triples ([load_valid_data]) *)

(** [f'<http://{tok}>']. *)
Definition wrap_uri (tok : string) : string :=
  ("<http://" +:+ tok +:+ ">")%string.

(** The body of [for line in f] in [load_valid_data]. *)
Definition load_valid_line (classes relations : gmap string nat)
    (data : list (nat * nat * nat)) (line : string)
    : option (list (nat * nat * nat)) :=
  let it := split_ws (strip line) in
  it0 ← it !! 0%nat; it1 ← it !! 1%nat; it2 ← it !! 2%nat;
  let id1 := wrap_uri it0 in
  let id2 := wrap_uri it1 in
  let rel := wrap_uri it2 in
  match classes !! id1, classes !! id2, relations !! rel with
  | Some c, Some d, Some r => Some (data ++ [(c, r, d)])
  | _, _, _ => Some data
  end.

Definition load_valid_data (lines : list string)
    (classes relations : gmap string nat) : option (list (nat * nat * nat)) :=
  foldl (fun data line => data ← data; load_valid_line classes relations
                                         data line)
    (Some []) lines.

(** ** The set-up of [main] (elembedding.py, after the parameter block) *)

Definition go_prefix : string := "<http://purl.obolibrary.org/obo/GO_".

(** [proteins]: the classes whose name does not start with the GO
    prefix, in the order of [classes.items()]. *)
Definition select_proteins (classes : IndexDict) : list (string * nat) :=
  List.filter (fun kv => negb (startswith go_prefix kv.1)) (items classes).

(** [{v: k for k, v in classes.items()}]. *)
Definition invert (d : IndexDict) : gmap nat string :=
  foldl (fun inv kv => <[kv.2 := kv.1]> inv) ∅ (items d).

(** [cls_list]: [cls_dict[i]] for [i] in [range(nb_classes)]. *)
Definition names_by_index (d : IndexDict) : option (list string) :=
  mapM (fun i => invert d !! i) (seq 0 (size (d_map d))).

(** [nb_train_data]: the size of the largest axiom set. *)
Definition nb_train_data (data : AxiomData) : nat :=
  foldl (fun acc n => n `max` acc) 0%nat
    [length (a_nf1 data); length (a_nf2 data); length (a_nf3 data);
     length (a_nf4 data); length (a_disjoint data)].

(** [int(math.ceil(nb_train_data / (1.0 * batch_size)))]; the division
    raises for a batch size of 0. *)
Definition train_steps (nb batch_size : nat) : option nat :=
  if decide (batch_size = 0%nat) then None
  else Some ((nb + batch_size - 1) `div` batch_size)%nat.

Record Setup := mkSetup {
  su_train_data : AxiomData;
  su_classes : IndexDict;
  su_relations : IndexDict;
  su_nb_classes : nat;
  su_nb_relations : nat;
  su_train_steps : nat;
  su_checkpoint : Checkpoint
}.

(** [main] from [load_data] to the construction of the callback. *)
Definition main_setup (shuffle : nat -> list nat)
    (lines valid_lines : list string)
    (out_classes_file out_relations_file : string) (batch_size : nat)
    : option Setup :=
  st ← load_data shuffle lines;
  let classes := p_classes st in
  let relations := p_relations st in
  valid_data ← load_valid_data valid_lines (d_map classes)
                  (d_map relations);
  let proteins := select_proteins classes in
  let nb_classes := size (d_map classes) in
  let nb_relations := size (d_map relations) in
  steps ← train_steps (nb_train_data (p_data st)) batch_size;
  cls_list ← names_by_index classes;
  rel_list ← names_by_index relations;
  let top := get_top (d_map classes) in
  Some (mkSetup (p_data st) classes relations nb_classes nb_relations steps
          (init_checkpoint out_classes_file out_relations_file cls_list
             rel_list valid_data proteins top)).

(** ** The example sampler ([class Generator])

    [np.random.choice(a, size)] draws [size] indices below [a]; it is
    taken as a function of the state of the random generator. *)
Section Sampler.
Variable rng : Type.
Variable choice : rng -> nat -> nat -> option (list nat * rng).

Record Generator := mkGenerator {
  g_data : AxiomData;
  g_batch_size : nat;
  g_steps : nat;
  g_start : nat
}.

(** [Generator.reset]. *)
Definition reset (g : Generator) : Generator :=
  mkGenerator (g_data g) (g_batch_size g) (g_steps g) 0.

(** [Generator.next]: a batch with its zero labels, or [None] (the
    [else] branch returns nothing) after a reset. *)
Definition next (g : Generator) (r : rng)
    : option (option (Batch * list R) * Generator * rng) :=
  if decide (g_start g < g_steps g)%nat then
    let data := g_data g in
    let bs := g_batch_size g in
    '(nf1_index, r) ← choice r (length (a_nf1 data)) bs;
    '(nf2_index, r) ← choice r (length (a_nf2 data)) bs;
    '(nf3_index, r) ← choice r (length (a_nf3 data)) bs;
    '(nf4_index, r) ← choice r (length (a_nf4 data)) bs;
    '(dis_index, r) ← choice r (length (a_disjoint data)) bs;
    nf1 ← take (a_nf1 data) nf1_index;
    nf2 ← take (a_nf2 data) nf2_index;
    nf3 ← take (a_nf3 data) nf3_index;
    nf4 ← take (a_nf4 data) nf4_index;
    dis ← take (a_disjoint data) dis_index;
    let labels := replicate bs 0 in
    Some (Some (mkBatch nf1 nf2 nf3 nf4 dis, labels),
          mkGenerator data bs (g_steps g) (g_start g + 1), r)
  else
    Some (None, reset g, r).

(** [n] calls of [next] in a row, with what each returned. *)
Fixpoint next_n (n : nat) (g : Generator) (r : rng)
    : option (list (option (Batch * list R)) * Generator * rng) :=
  match n with
  | O => Some ([], g, r)
  | S n =>
      '(out, g, r) ← next g r;
      '(outs, g, r) ← next_n n g r;
      Some (out :: outs, g, r)
  end.
End Sampler.

(** ** The filtered ranks ([main] in evaluate_interactions.py)

    From the class indices of the triples on, as [evaluate_scores]; the
    [labels] and [preds] matrices, which only feed the ROC curve, are
    left out. *)

(** [np.ones((n, n))]. *)
Definition ones (n : nat) : matrix := replicate n (replicate n 1).

(** The body of the two loops that fill [trlabels]: the matrix of the
    relation is created when the relation is met first, and the pair of
    the triple is set to 0 in it. *)
Definition mark_known (n : nat) (prot_dict : gmap nat nat)
    (trlabels : gmap nat matrix) (t : nat * nat * nat)
    : option (gmap nat matrix) :=
  let '(c, r, d) := t in
  c ← prot_dict !! c;
  d ← prot_dict !! d;
  let labels := default (ones n) (trlabels !! r) in
  row ← labels !! c;
  if decide (d < length row)%nat
  then Some (<[r := <[c := <[d := 0]> row]> labels]> trlabels)
  else None.

(** [trlabels] after the loop over [train_data] and the loop over
    [valid_data]. *)
Definition make_trlabels (n : nat) (prot_dict : gmap nat nat)
    (train_data valid_data : list (nat * nat * nat))
    : option (gmap nat matrix) :=
  let fill := foldl (fun acc t => acc ← acc; mark_known n prot_dict acc t) in
  fill (fill (Some ∅) train_data) valid_data.

(** [x * y] on two vectors: element-wise when the lengths agree; a vector
    of one entry is broadcast over the other; any other pair of shapes is
    an error. *)
Definition tmul (x y : list R) : option (list R) :=
  if decide (length x = length y) then Some (zip_with Rmult x y)
  else match x, y with
       | [a], _ => Some ((fun v => a * v) <$> y)
       | _, [b] => Some ((fun v => v * b) <$> x)
       | _, _ => None
       end.

(** [rankdata(-(res * trlabels[r][c, :]), method='average')[d]] for a
    triple that has been scored. *)
Definition filtered_rank (trlabels : gmap nat matrix)
    (prot_dict : gmap nat nat) (s : Scored) (t : nat * nat * nat)
    : option R :=
  let '(c, r, d) := t in
  c ← prot_dict !! c;
  d ← prot_dict !! d;
  labels ← trlabels !! r;
  row ← labels !! c;
  masked ← tmul (s_res s) row;
  rankdata_average (Ropp <$> masked) d.

(** The counters of one kind of rank: [top1], [top10], [top100] and
    [mean_rank] (or [ftop1], ... for the filtered rank). *)
Record Tally := mkTally {
  top1 : nat;
  top10 : nat;
  top100 : nat;
  mean_rank : R
}.

Definition empty_tally : Tally := mkTally 0 0 0 0.

(** The three [if]s on [rank] and [mean_rank += rank]. *)
Definition count_rank (rank : R) (t : Tally) : Tally :=
  mkTally (if Req_dec_T rank 1 then S (top1 t) else top1 t)
    (if Rle_dec rank 10 then S (top10 t) else top10 t)
    (if Rle_dec rank 100 then S (top100 t) else top100 t)
    (mean_rank t + rank).

(** The loop over the test triples. *)
Fixpoint test_loop (mg : R) (rembeds : matrix) (prot_dict : gmap nat nat)
    (prot_rs : list R) (trlabels : gmap nat matrix) (prot_embeds : matrix)
    (data : list (nat * nat * nat)) (raw filtered : Tally)
    : option (Tally * Tally) :=
  match data with
  | [] => Some (raw, filtered)
  | t :: data =>
      s ← score_triple mg rembeds prot_dict prot_rs prot_embeds t;
      frank ← filtered_rank trlabels prot_dict s t;
      test_loop mg rembeds prot_dict prot_rs trlabels (s_prot_embeds s) data
        (count_rank (s_rank s) raw) (count_rank frank filtered)
  end.

(** The metrics printed at the end: every counter divided by [n]. *)
Record Metrics := mkMetrics {
  m_top1 : R;
  m_top10 : R;
  m_top100 : R;
  m_mean_rank : R
}.

Definition averaged (n : nat) (t : Tally) : Metrics :=
  mkMetrics (INR (top1 t) / INR n) (INR (top10 t) / INR n)
    (INR (top100 t) / INR n) (mean_rank t / INR n).

(** The evaluation: the raw and the filtered metrics.  The division by
    [n = len(test_data)] raises for an empty test set. *)
Definition evaluate_ranks (mg : R) (embeds rembeds : matrix)
    (prot_index : list nat)
    (train_data valid_data test_data : list (nat * nat * nat))
    : option (Metrics * Metrics) :=
  let rs := fmap (fun e => Rabs (last_coord e)) embeds in
  let embeds := fmap center embeds in
  prot_rs ← mapM (fun i => rs !! i) prot_index;
  prot_embeds ← take_rows embeds prot_index;
  let prot_dict := make_prot_dict prot_index in
  trlabels ← make_trlabels (length prot_embeds) prot_dict train_data
                valid_data;
  '(raw, filtered) ← test_loop mg rembeds prot_dict prot_rs trlabels
                        prot_embeds test_data empty_tally empty_tally;
  let n := length test_data in
  if decide (n = 0%nat) then None
  else Some (averaged n raw, averaged n filtered).

(** ** The parameter array ([main], the block on [params_array_index]) *)

Definition orgs : list string := ["human"; "yeast"]%string.
Definition sizes : list Z := [50; 100; 200; 400]%Z.
Definition margins : list R := [- (1 / 10); - (1 / 100); 0; 1 / 100; 1 / 10].
Definition reg_norms : list Z := [1%Z].

Record Params := mkParams {
  p_org : option string;
  p_embedding_size : Z;
  p_margin : R;
  p_reg_norm : Z
}.

(** [l[i]] for an index that the source computes with [%], hence never
    negative. *)
Definition py_get {A} (l : list A) (i : Z) : option A :=
  if decide (0 <= i)%Z then l !! Z.to_nat i else l !! Z.to_nat (Z.of_nat (length l) + i).

(** The options after the block: the command-line values when the index is
    -1, the decomposed ones otherwise.  [//] and [%] are Python's floor
    division and modulo, which [Z.div] and [Z.modulo] are. *)
Definition main_params (embedding_size : Z) (reg_norm : Z) (margin : R)
    (params_array_index : Z) : option Params :=
  if decide (params_array_index ≠ (-1)%Z) then
    reg_norm ← py_get reg_norms 0;
    margin ← py_get margins (params_array_index `mod` 5)%Z;
    let params_array_index := (params_array_index `div` 5)%Z in
    embedding_size ← py_get sizes (params_array_index `mod` 4)%Z;
    let params_array_index := (params_array_index `div` 4)%Z in
    org ← py_get orgs (params_array_index `mod` 2)%Z;
    Some (mkParams (Some org) embedding_size margin reg_norm)
  else
    Some (mkParams None embedding_size margin reg_norm).

(** ** The formulas of the specification, for comparison *)

(** The NF2 loss as the specification words it: four relu terms, the
    margin inside the first and the last, the last one reading the radius
    of [d], plus the three regularizations. *)
Definition nf2_spec_row (m : ELModel) (ex : nat * nat * nat) : option R :=
  let '(c, d, e) := ex in
  c ← embed (cls_embeddings m) c;
  d ← embed (cls_embeddings m) d;
  e ← embed (cls_embeddings m) e;
  let rc := Rabs (last_coord c) in
  let rd := Rabs (last_coord d) in
  let term_a := relu (norm (vsub (center d) (center c))
                      - (rc + rd - margin m)) in
  let term_b := relu (norm (vsub (center e) (center c)) - rc) in
  let term_c := relu (norm (vsub (center e) (center d)) - rd) in
  let term_d := relu (Rmin rc rd - rd - margin m) in
  Some (term_a + term_b + term_c + term_d
        + reg m (center c) + reg m (center d) + reg m (center e)).

(** A stored row with the sign of its radius coordinate flipped. *)
Definition negate_radius (x : vec) : vec :=
  match x with
  | [] => []
  | _ => center x ++ [- last_coord x]
  end.

(** The class table with the radius coordinate of class [i] negated. *)
Definition negate_class (i : nat) (cls : matrix) : matrix :=
  match cls !! i with
  | Some x => <[i := negate_radius x]> cls
  | None => cls
  end.

(** Two class tables that hold the same balls: same centers, same radii
    up to sign. *)
Definition same_balls (cls cls' : matrix) : Prop :=
  Forall2 (fun x y => center x = center y
                      /\ Rabs (last_coord x) = Rabs (last_coord y)) cls cls'.

(** The tables have the shapes [ELModel.__init__] gives them: class rows
    of width [embedding_size + 1], relation rows of width
    [embedding_size]. *)
Definition well_shaped (embedding_size : nat) (cls rel : matrix) : Prop :=
  Forall (fun x => length x = S embedding_size) cls
  /\ Forall (fun r => length r = embedding_size) rel.

(** A triple is well-formed when both proteins are in [prot_index] and the
    relation is in the relation table. *)
Definition triple_ok (index : list nat) (rel : matrix)
    (t : nat * nat * nat) : Prop :=
  t.1.1 ∈ index /\ t.2 ∈ index /\ (t.1.2 < length rel)%nat.

(** The row with every coordinate negated. *)
Definition vneg (x : vec) : vec := Ropp <$> x.

(** Every index of a batch is a row of its table. *)
Definition batch_in_range (m : ELModel) (input : Batch) : Prop :=
  let nc := length (cls_embeddings m) in
  let nr := length (rel_embeddings m) in
  Forall (fun ex => (ex.1 < nc)%nat /\ (ex.2 < nc)%nat) (b_nf1 input)
  /\ Forall (fun ex => (ex.1.1 < nc)%nat /\ (ex.1.2 < nc)%nat
                       /\ (ex.2 < nc)%nat) (b_nf2 input)
  /\ Forall (fun ex => (ex.1.1 < nc)%nat /\ (ex.1.2 < nr)%nat
                       /\ (ex.2 < nc)%nat) (b_nf3 input)
  /\ Forall (fun ex => (ex.1.1 < nr)%nat /\ (ex.1.2 < nc)%nat
                       /\ (ex.2 < nc)%nat) (b_nf4 input)
  /\ Forall (fun ex => (ex.1.1 < nc)%nat /\ (ex.1.2 < nc)%nat)
       (b_dis input).

(** Every batch has [batch_size] rows. *)
Definition batch_full (m : ELModel) (input : Batch) : Prop :=
  length (b_nf1 input) = batch_size m
  /\ length (b_nf2 input) = batch_size m
  /\ length (b_nf3 input) = batch_size m
  /\ length (b_nf4 input) = batch_size m
  /\ length (b_dis input) = batch_size m.

(** The scores of [res] strictly above [x], and those equal to [x]. *)
Definition scores_above (x : R) (res : list R) : list R :=
  List.filter (fun y => if Rlt_dec x y then true else false) res.
Definition scores_equal (x : R) (res : list R) : list R :=
  List.filter (fun y => if Req_dec_T y x then true else false) res.

(** Row [j] of the candidate matrix after the triples of [data] have been
    scored in order: every triple whose query protein sits at position [j]
    adds its relation vector. *)
Fixpoint moved_row (rembeds : matrix) (prot_dict : gmap nat nat) (j : nat)
    (row : vec) (data : list (nat * nat * nat)) : vec :=
  match data with
  | [] => row
  | (c, r, _) :: data =>
      match prot_dict !! c, rembeds !! r with
      | Some c', Some er =>
          moved_row rembeds prot_dict j
            (if decide (c' = j) then vadd row er else row) data
      | _, _ => row
      end
  end.

(** The candidate matrix a pass ends with. *)
Definition final_embeds (prot_embeds : matrix) (scored : list Scored)
    : matrix :=
  from_option s_prot_embeds prot_embeds (last scored).

(** An index dictionary is dense when the index of a name is its position
    in the order of insertion. *)
Definition dense (d : IndexDict) : Prop :=
  size (d_map d) = length (d_keys d)
  /\ forall (k : string) (i : nat),
       d_map d !! k = Some i <-> d_keys d !! i = Some k.

(** Every index stored in the axiom sets is below the given numbers of
    classes and relations. *)
Definition axioms_in_range (nc nr : nat) (data : AxiomData) : Prop :=
  Forall (fun ex => (ex.1 < nc)%nat /\ (ex.2 < nc)%nat) (a_nf1 data)
  /\ Forall (fun ex => (ex.1.1 < nc)%nat /\ (ex.1.2 < nc)%nat
                       /\ (ex.2 < nc)%nat) (a_nf2 data)
  /\ Forall (fun ex => (ex.1.1 < nc)%nat /\ (ex.1.2 < nr)%nat
                       /\ (ex.2 < nc)%nat) (a_nf3 data)
  /\ Forall (fun ex => (ex.1.1 < nr)%nat /\ (ex.1.2 < nc)%nat
                       /\ (ex.2 < nc)%nat) (a_nf4 data)
  /\ Forall (fun ex => (ex.1.1 < nc)%nat /\ (ex.1.2 < nc)%nat
                       /\ (ex.2 < nc)%nat) (a_disjoint data).

(** What the parse keeps true after every line. *)
Definition parsed_ok (st : Parsed) : Prop :=
  dense (p_classes st) /\ dense (p_relations st)
  /\ axioms_in_range (size (d_map (p_classes st)))
       (size (d_map (p_relations st))) (p_data st).

(** [st'] extends [st]: no index of [st] has changed, the new names come
    after the old ones. *)
Definition extends (st st' : Parsed) : Prop :=
  d_keys (p_classes st) `prefix_of` d_keys (p_classes st')
  /\ d_keys (p_relations st) `prefix_of` d_keys (p_relations st')
  /\ (forall k i, d_map (p_classes st) !! k = Some i ->
                  d_map (p_classes st') !! k = Some i)
  /\ (forall k i, d_map (p_relations st) !! k = Some i ->
                  d_map (p_relations st') !! k = Some i).

(** The clause [load_data] reads from a line: the line stripped, without
    its first 11 characters and its last one. *)
Definition clause_of (line : string) : string :=
  drop_last (drop_chars 11 (strip line)).

(** A line that is not skipped and whose clause holds no space. *)
Definition unsplittable (line : string) : Prop :=
  startswith "SubObjectPropertyOf" line = false
  /\ clause_of line <> EmptyString
  /\ contains " " (clause_of line) = false.

(** A line of the validation file with fewer than three fields. *)
Definition short_line (line : string) : Prop :=
  (length (split_ws (strip line)) < 3)%nat.

(** The triple a line of the validation file stands for, when its three
    names are known. *)
Definition valid_triple_of (classes relations : gmap string nat)
    (line : string) : option (nat * nat * nat) :=
  let it := split_ws (strip line) in
  it0 ← it !! 0%nat; it1 ← it !! 1%nat; it2 ← it !! 2%nat;
  c ← classes !! wrap_uri it0;
  d ← classes !! wrap_uri it1;
  r ← relations !! wrap_uri it2;
  Some (c, r, d).

(** What [np.random.choice(a, size)] does: [size] indices below [a]; it
    raises only when [a] is 0 and a sample is asked for. *)
Definition choice_draws {rng : Type}
    (choice : rng -> nat -> nat -> option (list nat * rng)) : Prop :=
  forall (r : rng) (a n : nat),
    match choice r a n with
    | Some (l, _) => length l = n /\ Forall (fun i => (i < a)%nat) l
    | None => a = 0%nat /\ n <> 0%nat
    end.

(** No axiom set is empty. *)
Definition nonempty_sets (data : AxiomData) : Prop :=
  a_nf1 data <> [] /\ a_nf2 data <> [] /\ a_nf3 data <> []
  /\ a_nf4 data <> [] /\ a_disjoint data <> [].

(** Every row of the batch is an axiom of the matching set. *)
Definition batch_drawn_from (data : AxiomData) (b : Batch) : Prop :=
  Forall (fun x => x ∈ a_nf1 data) (b_nf1 b)
  /\ Forall (fun x => x ∈ a_nf2 data) (b_nf2 b)
  /\ Forall (fun x => x ∈ a_nf3 data) (b_nf3 b)
  /\ Forall (fun x => x ∈ a_nf4 data) (b_nf4 b)
  /\ Forall (fun x => x ∈ a_disjoint data) (b_dis b).

(** Each of the five parts of the batch has [n] rows. *)
Definition batch_rows (n : nat) (b : Batch) : Prop :=
  length (b_nf1 b) = n /\ length (b_nf2 b) = n /\ length (b_nf3 b) = n
  /\ length (b_nf4 b) = n /\ length (b_dis b) = n.

(** What a call of [next] returned is a batch of [n] rows drawn from
    [data], with [n] zero labels. *)
Definition drawn_batch (data : AxiomData) (n : nat)
    (out : option (Batch * list R)) : Prop :=
  exists b : Batch,
    out = Some (b, replicate n 0)
    /\ batch_drawn_from data b /\ batch_rows n b.

(** What holds of [trlabels] while it is filled from the triples [known]:
    a matrix exists only for a relation of a known triple, is [n] by [n],
    holds only 0 and 1, and a 0 marks the pair of a known triple. *)
Definition labels_ok (n : nat) (prot_dict : gmap nat nat)
    (known : list (nat * nat * nat)) (trlabels : gmap nat matrix) : Prop :=
  forall (r : nat) (labels : matrix),
    trlabels !! r = Some labels ->
    length labels = n
    /\ (exists t, t ∈ known /\ t.1.2 = r)
    /\ forall (c' : nat) (row : list R),
         labels !! c' = Some row ->
         length row = n
         /\ forall (d' : nat) (v : R),
              row !! d' = Some v ->
              (v = 0 \/ v = 1)
              /\ (v = 0 ->
                  exists c d, (c, r, d) ∈ known
                              /\ prot_dict !! c = Some c'
                              /\ prot_dict !! d = Some d').

(** The filtered counters are at least the raw ones, the filtered sum of
    ranks at most the raw one; the counters are ordered and bounded by
    the number [k] of triples counted. *)
Definition tally_dominates (k : nat) (raw filtered : Tally) : Prop :=
  (top1 raw <= top1 filtered)%nat
  /\ (top10 raw <= top10 filtered)%nat
  /\ (top100 raw <= top100 filtered)%nat
  /\ mean_rank filtered <= mean_rank raw
  /\ (top1 filtered <= top10 filtered)%nat
  /\ (top10 filtered <= top100 filtered)%nat
  /\ (top100 filtered <= k)%nat.

(** The files hold the tables of one model whose validation pass gives
    [best_rank]: the relation file its relation table, and the class file
    its class table unless both names are one file, which the relation
    table then holds. *)
Definition saved_best (cb : Checkpoint)
    (files : gmap string (list string * matrix)) : Prop :=
  exists (m : ELModel) (scored : list Scored),
    checkpoint_scores (margin m) (cls_embeddings m) (rel_embeddings m)
      (prot_index cb) (valid_data cb) = Some scored
    /\ mean_rank_of scored (length (valid_data cb)) = best_rank cb
    /\ files !! out_relations_file cb = Some (rel_list cb, rel_embeddings m)
    /\ (out_classes_file cb <> out_relations_file cb ->
        files !! out_classes_file cb = Some (cls_list cb, cls_embeddings m)).

(** ** Concrete inputs

    Small tables with one-coordinate centers, on which the functions above
    are evaluated. *)

Definition toy_model (mg : R) (cls rel : matrix) : ELModel :=
  mkELModel mg 1 1 cls rel (make_top_embed 1).

Definition toy_world (m : ELModel) : World := mkWorld m false [] 0.

(** One class at the origin with radius 0, margin 0.01. *)
Definition origin_model : ELModel := toy_model (1 / 100) [[0; 0]] [].

(** One protein of radius 1 and one relation that does not move it. *)
Definition solo_model : ELModel := toy_model 0 [[0; 1]] [[0]].
Definition solo_checkpoint : Checkpoint :=
  init_checkpoint "cls.pkl" "rel.pkl" ["<http://p0>"] ["<http://r0>"]
    [(0, 0, 0)%nat] [("<http://p0>"%string, 0%nat)] None.

(** Two proteins of radius 1 at 0 and at 1, and a relation that moves a
    center by 1. *)
Definition hist_cls : matrix := [[0; 1]; [1; 1]].
Definition hist_rel : matrix := [[1]].
Definition hist_triple : nat * nat * nat := (0, 0, 1)%nat.

(** Three proteins: radius 3 at 0, radius 1 at 1, radius 1/2 at 1; one
    relation that does not move a center. *)
Definition sign_cls : matrix := [[0; 3]; [1; 1]; [1; 1 / 2]].
Definition sign_rel : matrix := [[0]].
Definition sign_triple : nat * nat * nat := (0, 0, 1)%nat.

(** The class index after a first line [SubClassOf(owl:Thing <A>)]. *)
Definition thing_first_classes : gmap string nat :=
  (load_nf1 "owl:Thing" "<A>" ∅).1.
Definition thing_first_checkpoint : Checkpoint :=
  init_checkpoint "cls.pkl" "rel.pkl" ["owl:Thing"; "<A>"] [] [] []
    (get_top thing_first_classes).
Definition thing_first_world : World :=
  toy_world (toy_model 0 [[0; 1]; [0; 1]] []).

(** A training step that changes nothing and reports a NaN loss; the
    logged epoch loss is the loss of the last step. *)
Definition nan_step (m : ELModel) (b : Batch)
    : option (matrix * matrix * pyfloat) :=
  Some (cls_embeddings m, rel_embeddings m, NaN).
Definition empty_batches (step : nat) : Batch := mkBatch [] [] [] [] [].
Definition last_loss (losses : list pyfloat) : pyfloat :=
  List.last losses (Finite 0).

(** Two classes, one relation, one example of each normal form. *)
Definition pair_model : ELModel := toy_model 0 hist_cls hist_rel.
Definition pair_batch : Batch :=
  mkBatch [(0, 1)%nat] [(0, 1, 1)%nat] [(0, 0, 1)%nat] [(0, 0, 1)%nat]
    [(0, 1, 0)%nat].

(** A checkpoint whose top concept is the class of index 1. *)
Definition top_last_checkpoint : Checkpoint :=
  init_checkpoint "cls.pkl" "rel.pkl" ["<A>"; "owl:Thing"] ["<r>"] [] []
    (Some 1%nat).

(** One protein, and a validation triple whose target is a class that is
    not a protein. *)
Definition outside_checkpoint : Checkpoint :=
  init_checkpoint "cls.pkl" "rel.pkl" ["<http://p0>"; "<GO>"]
    ["<http://r0>"] [(0, 0, 1)%nat] [("<http://p0>"%string, 0%nat)] None.

(** The world [nan_step] leaves after its first epoch on [solo_model]. *)
Definition nan_halted_world : World :=
  mkWorld (set_tables [[0; 1]] [[0]] solo_model) true [PrintNanLoss] 1.

(** An ontology file with one axiom of each of the five forms, and what
    [load_data] reads from it. *)
Definition toy_lines : list string :=
  ["SubClassOf(<http://4932.P1> <http://purl.obolibrary.org/obo/GO_1>)";
   "SubClassOf(ObjectIntersectionOf(<http://4932.P1> <http://4932.P2>) <http://purl.obolibrary.org/obo/GO_1>)";
   "SubClassOf(<http://4932.P1> ObjectSomeValuesFrom(<http://binding> <http://4932.P2>))";
   "SubClassOf(ObjectSomeValuesFrom(<http://binding> <http://4932.P2>) <http://purl.obolibrary.org/obo/GO_1>)";
   "SubClassOf(ObjectIntersectionOf(<http://4932.P1> <http://purl.obolibrary.org/obo/GO_1>) owl:Nothing)"
  ]%string.

Definition toy_classes : IndexDict :=
  mkIndexDict
    (list_to_map
       [("<http://4932.P1>", 0); ("<http://purl.obolibrary.org/obo/GO_1>", 1);
        ("<http://4932.P2>", 2); ("owl:Nothing", 3)]%string%nat)
    ["<http://4932.P1>"; "<http://purl.obolibrary.org/obo/GO_1>";
     "<http://4932.P2>"; "owl:Nothing"]%string.

Definition toy_relations : IndexDict :=
  mkIndexDict (list_to_map [("<http://binding>"%string, 0%nat)])
    ["<http://binding>"%string].

Definition toy_data : AxiomData :=
  mkAxiomData [(0, 1)%nat] [(0, 2, 1)%nat] [(0, 0, 2)%nat] [(0, 2, 1)%nat]
    [(0, 1, 3)%nat].

Definition toy_parsed : Parsed := mkParsed toy_data toy_classes toy_relations.

(** The parse of the first two lines of [toy_lines]. *)
Definition toy_parsed_prefix : Parsed :=
  mkParsed (mkAxiomData [(0, 1)%nat] [(0, 2, 1)%nat] [] [] [])
    (mkIndexDict
       (list_to_map
          [("<http://4932.P1>", 0);
           ("<http://purl.obolibrary.org/obo/GO_1>", 1);
           ("<http://4932.P2>", 2)]%string%nat)
       ["<http://4932.P1>"; "<http://purl.obolibrary.org/obo/GO_1>";
        "<http://4932.P2>"]%string)
    empty_dict.

(** A shuffle that reverses the order. *)
Definition rev_shuffle (n : nat) : list nat := reverse (seq 0 n).

(** A validation file: a known interaction, then one with an unknown
    protein. *)
Definition toy_valid_lines : list string :=
  ["4932.P1 4932.P2 binding"; "4932.P1 4932.P9 binding"]%string.

Definition toy_setup : Setup :=
  mkSetup toy_data toy_classes toy_relations 4 1 1
    (init_checkpoint "cls.pkl" "rel.pkl" (d_keys toy_classes)
       (d_keys toy_relations) [(0, 0, 2)%nat]
       [("<http://4932.P1>", 0); ("<http://4932.P2>", 2);
        ("owl:Nothing", 3)]%string%nat
       None).

(** A sampler over a state-free random source that always draws row 0. *)
Definition first_choice (r : unit) (a n : nat)
    : option (list nat * unit) :=
  if decide (a = 0 /\ n <> 0)%nat then None else Some (replicate n 0%nat, r).

Definition toy_generator : Generator := mkGenerator toy_data 1 2 0.

Definition empty_generator : Generator :=
  mkGenerator (mkAxiomData [(0, 1)%nat] [] [] [] []) 1 2 0.

(** A model with four classes and one relation, batch size 1. *)
Definition toy_sized_model : ELModel :=
  toy_model 0 [[0; 1]; [1; 1]; [2; 1]; [3; 1]] [[1]].

(** The evaluation of [hist_triple] when the pair of class 0 with itself
    is a training triple: the raw and the filtered metrics. *)
Definition hist_train : list (nat * nat * nat) := [(0, 0, 0)%nat].
Definition hist_raw_metrics : Metrics :=
  averaged 1 (mkTally 0 1 1 (0 + 3 / 2)).
Definition hist_filtered_metrics : Metrics :=
  averaged 1 (mkTally 1 1 1 (0 + 1)).

(** A training step that changes nothing and reports the loss 0, and the
    world two epochs of it leave from [solo_model]: the first epoch saves,
    the second validates to the same mean rank and does not. *)
Definition keep_step (m : ELModel) (b : Batch)
    : option (matrix * matrix * pyfloat) :=
  Some (cls_embeddings m, rel_embeddings m, Finite 0).
Definition solo_saved_trace : list event :=
  [PrintValidation 1 1; PrintSaving 1 1;
   ToPickle "cls.pkl" ["<http://p0>"%string] [[0; 1]];
   ToPickle "rel.pkl" ["<http://r0>"%string] [[0]]].
Definition solo_twice_world : World :=
  mkWorld solo_model false (solo_saved_trace ++ [PrintValidation 2 1]) 2.

(** * Properties *)

(** Evaluation of closed real expressions: absolute values, maxima and
    comparisons whose arguments [lra] can order. *)
Ltac real_step :=
  match goal with
  | |- context [Rabs ?e] =>
      first [rewrite (Rabs_pos_eq e) by lra | rewrite (Rabs_left1 e) by lra]
  | |- context [Rmax ?a ?b] =>
      first [rewrite (Rmax_left a b) by lra | rewrite (Rmax_right a b) by lra]
  | |- context [Rmin ?a ?b] =>
      first [rewrite (Rmin_left a b) by lra | rewrite (Rmin_right a b) by lra]
  | |- context [exp 0] => rewrite exp_0
  | |- context [exp ?e] => replace e with 0 by lra
  | |- context [Rlt_dec ?a ?b] =>
      destruct (Rlt_dec a b) as [? | ?];
      [try (exfalso; lra) | try (exfalso; lra)]
  | |- context [Req_dec_T ?a ?b] =>
      let Hn := fresh "Hn" in
      destruct (Req_dec_T a b) as [? | Hn];
      [try (exfalso; lra) | try (exfalso; apply Hn; lra)]
  end.

(** ** Real-number facts used below *)

Lemma relu_nonneg (x : R) : 0 <= relu x.
Proof. unfold relu. apply Rmax_r. Qed.

Lemma relu_zero_iff (x : R) : relu x = 0 <-> x <= 0.
Proof.
  unfold relu, Rmax. destruct (Rle_dec x 0) as [Hle | Hgt]; split; intros; lra.
Qed.

Lemma relu_of_nonpos (x : R) : x <= 0 -> relu x = 0.
Proof. apply relu_zero_iff. Qed.

Lemma relu_of_nonneg (x : R) : 0 <= x -> relu x = x.
Proof. intros Hx. unfold relu, Rmax. destruct (Rle_dec x 0); lra. Qed.

Lemma sum_sq_nonneg (x : vec) : 0 <= sum_sq x.
Proof.
  induction x as [| a x IH]; simpl; [lra |].
  pose proof (Rle_0_sqr a) as Ha. unfold Rsqr in Ha. lra.
Qed.

Lemma norm_nonneg (x : vec) : 0 <= norm x.
Proof. apply sqrt_pos. Qed.

Lemma norm_nil : norm [] = 0.
Proof. unfold norm. simpl. apply sqrt_0. Qed.

Lemma norm_single (a : R) : norm [a] = Rabs a.
Proof.
  unfold norm. simpl. rewrite Rplus_0_r. apply (sqrt_Rsqr_abs a).
Qed.

Lemma exp_ge_1 (x : R) : 0 <= x -> 1 <= exp x.
Proof.
  intros [Hx | <-]; [| rewrite exp_0; lra].
  pose proof (exp_increasing 0 x Hx) as H. rewrite exp_0 in H. lra.
Qed.


(** [1 / exp e] lies in (0, 1] for a non-negative [e] and does not grow
    with [e]. *)
Lemma inv_exp_range (e : R) : 0 <= e -> 0 < 1 / exp e <= 1.
Proof.
  intros He. pose proof (exp_ge_1 e He) as H1. pose proof (exp_pos e) as Hp.
  split.
  - apply Rdiv_lt_0_compat; lra.
  - apply (Rmult_le_reg_r (exp e)); [lra |]. field_simplify; lra.
Qed.



(** ** Batches of one row *)

Lemma mapM_single {A B} (f : A -> option B) (x : A) (y : B) :
  f x = Some y -> mapM f [x] = Some [y].
Proof. intros Hx. cbn [mapM]. rewrite Hx. reflexivity. Qed.

(** ** The containment primitive *)

(** C2: [loss c d] is the relu of the center distance plus radius(c) minus
    radius(d), plus the two regularization terms, radius being the absolute
    value of the last coordinate and center the other coordinates; the relu
    part is zero exactly when the center distance plus radius(c) is at most
    radius(d); with both radii zero the loss is the center distance plus
    the two regularization terms. *)
Theorem loss_containment (m : ELModel) (c d : vec) :
  let dist := norm (vsub (center c) (center d)) in
  let rc := Rabs (last_coord c) in
  let rd := Rabs (last_coord d) in
  loss m c d
    = relu (dist + rc - rd)
      + Rabs (norm (center c) - reg_norm m)
      + Rabs (norm (center d) - reg_norm m)
  /\ loss m c d
     = containment_violation c d + reg m (center c) + reg m (center d)
  /\ (containment_violation c d = 0 <-> dist + rc <= rd)
  /\ (rc = 0 -> rd = 0 ->
      loss m c d = dist + reg m (center c) + reg m (center d)).
Proof.
  intros dist rc rd. repeat split.
  - unfold containment_violation. fold dist rc rd.
    rewrite relu_zero_iff. lra.
  - unfold containment_violation. fold dist rc rd.
    intros Hle. apply relu_zero_iff. lra.
  - intros Hc Hd. unfold loss. fold rc rd dist. rewrite Hc, Hd.
    rewrite relu_of_nonneg; [lra |].
    pose proof (norm_nonneg (vsub (center c) (center d))). fold dist in H. lra.
Qed.

(** ** Disjointness *)

Lemma dis_row_split (m : ELModel) (c d e : nat) (vc vd : vec) :
  cls_embeddings m !! c = Some vc ->
  cls_embeddings m !! d = Some vd ->
  dis_row m (c, d, e)
  = Some (dis_violation m vc vd + reg m (center vc) + reg m (center vd)).
Proof. intros Hc Hd. unfold dis_row, embed. now rewrite Hc, Hd. Qed.

(** C5, as the code has it: the relu part of the disjointness loss is
    [relu (radius(c) + radius(d) - distance + margin)], and it is zero
    exactly when the center distance is at least
    radius(c) + radius(d) + margin. *)
Theorem dis_violation_zero_iff (m : ELModel) (c d : vec) :
  dis_violation m c d
    = relu (Rabs (last_coord c) + Rabs (last_coord d)
            - norm (vsub (center d) (center c)) + margin m)
  /\ (dis_violation m c d = 0 <->
      norm (vsub (center d) (center c))
        >= Rabs (last_coord c) + Rabs (last_coord d) + margin m).
Proof.
  split; [reflexivity |].
  unfold dis_violation. rewrite relu_zero_iff. split; intros; lra.
Qed.

(** ** The candidate score *)

Lemma overlap_range (mg rc prs dst : R) : 0 <= overlap mg rc prs dst <= 1.
Proof.
  unfold overlap. destruct (Rlt_dec 0 rc) as [Hrc | Hrc].
  - set (v := Rmax (dst + rc - prs - mg) 0).
    assert (0 <= v) by apply Rmax_r.
    split; [apply Rmax_l |].
    apply Rmax_lub; [lra |].
    apply (Rmult_le_reg_r (2 * rc)); [lra |]. field_simplify; lra.
  - destruct (Req_dec_T _ 0); lra.
Qed.


Lemma edst_nonneg (mg rc prs dst : R) : 0 <= edst mg rc prs dst.
Proof. apply Rmax_l. Qed.



Lemma inv_np_exp_range (e : R) : 0 <= e -> 0 <= inv_np_exp e <= 1.
Proof.
  intros He. unfold inv_np_exp. pose proof (inv_exp_range e He).
  destruct (Rlt_dec float32_max (exp e)); lra.
Qed.









(** ** The parameter array *)

(** C10: for a non-negative index the margin is [margins[i mod 5]], the
    embedding size [sizes[(i div 5) mod 4]] and the organism
    [orgs[(i div 20) mod 2]]; index 0 gives margin -0.1, size 50 and
    [orgs[0]], index 5 gives margin -0.1, size 100 and [orgs[0]]. *)
Theorem main_params_mixed_radix (es rn : Z) (mg : R) (i : Z) :
  (0 <= i)%Z ->
  (exists (mg' : R) (es' : Z) (org : string),
      margins !! Z.to_nat (i `mod` 5) = Some mg'
      /\ sizes !! Z.to_nat ((i `div` 5) `mod` 4) = Some es'
      /\ orgs !! Z.to_nat ((i `div` 20) `mod` 2) = Some org
      /\ main_params es rn mg i = Some (mkParams (Some org) es' mg' 1))
  /\ main_params es rn mg 0
     = Some (mkParams (Some "human"%string) 50 (- (1 / 10)) 1)
  /\ main_params es rn mg 5
     = Some (mkParams (Some "human"%string) 100 (- (1 / 10)) 1).
Proof.
  intros Hi. split; [| split; reflexivity].
  assert (Hm : (0 <= i `mod` 5 < 5)%Z) by (apply Z.mod_pos_bound; lia).
  assert (Hs : (0 <= (i `div` 5) `mod` 4 < 4)%Z)
    by (apply Z.mod_pos_bound; lia).
  assert (Ho : (0 <= (i `div` 20) `mod` 2 < 2)%Z)
    by (apply Z.mod_pos_bound; lia).
  assert (H20 : ((i `div` 5) `div` 4 = i `div` 20)%Z)
    by (rewrite Z.div_div by lia; reflexivity).
  destruct (lookup_lt_is_Some_2 margins (Z.to_nat (i `mod` 5)))
    as [mg' Hmg]; [simpl; lia |].
  destruct (lookup_lt_is_Some_2 sizes (Z.to_nat ((i `div` 5) `mod` 4)))
    as [es' Hes]; [simpl; lia |].
  destruct (lookup_lt_is_Some_2 orgs (Z.to_nat ((i `div` 20) `mod` 2)))
    as [org Horg]; [simpl; lia |].
  exists mg', es', org. repeat split; try assumption.
  unfold main_params, py_get.
  rewrite decide_True by lia. simpl.
  rewrite (decide_True (P := (0 <= i `mod` 5)%Z)) by lia.
  rewrite Hmg. simpl.
  rewrite (decide_True (P := (0 <= (i `div` 5) `mod` 4)%Z)) by lia.
  rewrite Hes. simpl. rewrite H20.
  rewrite (decide_True (P := (0 <= (i `div` 20) `mod` 2)%Z)) by lia.
  rewrite Horg. reflexivity.
Qed.

(** ** The NF2 loss *)

Lemma nf2_row_rows (m : ELModel) (c d e : nat) (vc vd ve : vec) :
  cls_embeddings m !! c = Some vc ->
  cls_embeddings m !! d = Some vd ->
  cls_embeddings m !! e = Some ve ->
  nf2_row m (c, d, e)
  = Some (relu (norm (vsub (center vd) (center vc))
                - (Rabs (last_coord vc) + Rabs (last_coord vd)))
          + relu (norm (vsub (center ve) (center vc)) - Rabs (last_coord vc))
          + relu (norm (vsub (center ve) (center vd)) - Rabs (last_coord vd))
          + relu (Rmin (Rabs (last_coord vc)) (Rabs (last_coord vd))
                  - Rabs (last_coord vd))
          - margin m
          + reg m (center vc) + reg m (center vd) + reg m (center ve)).
Proof.
  intros Hc Hd He. unfold nf2_row, embed. rewrite Hc, Hd, He. reflexivity.
Qed.

(** The fourth relu of the NF2 loss compares min(radius(c), radius(d))
    with radius(d) itself, so it never contributes. *)
Lemma nf2_rdst_zero (rc rd : R) : relu (Rmin rc rd - rd) = 0.
Proof. apply relu_of_nonpos. pose proof (Rmin_r rc rd). lra. Qed.

(** C1, as the code has it: the NF2 loss of an example (c, d, e) is
    relu(dist(C,D) - (radius(C) + radius(D))) + relu(dist(E,C) - radius(C))
    + relu(dist(E,D) - radius(D)) + relu(min(radius(C), radius(D)) -
    radius(D)), minus the margin once, outside every relu, plus the
    regularization of the three centers; the fourth relu, which reads
    radius(D) where radius(E) would stand, is always zero. *)
Theorem nf2_loss_formula (m : ELModel) (c d e : nat) (vc vd ve : vec) :
  cls_embeddings m !! c = Some vc ->
  cls_embeddings m !! d = Some vd ->
  cls_embeddings m !! e = Some ve ->
  let rc := Rabs (last_coord vc) in
  let rd := Rabs (last_coord vd) in
  let dst := norm (vsub (center vd) (center vc)) in
  let dst2 := norm (vsub (center ve) (center vc)) in
  let dst3 := norm (vsub (center ve) (center vd)) in
  nf2_loss m [(c, d, e)]
  = Some [relu (dst - (rc + rd)) + relu (dst2 - rc) + relu (dst3 - rd)
          + relu (Rmin rc rd - rd) - margin m
          + reg m (center vc) + reg m (center vd) + reg m (center ve)]
  /\ relu (Rmin rc rd - rd) = 0
  /\ nf2_loss m [(c, d, e)]
     = Some [relu (dst - (rc + rd)) + relu (dst2 - rc) + relu (dst3 - rd)
             - margin m
             + reg m (center vc) + reg m (center vd) + reg m (center ve)].
Proof.
  intros Hc Hd He rc rd dst dst2 dst3.
  assert (Hrow := nf2_row_rows m c d e vc vd ve Hc Hd He).
  fold rc rd dst dst2 dst3 in Hrow.
  assert (Hz := nf2_rdst_zero rc rd).
  split; [| split; [exact Hz |]].
  - unfold nf2_loss. now apply mapM_single.
  - unfold nf2_loss. apply mapM_single. rewrite Hrow. f_equal.
    rewrite Hz. lra.
Qed.

(** ** The validation pass completes on well-formed input *)

Lemma foldl_dict_spec (l : list (nat * nat)) (acc : gmap nat nat) (n : nat) :
  (forall k c, (k, c) ∈ l -> (k < n)%nat) ->
  (forall c k, acc !! c = Some k -> (k < n)%nat) ->
  let dict := foldl (fun dict kv => <[kv.2 := kv.1]> dict) acc l in
  (forall c k, dict !! c = Some k -> (k < n)%nat)
  /\ (forall c, is_Some (acc !! c) \/ (exists k, (k, c) ∈ l) ->
                is_Some (dict !! c)).
Proof.
  revert acc. induction l as [| [k0 c0] l IH]; intros acc Hl Hacc; simpl.
  - split; [exact Hacc |]. intros c [Hc | [k Hk]]; [exact Hc |].
    now apply elem_of_nil in Hk.
  - destruct (IH (<[c0 := k0]> acc)) as [IH1 IH2].
    + intros k c Hkc. apply (Hl k c). now apply list_elem_of_further.
    + intros c k Hck. apply lookup_insert_Some in Hck.
      destruct Hck as [[<- <-] | [_ Hck]]; [| now apply (Hacc c)].
      apply (Hl k0 c0). apply list_elem_of_here.
    + split; [exact IH1 |]. intros c Hc. apply IH2.
      destruct (decide (c0 = c)) as [<- | Hne].
      * left. rewrite lookup_insert_eq. now eexists.
      * destruct Hc as [Hc | [k Hk]].
        -- left. now rewrite lookup_insert_ne.
        -- right. exists k. apply elem_of_cons in Hk.
           destruct Hk as [Heq | Hk]; [congruence | exact Hk].
Qed.

(** Every class of [prot_index] has a position in [prot_dict], and every
    position stored there is inside [prot_index]. *)
Lemma prot_dict_lookup (index : list nat) (c : nat) :
  c ∈ index ->
  exists k, make_prot_dict index !! c = Some k /\ (k < length index)%nat.
Proof.
  intros Hc. unfold make_prot_dict, enumerate.
  destruct (foldl_dict_spec (zip (seq 0 (length index)) index) ∅
              (length index)) as [Hbound Hdom].
  - intros k c' Hk. apply elem_of_zip_l in Hk. apply elem_of_seq in Hk. lia.
  - intros c' k Hk. now rewrite lookup_empty in Hk.
  - destruct (Hdom c) as [k Hk].
    + right. apply list_elem_of_lookup_1 in Hc. destruct Hc as [i Hi].
      exists i. apply (list_elem_of_lookup_2 _ i).
      rewrite lookup_zip_with.
      rewrite lookup_seq_lt by (now apply lookup_lt_Some in Hi).
      rewrite Hi. reflexivity.
    + exists k. split; [exact Hk | now apply (Hbound c)].
Qed.

Lemma rankdata_average_is_Some (a : list R) (i : nat) :
  (i < length a)%nat -> is_Some (rankdata_average a i).
Proof.
  intros Hi. unfold rankdata_average.
  destruct (lookup_lt_is_Some_2 a i Hi) as [x Hx]. rewrite Hx. now eexists.
Qed.

Lemma score_triple_is_Some (mg : R) (rel : matrix) (index : list nat)
    (prot_rs : list R) (prot_embeds : matrix) (t : nat * nat * nat) :
  length prot_rs = length index ->
  length prot_embeds = length index ->
  triple_ok index rel t ->
  exists s, score_triple mg rel (make_prot_dict index) prot_rs prot_embeds t
            = Some s
            /\ length (s_prot_embeds s) = length index.
Proof.
  intros Hrs Hpe. destruct t as [[c r] d]. intros (Hc & Hd & Hr). simpl in *.
  destruct (prot_dict_lookup index c Hc) as (c' & Ec & Hc').
  destruct (prot_dict_lookup index d Hd) as (d' & Ed & Hd').
  destruct (lookup_lt_is_Some_2 prot_embeds c') as [ec Eec]; [lia |].
  destruct (lookup_lt_is_Some_2 prot_rs c') as [rc Erc]; [lia |].
  destruct (lookup_lt_is_Some_2 rel r Hr) as [er Eer].
  unfold score_triple. rewrite Ec, Ed. simpl.
  unfold matrix, vec in *. rewrite Eec, Erc. simpl. rewrite Eer. simpl.
  match goal with
  | |- context [rankdata_average ?a d'] =>
      destruct (rankdata_average_is_Some a d') as [rank Hrank]
  end.
  - rewrite length_fmap, length_zip_with, length_fmap, length_insert. lia.
  - rewrite Hrank. simpl. eexists. split; [reflexivity |]. simpl.
    now rewrite length_insert.
Qed.

Lemma score_all_is_Some (mg : R) (rel : matrix) (index : list nat)
    (prot_rs : list R) (data : list (nat * nat * nat)) :
  length prot_rs = length index ->
  Forall (triple_ok index rel) data ->
  forall prot_embeds : matrix,
    length prot_embeds = length index ->
    is_Some (score_all mg rel (make_prot_dict index) prot_rs prot_embeds data).
Proof.
  intros Hrs Hdata. induction Hdata as [| t data Ht _ IH]; intros pe Hpe.
  - now eexists.
  - destruct (score_triple_is_Some mg rel index prot_rs pe t Hrs Hpe Ht)
      as (s & Hs & Hlen).
    cbn [score_all]. rewrite Hs. simpl.
    destruct (IH (s_prot_embeds s) Hlen) as [rest Hrest]. rewrite Hrest.
    now eexists.
Qed.

(** The validation pass of the callback returns its ranks whenever the
    proteins are classes of the table and the triples are well-formed. *)
Lemma checkpoint_scores_is_Some (mg : R) (cls rel : matrix)
    (index : list nat) (data : list (nat * nat * nat)) :
  Forall (fun i => (i < length cls)%nat) index ->
  Forall (triple_ok index rel) data ->
  is_Some (checkpoint_scores mg cls rel index data).
Proof.
  intros Hindex Hdata. unfold checkpoint_scores, take_rows.
  destruct (mapM_is_Some_2 (fun i => cls !! i) index) as [rows Hrows].
  - eapply Forall_impl; [exact Hindex |]. intros i Hi.
    now apply lookup_lt_is_Some_2.
  - rewrite Hrows. simpl. apply mapM_Some_1, Forall2_length in Hrows.
    apply score_all_is_Some; [| exact Hdata |]; now rewrite length_fmap.
Qed.

(** ** The checkpoint callback *)

Lemma pickles_app (tr1 tr2 : list event) :
  pickles (tr1 ++ tr2) = pickles tr1 ++ pickles tr2.
Proof. unfold pickles. apply List.filter_app. Qed.

Lemma pickles_snapshot (cb : Checkpoint) (m : ELModel) :
  pickles (snapshot cb m) = snapshot cb m.
Proof. reflexivity. Qed.

(** With a NaN loss the callback only sets [stop_training] and prints. *)
Lemma on_epoch_end_nan (cb : Checkpoint) (w : World) (epoch : nat) :
  on_epoch_end cb w epoch NaN
  = Some (cb, mkWorld (model w) true (trace w ++ [PrintNanLoss])
                (steps_run w)).
Proof. reflexivity. Qed.

(** The scoring branch of the callback, once the ranks are known. *)
Lemma on_epoch_end_scored (cb : Checkpoint) (w : World) (epoch : nat)
    (current_loss : pyfloat) (scored : list Scored) :
  isnan current_loss = false ->
  valid_data cb <> [] ->
  checkpoint_scores (margin (model w)) (cls_embeddings (model w))
    (rel_embeddings (model w)) (prot_index cb) (valid_data cb)
  = Some scored ->
  let mean_rank := mean_rank_of scored (length (valid_data cb)) in
  on_epoch_end cb w epoch current_loss
  = if Rlt_dec mean_rank (best_rank cb) then
      Some (set_best_rank mean_rank cb,
            mkWorld (model w) (stop_training w)
              (trace w ++ [PrintValidation (epoch + 1) mean_rank]
               ++ PrintSaving (epoch + 1) mean_rank :: snapshot cb (model w))
              (steps_run w))
    else
      Some (cb, mkWorld (model w) (stop_training w)
                  (trace w ++ [PrintValidation (epoch + 1) mean_rank])
                  (steps_run w)).
Proof.
  intros Hnan Hne Hsc mean_rank. unfold on_epoch_end.
  rewrite Hnan. rewrite decide_False by (destruct (valid_data cb); easy).
  rewrite Hsc. simpl. fold mean_rank.
  destruct (Rlt_dec mean_rank (best_rank cb)); [| reflexivity].
  rewrite <- app_assoc. reflexivity.
Qed.

(** The callback returns on every loss when the proteins are classes of
    the table and the validation triples are well-formed. *)
Lemma on_epoch_end_is_Some (cb : Checkpoint) (w : World) (epoch : nat)
    (current_loss : pyfloat) :
  Forall (fun i => (i < length (cls_embeddings (model w)))%nat)
    (prot_index cb) ->
  Forall (triple_ok (prot_index cb) (rel_embeddings (model w)))
    (valid_data cb) ->
  is_Some (on_epoch_end cb w epoch current_loss).
Proof.
  intros Hindex Hdata. unfold on_epoch_end.
  destruct (isnan current_loss); [now eexists |].
  destruct (decide (length (valid_data cb) = 0%nat)); [now eexists |].
  destruct (checkpoint_scores_is_Some (margin (model w))
              (cls_embeddings (model w)) (rel_embeddings (model w))
              (prot_index cb) (valid_data cb) Hindex Hdata) as [scored Hsc].
  rewrite Hsc. simpl.
  destruct (Rlt_dec _ (best_rank cb)); now eexists.
Qed.

(** C9: with a non-empty validation set and a loss that is not NaN (a
    finite one in particular), the epoch pickles the class table and the
    relation table, whole, exactly when its mean rank is strictly below
    [best_rank]; it then stores the mean rank as the new [best_rank];
    otherwise it pickles nothing and keeps [best_rank].  [best_rank]
    starts at 100000. *)
Theorem on_epoch_end_persists_iff_improved (cb : Checkpoint) (w : World)
    (epoch : nat) (current_loss : pyfloat) (scored : list Scored) :
  isnan current_loss = false ->
  valid_data cb <> [] ->
  checkpoint_scores (margin (model w)) (cls_embeddings (model w))
    (rel_embeddings (model w)) (prot_index cb) (valid_data cb)
  = Some scored ->
  let mean_rank := mean_rank_of scored (length (valid_data cb)) in
  (forall ocf orf cl rl vd pr tp,
      best_rank (init_checkpoint ocf orf cl rl vd pr tp) = 100000)
  /\ exists (cb' : Checkpoint) (w' : World) (new : list event),
      on_epoch_end cb w epoch current_loss = Some (cb', w')
      /\ trace w' = trace w ++ new
      /\ model w' = model w
      /\ (pickles new <> [] <-> mean_rank < best_rank cb)
      /\ (mean_rank < best_rank cb ->
          pickles new
          = [ToPickle (out_classes_file cb) (cls_list cb)
               (cls_embeddings (model w));
             ToPickle (out_relations_file cb) (rel_list cb)
               (rel_embeddings (model w))]
          /\ best_rank cb' = mean_rank)
      /\ (~ mean_rank < best_rank cb -> pickles new = [] /\ cb' = cb).
Proof.
  intros Hnan Hne Hsc mean_rank. split; [reflexivity |].
  pose proof (on_epoch_end_scored cb w epoch current_loss scored Hnan Hne Hsc)
    as Hrun.
  cbv zeta in Hrun. fold mean_rank in Hrun.
  destruct (Rlt_dec mean_rank (best_rank cb)) as [Hlt | Hge].
  - eexists _, _, _. split; [exact Hrun |]. simpl.
    split; [reflexivity |]. split; [reflexivity |].
    split; [split; [intros _; exact Hlt | intros _; discriminate] |].
    split; [intros _; split; reflexivity | intros Hn; contradiction].
  - eexists _, _, _. split; [exact Hrun |]. simpl.
    split; [reflexivity |]. split; [reflexivity |].
    split; [split; [intros Hp; now contradiction Hp | intros Hlt; contradiction] |].
    split; [intros Hlt; contradiction | intros _; split; reflexivity].
Qed.

(** ** The training loop *)

Section TrainingFacts.
Variable generator : nat -> Batch.
Variable train_on_batch :
  ELModel -> Batch -> option (matrix * matrix * pyfloat).
Variable epoch_logs : list pyfloat -> pyfloat.
Variable steps_per_epoch : nat.

(** C7, as the code has it: when the epoch-end loss is NaN the callback
    scores nothing and pickles nothing, it sets [stop_training] and keeps
    [best_rank]; the training loop returns at once, so no further step
    runs and the trace holds no pickle that was not there before. *)
Theorem nan_loss_halts_training (epochs epoch : nat) (cb : Checkpoint)
    (w w1 : World) (losses : list pyfloat) :
  run_steps generator train_on_batch cb steps_per_epoch w [] = Some (w1, losses) ->
  epoch_logs losses = NaN ->
  on_epoch_end cb w1 epoch NaN
  = Some (cb, mkWorld (model w1) true (trace w1 ++ [PrintNanLoss])
                (steps_run w1))
  /\ exists w2 : World,
      fit_generator generator train_on_batch epoch_logs steps_per_epoch
        (S epochs) epoch cb w
      = Some (cb, w2)
      /\ stop_training w2 = true
      /\ steps_run w2 = steps_run w1
      /\ model w2 = model w1
      /\ trace w2 = trace w1 ++ [PrintNanLoss]
      /\ pickles (trace w2) = pickles (trace w1).
Proof.
  intros Hsteps Hnan. split; [reflexivity |].
  eexists. split.
  - simpl. rewrite Hsteps. simpl. rewrite Hnan. simpl. reflexivity.
  - simpl. repeat split. rewrite pickles_app. simpl. apply app_nil_r.
Qed.

(** A positive top index is pinned before the step trains. *)
Lemma on_batch_begin_pins_positive (cb : Checkpoint) (w : World) (k : nat) :
  top cb = Some (S k) ->
  (S k < length (cls_embeddings (model w)))%nat ->
  cls_embeddings (model (on_batch_begin cb w)) !! S k
  = Some (top_embed (model w)).
Proof.
  intros Htop Hlen. unfold on_batch_begin. rewrite Htop. simpl.
  now apply list_lookup_insert_eq.
Qed.
End TrainingFacts.

(** ** Evaluation on the concrete inputs *)

Ltac real_eval :=
  unfold score, inv_np_exp, overlap, edst, relu, reg, last_coord, center;
  simpl; rewrite ?norm_single, ?norm_nil; unfold float32_max;
  repeat real_step.

(** Equality of evaluated tensors, entry by entry. *)
Ltac tensor_eq :=
  repeat match goal with
    | |- @eq R _ _ => lra
    | |- Some _ = Some _ => f_equal
    | |- _ :: _ = _ :: _ => f_equal
    | |- mkScored _ _ _ _ = mkScored _ _ _ _ => f_equal
    | |- _ => reflexivity
    end.

Lemma prot_dict_one : make_prot_dict [0%nat] !! 0%nat = Some 0%nat.
Proof. reflexivity. Qed.

Lemma prot_dict_two_0 : make_prot_dict [0; 1]%nat !! 0%nat = Some 0%nat.
Proof. reflexivity. Qed.

Lemma prot_dict_two_1 : make_prot_dict [0; 1]%nat !! 1%nat = Some 1%nat.
Proof. reflexivity. Qed.

Lemma prot_dict_three_0 : make_prot_dict [0; 1; 2]%nat !! 0%nat = Some 0%nat.
Proof. reflexivity. Qed.

Lemma prot_dict_three_1 : make_prot_dict [0; 1; 2]%nat !! 1%nat = Some 1%nat.
Proof. reflexivity. Qed.

(** The validation pass on the single protein: its rank is 1. *)
Lemma solo_scores :
  checkpoint_scores 0 [[0; 1]] [[0]] [0%nat] [(0, 0, 0)%nat]
  = Some [mkScored [[0]] [1] [1] 1].
Proof.
  unfold checkpoint_scores. simpl take_rows. cbn [mbind option_bind].
  unfold score_all, score_triple. rewrite prot_dict_one. simpl.
  real_eval. simpl INR. tensor_eq.
Qed.

(** The same triple scored twice in one pass over [hist_cls]: the second
    time the query row has already been moved once. *)
Lemma hist_scores_twice :
  checkpoint_scores 0 hist_cls hist_rel [0; 1]%nat [hist_triple; hist_triple]
  = Some [mkScored [[1]; [1]] [1; 1] [1; 1] (3 / 2);
          mkScored [[2]; [1]] [1; 1 / 2] [1; 3 / 4] 2].
Proof.
  unfold checkpoint_scores, hist_triple. simpl take_rows.
  cbn [mbind option_bind].
  unfold score_all, score_triple.
  rewrite prot_dict_two_0, prot_dict_two_1. simpl.
  real_eval. simpl INR. tensor_eq.
Qed.

Lemma hist_scores_once :
  checkpoint_scores 0 hist_cls hist_rel [0; 1]%nat [hist_triple]
  = Some [mkScored [[1]; [1]] [1; 1] [1; 1] (3 / 2)].
Proof.
  unfold checkpoint_scores, hist_triple. simpl take_rows.
  cbn [mbind option_bind].
  unfold score_all, score_triple.
  rewrite prot_dict_two_0, prot_dict_two_1. simpl.
  real_eval. simpl INR. tensor_eq.
Qed.

Lemma hist_first_triple :
  score_triple 0 hist_rel (make_prot_dict [0; 1]%nat) [1; 1] [[0]; [1]]
    hist_triple
  = Some (mkScored [[1]; [1]] [1; 1] [1; 1] (3 / 2)).
Proof.
  unfold score_triple, hist_triple.
  rewrite prot_dict_two_0, prot_dict_two_1. simpl.
  real_eval. simpl INR. tensor_eq.
Qed.

(** The validation pass of the callback on [sign_cls] and on [sign_cls]
    with the radius coordinate of class 1 negated. *)
Lemma sign_scores_stored :
  checkpoint_scores 0 sign_cls sign_rel [0; 1; 2]%nat [sign_triple]
  = Some [mkScored [[0]; [1]; [1]] [1; 1 / 2; 5 / 12]
            [1; 3 / 4; 17 / 24] 2].
Proof.
  unfold checkpoint_scores, sign_triple. simpl take_rows.
  cbn [mbind option_bind].
  unfold score_all, score_triple.
  rewrite prot_dict_three_0, prot_dict_three_1. simpl.
  real_eval. simpl INR. tensor_eq.
Qed.

Lemma sign_scores_negated :
  checkpoint_scores 0 (negate_class 1 sign_cls) sign_rel [0; 1; 2]%nat
    [sign_triple]
  = Some [mkScored [[0]; [1]; [1]] [1; 1 / 6; 5 / 12]
            [1; 7 / 12; 17 / 24] 3].
Proof.
  unfold checkpoint_scores, sign_triple. simpl take_rows.
  cbn [mbind option_bind].
  unfold score_all, score_triple.
  rewrite prot_dict_three_0, prot_dict_three_1. simpl.
  real_eval. simpl INR. tensor_eq.
Qed.

(** ** The sign of the stored radius *)

Lemma last_coord_negate (x : vec) :
  last_coord (negate_radius x) = - last_coord x.
Proof.
  destruct x as [| a x]; [simpl; unfold last_coord; simpl; lra |].
  unfold negate_radius, last_coord. apply last_last.
Qed.

Lemma center_negate (x : vec) : center (negate_radius x) = center x.
Proof.
  destruct x as [| a x]; [reflexivity |].
  unfold negate_radius, center at 1. apply removelast_last.
Qed.

Lemma radius_negate (x : vec) :
  Rabs (last_coord (negate_radius x)) = Rabs (last_coord x).
Proof. rewrite last_coord_negate. apply Rabs_Ropp. Qed.

Lemma same_balls_negate_class (i : nat) (cls : matrix) :
  same_balls cls (negate_class i cls).
Proof.
  assert (Hrefl : same_balls cls cls) by (apply Forall2_same_length_lookup_2;
    [reflexivity | intros j x y Hx Hy; rewrite Hx in Hy; now injection Hy as <-]).
  unfold negate_class. destruct (cls !! i) as [x |] eqn:Hi; [| exact Hrefl].
  unfold matrix in *.
  apply Forall2_same_length_lookup_2; [now rewrite length_insert |].
  intros j y z Hy Hz. destruct (decide (i = j)) as [<- | Hne].
  - rewrite list_lookup_insert_eq in Hz by (now apply lookup_lt_Some in Hi).
    rewrite Hi in Hy. injection Hy as <-. injection Hz as <-.
    now rewrite center_negate, radius_negate.
  - rewrite list_lookup_insert_ne in Hz by exact Hne.
    rewrite Hy in Hz. now injection Hz as <-.
Qed.

Lemma same_balls_lookup (cls cls' : matrix) (i : nat) :
  same_balls cls cls' ->
  match cls !! i, cls' !! i with
  | Some x, Some y =>
      center x = center y /\ Rabs (last_coord x) = Rabs (last_coord y)
  | None, None => True
  | _, _ => False
  end.
Proof.
  intros H. unfold same_balls, matrix in *.
  destruct (cls !! i) as [x |] eqn:Hx.
  - destruct (Forall2_lookup_l _ _ _ _ _ H Hx) as (y & Hy & Hxy).
    now rewrite Hy.
  - apply lookup_ge_None in Hx. rewrite (Forall2_length _ _ _ H) in Hx.
    apply lookup_ge_None in Hx. now rewrite Hx.
Qed.

(** The NF1, NF2 and disjointness rows read a class through its center
    and the absolute value of its last coordinate only. *)
Lemma nf1_row_same_balls (m : ELModel) (cls' : matrix) (ex : nat * nat) :
  same_balls (cls_embeddings m) cls' ->
  nf1_row (set_cls_embeddings cls' m) ex = nf1_row m ex.
Proof.
  intros H. destruct ex as [c d]. unfold nf1_row, embed. simpl.
  pose proof (same_balls_lookup _ _ c H) as Hc.
  pose proof (same_balls_lookup _ _ d H) as Hd.
  destruct (cls_embeddings m !! c) as [vc |], (cls' !! c) as [vc' |];
    try contradiction; [| reflexivity].
  destruct (cls_embeddings m !! d) as [vd |], (cls' !! d) as [vd' |];
    try contradiction; [| reflexivity].
  destruct Hc as [Hc1 Hc2], Hd as [Hd1 Hd2]. simpl.
  unfold loss, reg. simpl. now rewrite Hc1, Hc2, Hd1, Hd2.
Qed.

Lemma nf2_row_same_balls (m : ELModel) (cls' : matrix)
    (ex : nat * nat * nat) :
  same_balls (cls_embeddings m) cls' ->
  nf2_row (set_cls_embeddings cls' m) ex = nf2_row m ex.
Proof.
  intros H. destruct ex as [[c d] e]. unfold nf2_row, embed. simpl.
  pose proof (same_balls_lookup _ _ c H) as Hc.
  pose proof (same_balls_lookup _ _ d H) as Hd.
  pose proof (same_balls_lookup _ _ e H) as He.
  destruct (cls_embeddings m !! c) as [vc |], (cls' !! c) as [vc' |];
    try contradiction; [| reflexivity].
  destruct (cls_embeddings m !! d) as [vd |], (cls' !! d) as [vd' |];
    try contradiction; [| reflexivity].
  destruct (cls_embeddings m !! e) as [ve |], (cls' !! e) as [ve' |];
    try contradiction; [| reflexivity].
  destruct Hc as [Hc1 Hc2], Hd as [Hd1 Hd2], He as [He1 He2]. simpl.
  unfold reg. simpl. now rewrite Hc1, Hc2, Hd1, Hd2, He1.
Qed.

Lemma dis_row_same_balls (m : ELModel) (cls' : matrix)
    (ex : nat * nat * nat) :
  same_balls (cls_embeddings m) cls' ->
  dis_row (set_cls_embeddings cls' m) ex = dis_row m ex.
Proof.
  intros H. destruct ex as [[c d] e]. unfold dis_row, embed. simpl.
  pose proof (same_balls_lookup _ _ c H) as Hc.
  pose proof (same_balls_lookup _ _ d H) as Hd.
  destruct (cls_embeddings m !! c) as [vc |], (cls' !! c) as [vc' |];
    try contradiction; [| reflexivity].
  destruct (cls_embeddings m !! d) as [vd |], (cls' !! d) as [vd' |];
    try contradiction; [| reflexivity].
  destruct Hc as [Hc1 Hc2], Hd as [Hd1 Hd2]. simpl.
  unfold dis_violation, reg. simpl. now rewrite Hc1, Hc2, Hd1, Hd2.
Qed.

(** ** NF3 and NF4 under a sign flip of the radius *)

Lemma row_split (x : vec) : x <> [] -> x = center x ++ [last_coord x].
Proof. intros Hx. now apply app_removelast_last. Qed.

Lemma row_of_width (n : nat) (x : vec) :
  length x = S n -> x <> [] /\ length (center x) = n.
Proof.
  intros Hlen. assert (Hx : x <> []) by (now destruct x).
  split; [exact Hx |].
  rewrite (row_split x Hx) in Hlen. rewrite length_app in Hlen.
  simpl in Hlen. lia.
Qed.

Lemma vadd_pad_zero (cx r : vec) (lx : R) :
  length cx = length r ->
  center (vadd (cx ++ [lx]) (pad_zero r)) = vadd cx r
  /\ last_coord (vadd (cx ++ [lx]) (pad_zero r)) = lx + 0.
Proof.
  intros Hlen. unfold vadd, pad_zero.
  rewrite zip_with_app by exact Hlen. simpl. split.
  - apply removelast_last.
  - apply last_last.
Qed.

Lemma vsub_pad_zero (cx r : vec) (lx : R) :
  length cx = length r ->
  center (vsub (cx ++ [lx]) (pad_zero r)) = vsub cx r
  /\ last_coord (vsub (cx ++ [lx]) (pad_zero r)) = lx - 0.
Proof.
  intros Hlen. unfold vsub, pad_zero.
  rewrite zip_with_app by exact Hlen. simpl. split.
  - apply removelast_last.
  - apply last_last.
Qed.

Section SignOfRadius.
Variable m : ELModel.
Variable cls' : matrix.
Variable embedding_size : nat.
Hypothesis shaped :
  well_shaped embedding_size (cls_embeddings m) (rel_embeddings m).
Hypothesis shaped' : well_shaped embedding_size cls' (rel_embeddings m).
Hypothesis same : same_balls (cls_embeddings m) cls'.

Lemma cls_row_width (table rel : matrix) (i : nat) (x : vec) :
  well_shaped embedding_size table rel ->
  table !! i = Some x -> x <> [] /\ length (center x) = embedding_size.
Proof.
  intros [Hcls _] Hx. apply row_of_width.
  exact (proj1 (Forall_lookup _ _) Hcls i x Hx).
Qed.

Lemma rel_row_width (r : nat) (vr : vec) :
  rel_embeddings m !! r = Some vr -> length vr = embedding_size.
Proof.
  intros Hr. destruct shaped as [_ Hrel].
  exact (proj1 (Forall_lookup _ _) Hrel r vr Hr).
Qed.

(** The NF3 row adds the padded relation vector to the stored row, the
    radius slot gets [+ 0], and [loss] then takes its absolute value. *)
Lemma nf3_row_same_balls (ex : nat * nat * nat) :
  nf3_row (set_cls_embeddings cls' m) ex = nf3_row m ex.
Proof.
  destruct ex as [[c r] d]. unfold nf3_row, embed. simpl.
  pose proof (same_balls_lookup _ _ c same) as Hc.
  pose proof (same_balls_lookup _ _ d same) as Hd.
  destruct (cls_embeddings m !! c) as [vc |] eqn:Ec,
           (cls' !! c) as [vc' |] eqn:Ec'; try contradiction;
    [| reflexivity].
  destruct (cls_embeddings m !! d) as [vd |] eqn:Ed,
           (cls' !! d) as [vd' |] eqn:Ed'; try contradiction;
    [| reflexivity].
  simpl. destruct (rel_embeddings m !! r) as [vr |] eqn:Er;
    [| reflexivity].
  simpl. f_equal.
  destruct Hc as [Hc1 Hc2], Hd as [Hd1 Hd2].
  destruct (cls_row_width _ _ c vc shaped Ec) as [Hne Hw].
  destruct (cls_row_width _ _ c vc' shaped' Ec') as [Hne' _].
  pose proof (rel_row_width r vr Er) as Hr.
  assert (Hlen : length (center vc) = length vr) by congruence.
  rewrite (row_split vc Hne), (row_split vc' Hne'), <- Hc1.
  destruct (vadd_pad_zero (center vc) vr (last_coord vc) Hlen) as [E1 E2].
  destruct (vadd_pad_zero (center vc) vr (last_coord vc') Hlen) as [E3 E4].
  unfold loss, reg. simpl.
  rewrite E1, E2, E3, E4, !Rplus_0_r, Hc2, Hd1, Hd2. reflexivity.
Qed.

Lemma nf4_row_same_balls (ex : nat * nat * nat) :
  nf4_row (set_cls_embeddings cls' m) ex = nf4_row m ex.
Proof.
  destruct ex as [[r c] d]. unfold nf4_row, embed. simpl.
  pose proof (same_balls_lookup _ _ c same) as Hc.
  pose proof (same_balls_lookup _ _ d same) as Hd.
  destruct (cls_embeddings m !! c) as [vc |] eqn:Ec,
           (cls' !! c) as [vc' |] eqn:Ec'; try contradiction;
    [| reflexivity].
  destruct (cls_embeddings m !! d) as [vd |] eqn:Ed,
           (cls' !! d) as [vd' |] eqn:Ed'; try contradiction;
    [| reflexivity].
  simpl. destruct (rel_embeddings m !! r) as [vr |] eqn:Er;
    [| reflexivity].
  simpl. f_equal.
  destruct Hc as [Hc1 Hc2], Hd as [Hd1 Hd2].
  destruct (cls_row_width _ _ c vc shaped Ec) as [Hne Hw].
  destruct (cls_row_width _ _ c vc' shaped' Ec') as [Hne' _].
  pose proof (rel_row_width r vr Er) as Hr.
  assert (Hlen : length (center vc) = length vr) by congruence.
  rewrite (row_split vc Hne), (row_split vc' Hne'), <- Hc1.
  destruct (vsub_pad_zero (center vc) vr (last_coord vc) Hlen) as [E1 E2].
  destruct (vsub_pad_zero (center vc) vr (last_coord vc') Hlen) as [E3 E4].
  unfold reg. simpl.
  rewrite E1, E2, E3, E4, !Rminus_0_r, Hc2, Hd1, Hd2. reflexivity.
Qed.
End SignOfRadius.

(** ** The two evaluators under a sign flip of the radius *)

(** A function of a row that does not see the sign of the radius gives
    the same column on the table with one radius negated. *)
Lemma fmap_negate_class {B} (f : vec -> B) (i : nat) (cls : matrix) :
  (forall x, f (negate_radius x) = f x) ->
  f <$> negate_class i cls = f <$> cls.
Proof.
  intros Hf. unfold negate_class, matrix in *.
  destruct (cls !! i) as [x |] eqn:Hi; [| reflexivity].
  rewrite list_fmap_insert, Hf. apply list_insert_id.
  now rewrite list_lookup_fmap, Hi.
Qed.

(** evaluate_interactions.py takes the absolute value of the radius column
    first, so its scores and ranks do not see the sign. *)
Lemma evaluate_scores_negate_class (mg : R) (embeds rembeds : matrix)
    (index : list nat) (data : list (nat * nat * nat)) (i : nat) :
  evaluate_scores mg (negate_class i embeds) rembeds index data
  = evaluate_scores mg embeds rembeds index data.
Proof.
  unfold evaluate_scores.
  rewrite (fmap_negate_class (fun e => Rabs (last_coord e)))
    by apply radius_negate.
  rewrite (fmap_negate_class center) by apply center_negate.
  reflexivity.
Qed.

(** C3 fails on the validation pass of the callback: on [sign_cls] the
    target of [sign_triple] has rank 2, and rank 3 once the stored radius
    of class 1 is negated, with a different overlap and score; the test
    pass of evaluate_interactions.py gives the same result on both
    tables. *)
Theorem checkpoint_reads_radius_sign :
  checkpoint_scores 0 sign_cls sign_rel [0; 1; 2]%nat [sign_triple]
  = Some [mkScored [[0]; [1]; [1]] [1; 1 / 2; 5 / 12]
            [1; 3 / 4; 17 / 24] 2]
  /\ checkpoint_scores 0 (negate_class 1 sign_cls) sign_rel [0; 1; 2]%nat
       [sign_triple]
     = Some [mkScored [[0]; [1]; [1]] [1; 1 / 6; 5 / 12]
               [1; 7 / 12; 17 / 24] 3]
  /\ evaluate_scores 0 (negate_class 1 sign_cls) sign_rel [0; 1; 2]%nat
       [sign_triple]
     = evaluate_scores 0 sign_cls sign_rel [0; 1; 2]%nat [sign_triple].
Proof.
  split; [exact sign_scores_stored |].
  split; [exact sign_scores_negated |].
  apply evaluate_scores_negate_class.
Qed.

(** ** In-place translation of the query row *)

(** C4: scoring a triple (c, r, d) leaves the candidate matrix with row c
    replaced by row c plus the relation vector and every other row as it
    was; the next triple of the pass is scored on that matrix; and on
    [hist_cls] the same triple, scored a second time in the same pass,
    gets other scores and rank 2 instead of 3/2. *)
Theorem score_triple_translates_in_place (mg : R) (rembeds : matrix)
    (prot_dict : gmap nat nat) (prot_rs : list R) (prot_embeds : matrix)
    (c r d : nat) (s : Scored) :
  score_triple mg rembeds prot_dict prot_rs prot_embeds (c, r, d) = Some s ->
  (exists (c' : nat) (ec er : vec),
      prot_dict !! c = Some c'
      /\ prot_embeds !! c' = Some ec
      /\ rembeds !! r = Some er
      /\ s_prot_embeds s !! c' = Some (vadd ec er)
      /\ forall j : nat, j <> c' -> s_prot_embeds s !! j = prot_embeds !! j)
  /\ (forall rest : list (nat * nat * nat),
        score_all mg rembeds prot_dict prot_rs prot_embeds ((c, r, d) :: rest)
        = (tail ← score_all mg rembeds prot_dict prot_rs (s_prot_embeds s)
                    rest;
           Some (s :: tail)))
  /\ (exists first second : Scored,
        checkpoint_scores 0 hist_cls hist_rel [0; 1]%nat [hist_triple]
        = Some [first]
        /\ checkpoint_scores 0 hist_cls hist_rel [0; 1]%nat
             [hist_triple; hist_triple]
           = Some [first; second]
        /\ s_res first = [1; 1] /\ s_rank first = 3 / 2
        /\ s_res second = [1; 3 / 4] /\ s_rank second = 2).
Proof.
  intros Hs. split; [| split].
  - unfold score_triple in Hs.
    destruct (prot_dict !! c) as [c' |] eqn:Hc; [| discriminate].
    destruct (prot_dict !! d) as [d' |] eqn:Hd; [| discriminate].
    simpl in Hs.
    destruct (prot_embeds !! c') as [ec |] eqn:Hec; [| discriminate].
    destruct (prot_rs !! c') as [rc |] eqn:Hrc; [| discriminate].
    destruct (rembeds !! r) as [er |] eqn:Her; [| discriminate].
    simpl in Hs.
    destruct (rankdata_average _ d') as [rank |]; [| discriminate].
    injection Hs as <-. simpl.
    exists c', ec, er.
    split; [first [exact Hc | reflexivity] |].
    split; [first [exact Hec | reflexivity] |].
    split; [first [exact Her | reflexivity] |]. split.
    + apply list_lookup_insert_eq. now apply lookup_lt_Some in Hec.
    + intros j Hj. apply list_lookup_insert_ne. congruence.
  - intros rest. cbn [score_all]. rewrite Hs. reflexivity.
  - eexists _, _. split; [exact hist_scores_once |].
    split; [exact hist_scores_twice |]. simpl. repeat split.
Qed.

Lemma score_triple_translates_in_place_witness :
  (exists (c' : nat) (ec er : vec),
      make_prot_dict [0; 1]%nat !! 0%nat = Some c'
      /\ ([[0]; [1]] : matrix) !! c' = Some ec
      /\ hist_rel !! 0%nat = Some er
      /\ ([[1]; [1]] : matrix) !! c' = Some (vadd ec er)
      /\ forall j : nat, j <> c' ->
           ([[1]; [1]] : matrix) !! j = ([[0]; [1]] : matrix) !! j).
Proof.
  exact (proj1 (score_triple_translates_in_place 0 hist_rel
                  (make_prot_dict [0; 1]%nat) [1; 1] [[0]; [1]] 0 0 1
                  (mkScored [[1]; [1]] [1; 1] [1; 1] (3 / 2))
                  hist_first_triple)).
Defined.

(** ** The top concept at index 0 *)

(** The frozen top vector: centers 0, radius coordinate 1000000. *)
Lemma make_top_embed_shape (embedding_size : nat) :
  center (make_top_embed embedding_size) = replicate embedding_size 0
  /\ last_coord (make_top_embed embedding_size) = 1000000
  /\ length (make_top_embed embedding_size) = S embedding_size.
Proof.
  unfold make_top_embed, center, last_coord. split; [| split].
  - apply removelast_last.
  - apply last_last.
  - rewrite length_app, length_replicate. simpl. lia.
Qed.

(** A step of the loop trains on the table [on_batch_begin] returns. *)
Lemma run_steps_trains_after_pin (generator : nat -> Batch)
    (train_on_batch : ELModel -> Batch -> option (matrix * matrix * pyfloat))
    (cb : Checkpoint) (n : nat) (w : World) (losses : list pyfloat) :
  train_on_batch (model (on_batch_begin cb w))
    (generator (steps_run (on_batch_begin cb w))) = None ->
  run_steps generator train_on_batch cb (S n) w losses = None.
Proof. intros Hstep. cbn [run_steps]. rewrite Hstep. reflexivity. Qed.

Lemma thing_first_top : get_top thing_first_classes = Some 0%nat.
Proof. reflexivity. Qed.

(** C8 fails when [owl:Thing] is the first class of the ontology: it gets
    index 0, [if self.top:] is then false, and [on_batch_begin] leaves
    the class table as it is, so row 0 is not the top vector when the
    step trains. *)
Theorem top_at_index_zero_is_not_pinned :
  top thing_first_checkpoint = Some 0%nat
  /\ on_batch_begin thing_first_checkpoint thing_first_world
     = thing_first_world
  /\ cls_embeddings (model (on_batch_begin thing_first_checkpoint
                              thing_first_world)) !! 0%nat
     = Some [0; 1]
  /\ top_embed (model thing_first_world) = [0; 1000000]
  /\ cls_embeddings (model (on_batch_begin thing_first_checkpoint
                              thing_first_world)) !! 0%nat
     <> Some (top_embed (model thing_first_world)).
Proof.
  assert (Htop : top thing_first_checkpoint = Some 0%nat)
    by exact thing_first_top.
  assert (Hid : on_batch_begin thing_first_checkpoint thing_first_world
                = thing_first_world)
    by (unfold on_batch_begin; rewrite Htop; reflexivity).
  rewrite Hid. repeat split; try assumption.
  simpl. intros Heq. injection Heq as Heq. lra.
Qed.

(** ** The claims as they are worded, on concrete inputs *)

(** C1 as worded fails: on the class at the origin with radius 0 and
    margin 0.01 the code gives 3 - 0.01, the four-relu formula with the
    margin inside the first and the last relu gives 3 + 0.01. *)
Lemma nf2_loss_formula_counterexample :
  nf2_row origin_model (0, 0, 0)%nat = Some (3 - 1 / 100)
  /\ nf2_spec_row origin_model (0, 0, 0)%nat = Some (3 + 1 / 100)
  /\ nf2_row origin_model (0, 0, 0)%nat
     <> nf2_spec_row origin_model (0, 0, 0)%nat.
Proof.
  assert (Hcode : nf2_row origin_model (0, 0, 0)%nat = Some (3 - 1 / 100)).
  { unfold nf2_row, embed, origin_model. simpl. f_equal.
    real_eval. lra. }
  assert (Hspec : nf2_spec_row origin_model (0, 0, 0)%nat
                  = Some (3 + 1 / 100)).
  { unfold nf2_spec_row, embed, origin_model. simpl. f_equal.
    real_eval. lra. }
  split; [exact Hcode |]. split; [exact Hspec |].
  rewrite Hcode, Hspec. intros Heq. injection Heq as Heq. lra.
Qed.

Lemma nf2_loss_formula_witness :
  nf2_loss origin_model [(0, 0, 0)%nat]
  = Some [relu (norm (vsub [0] [0]) - (Rabs 0 + Rabs 0))
          + relu (norm (vsub [0] [0]) - Rabs 0)
          + relu (norm (vsub [0] [0]) - Rabs 0)
          - margin origin_model
          + reg origin_model [0] + reg origin_model [0]
          + reg origin_model [0]].
Proof.
  exact (proj2 (proj2 (nf2_loss_formula origin_model 0 0 0
                         [0; 0] [0; 0] [0; 0]
                         eq_refl eq_refl eq_refl))).
Defined.

Lemma loss_containment_witness :
  loss origin_model [3; 0] [0; 0]
  = norm (vsub [3] [0]) + reg origin_model [3] + reg origin_model [0].
Proof.
  apply (proj2 (proj2 (proj2 (loss_containment origin_model
                                [3; 0] [0; 0])))).
  - unfold last_coord. simpl. apply Rabs_R0.
  - unfold last_coord. simpl. apply Rabs_R0.
Defined.

(** C5 as worded fails: with margin 0.01 two balls of radius 0 at the same
    center are at distance 0 >= 0 + 0 - 0.01, and the violation is 0.01. *)
Lemma dis_violation_zero_iff_counterexample :
  dis_violation origin_model [0; 0] [0; 0] = 1 / 100
  /\ ~ (dis_violation origin_model [0; 0] [0; 0] = 0 <->
        norm (vsub (center [0; 0]) (center [0; 0]))
          >= Rabs (last_coord [0; 0]) + Rabs (last_coord [0; 0])
             - margin origin_model).
Proof.
  assert (Hv : dis_violation origin_model [0; 0] [0; 0] = 1 / 100).
  { unfold dis_violation, origin_model. simpl. real_eval. lra. }
  split; [exact Hv |]. rewrite Hv. intros [_ Hback].
  assert (Hz : 1 / 100 = 0).
  { apply Hback. unfold origin_model. simpl. real_eval. lra. }
  lra.
Qed.





(** C7 as worded fails: with a loss of plus infinity the callback scores
    the validation set, pickles both tables and leaves [stop_training]
    unset. *)
Lemma infinite_loss_counterexample :
  on_epoch_end solo_checkpoint (toy_world solo_model) 0 PosInf
  = Some (set_best_rank 1 solo_checkpoint,
          mkWorld solo_model false
            [PrintValidation 1 1; PrintSaving 1 1;
             ToPickle "cls.pkl" ["<http://p0>"%string] [[0; 1]];
             ToPickle "rel.pkl" ["<http://r0>"%string] [[0]]]
            0)
  /\ ~ (exists w' : World,
          on_epoch_end solo_checkpoint (toy_world solo_model) 0 PosInf
          = Some (solo_checkpoint, w')
          /\ stop_training w' = true
          /\ pickles (trace w') = pickles (trace (toy_world solo_model))).
Proof.
  assert (Hrun :
    on_epoch_end solo_checkpoint (toy_world solo_model) 0 PosInf
    = Some (set_best_rank 1 solo_checkpoint,
            mkWorld solo_model false
              [PrintValidation 1 1; PrintSaving 1 1;
               ToPickle "cls.pkl" ["<http://p0>"%string] [[0; 1]];
               ToPickle "rel.pkl" ["<http://r0>"%string] [[0]]]
              0)).
  { rewrite (on_epoch_end_scored solo_checkpoint (toy_world solo_model) 0
               PosInf [mkScored [[0]] [1] [1] 1] eq_refl);
      [| discriminate | exact solo_scores].
    unfold mean_rank_of. simpl.
    replace ((0 + 1) / 1) with 1 by lra.
    destruct (Rlt_dec 1 100000) as [_ | Hn]; [reflexivity | exfalso; lra]. }
  split; [exact Hrun |].
  intros (w' & Heq & Hstop & _). rewrite Hrun in Heq.
  injection Heq as _ Hw. rewrite <- Hw in Hstop. discriminate.
Qed.

Lemma nan_loss_halts_training_witness :
  exists w2 : World,
    fit_generator empty_batches nan_step last_loss 1 3 0 solo_checkpoint
      (toy_world solo_model)
    = Some (solo_checkpoint, w2)
    /\ stop_training w2 = true
    /\ steps_run w2 = 1%nat
    /\ model w2 = set_tables [[0; 1]] [[0]] solo_model
    /\ trace w2 = [] ++ [PrintNanLoss]
    /\ pickles (trace w2) = pickles [].
Proof.
  exact (proj2 (nan_loss_halts_training empty_batches nan_step last_loss 1
                  2 0 solo_checkpoint (toy_world solo_model)
                  (mkWorld (set_tables [[0; 1]] [[0]] solo_model) false [] 1)
                  [NaN] eq_refl eq_refl)).
Defined.

Lemma on_epoch_end_persists_iff_improved_witness :
  exists (cb' : Checkpoint) (w' : World) (new : list event),
    on_epoch_end solo_checkpoint (toy_world solo_model) 0 (Finite 0)
    = Some (cb', w')
    /\ trace w' = [] ++ new
    /\ model w' = solo_model
    /\ (pickles new <> []
        <-> mean_rank_of [mkScored [[0]] [1] [1] 1] 1 < 100000)
    /\ (mean_rank_of [mkScored [[0]] [1] [1] 1] 1 < 100000 ->
        pickles new
        = [ToPickle "cls.pkl" ["<http://p0>"%string] [[0; 1]];
           ToPickle "rel.pkl" ["<http://r0>"%string] [[0]]]
        /\ best_rank cb' = mean_rank_of [mkScored [[0]] [1] [1] 1] 1)
    /\ (~ mean_rank_of [mkScored [[0]] [1] [1] 1] 1 < 100000 ->
        pickles new = [] /\ cb' = solo_checkpoint).
Proof.
  apply (on_epoch_end_persists_iff_improved solo_checkpoint
           (toy_world solo_model) 0 (Finite 0) [mkScored [[0]] [1] [1] 1]).
  - reflexivity.
  - discriminate.
  - exact solo_scores.
Defined.

Lemma main_params_mixed_radix_witness :
  exists (mg' : R) (es' : Z) (org : string),
    margins !! Z.to_nat (7 `mod` 5) = Some mg'
    /\ sizes !! Z.to_nat ((7 `div` 5) `mod` 4) = Some es'
    /\ orgs !! Z.to_nat ((7 `div` 20) `mod` 2) = Some org
    /\ main_params 100 1 (1 / 100) 7 = Some (mkParams (Some org) es' mg' 1).
Proof.
  apply (main_params_mixed_radix 100 1 (1 / 100) 7). lia.
Defined.

(** * Further properties of the losses *)

(** ** Regularization *)

Lemma sum_sq_vneg (x : vec) : sum_sq (vneg x) = sum_sq x.
Proof.
  unfold vneg. induction x as [| a x IH]; [reflexivity |].
  cbn. unfold sum_sq in IH. rewrite IH. lra.
Qed.

Lemma norm_vneg (x : vec) : norm (vneg x) = norm x.
Proof. unfold norm. now rewrite sum_sq_vneg. Qed.

(** [reg] is zero exactly on the rows of norm [reg_norm], is never
    negative, and does not see the sign of the row. *)
Theorem reg_zero_iff_symmetric (m : ELModel) (x : vec) :
  (reg m x = 0 <-> norm x = reg_norm m)
  /\ 0 <= reg m x
  /\ reg m (vneg x) = reg m x.
Proof.
  unfold reg. split; [| split].
  - split; intros H.
    + destruct (Req_dec_T (norm x - reg_norm m) 0) as [Hz | Hnz]; [lra |].
      now apply Rabs_no_R0 in Hnz.
    + rewrite H, Rminus_diag. apply Rabs_R0.
  - apply Rabs_pos.
  - now rewrite norm_vneg.
Qed.

(** ** Lower bounds *)

Lemma reg_nonneg (m : ELModel) (x : vec) : 0 <= reg m x.
Proof. apply Rabs_pos. Qed.

Lemma loss_nonneg (m : ELModel) (c d : vec) : 0 <= loss m c d.
Proof.
  unfold loss.
  pose proof (relu_nonneg (norm (vsub (center c) (center d))
                           + Rabs (last_coord c) - Rabs (last_coord d))).
  pose proof (reg_nonneg m (center c)). pose proof (reg_nonneg m (center d)).
  lra.
Qed.

Lemma nf1_row_nonneg (m : ELModel) (ex : nat * nat) (v : R) :
  nf1_row m ex = Some v -> 0 <= v.
Proof.
  destruct ex as [c d]. unfold nf1_row, embed. intros H.
  destruct (cls_embeddings m !! c) as [vc |]; [| discriminate].
  destruct (cls_embeddings m !! d) as [vd |]; [| discriminate].
  injection H as <-. apply loss_nonneg.
Qed.

Lemma nf2_row_lower (m : ELModel) (ex : nat * nat * nat) (v : R) :
  nf2_row m ex = Some v -> - margin m <= v.
Proof.
  destruct ex as [[c d] e]. unfold nf2_row, embed. intros H.
  destruct (cls_embeddings m !! c) as [vc |]; [| discriminate].
  destruct (cls_embeddings m !! d) as [vd |]; [| discriminate].
  destruct (cls_embeddings m !! e) as [ve |]; [| discriminate].
  injection H as <-.
  repeat match goal with
         | |- context [relu ?a] =>
             lazymatch goal with
             | _ : 0 <= relu a |- _ => fail
             | _ => pose proof (relu_nonneg a)
             end
         end.
  pose proof (reg_nonneg m (center vc)). pose proof (reg_nonneg m (center vd)).
  pose proof (reg_nonneg m (center ve)). lra.
Qed.

Lemma nf3_row_nonneg (m : ELModel) (ex : nat * nat * nat) (v : R) :
  nf3_row m ex = Some v -> 0 <= v.
Proof.
  destruct ex as [[c r] d]. unfold nf3_row, embed. intros H.
  destruct (cls_embeddings m !! c) as [vc |]; [| discriminate].
  destruct (cls_embeddings m !! d) as [vd |]; [| discriminate].
  destruct (rel_embeddings m !! r) as [vr |]; [| discriminate].
  injection H as <-. apply loss_nonneg.
Qed.

Lemma nf4_row_nonneg (m : ELModel) (ex : nat * nat * nat) (v : R) :
  nf4_row m ex = Some v -> 0 <= v.
Proof.
  destruct ex as [[r c] d]. unfold nf4_row, embed. intros H.
  destruct (cls_embeddings m !! c) as [vc |]; [| discriminate].
  destruct (cls_embeddings m !! d) as [vd |]; [| discriminate].
  destruct (rel_embeddings m !! r) as [vr |]; [| discriminate].
  simpl in H. injection H as <-.
  match goal with |- context [relu ?a] => pose proof (relu_nonneg a) end.
  match goal with |- context [_ + reg m ?a + reg m ?b] =>
    pose proof (reg_nonneg m a); pose proof (reg_nonneg m b) end.
  lra.
Qed.

Lemma dis_row_nonneg (m : ELModel) (ex : nat * nat * nat) (v : R) :
  dis_row m ex = Some v -> 0 <= v.
Proof.
  destruct ex as [[c d] e]. unfold dis_row, embed. intros H.
  destruct (cls_embeddings m !! c) as [vc |]; [| discriminate].
  destruct (cls_embeddings m !! d) as [vd |]; [| discriminate].
  injection H as <-. unfold dis_violation.
  match goal with |- context [relu ?a] => pose proof (relu_nonneg a) end.
  pose proof (reg_nonneg m (center vc)). pose proof (reg_nonneg m (center vd)).
  lra.
Qed.

Lemma mapM_Forall_bound {A} (f : A -> option R) (b : R) (l : list A)
    (out : list R) :
  (forall x v, f x = Some v -> b <= v) ->
  mapM f l = Some out -> Forall (fun v => b <= v) out.
Proof.
  intros Hf Hout. apply mapM_Some_1 in Hout.
  induction Hout as [| x v l out Hx _ IH]; constructor; eauto.
Qed.

(** Row [i] of a sum is the sum of one row of each operand. *)
Lemma tadd_Forall_bound (x y out : list R) (a b : R) :
  Forall (fun v => a <= v) x -> Forall (fun v => b <= v) y ->
  tadd x y = Some out -> Forall (fun v => a + b <= v) out.
Proof.
  intros Hx Hy. unfold tadd.
  destruct (decide (length x = length y)) as [Hlen | Hlen].
  - intros [= <-]. clear Hlen. revert y Hy.
    induction Hx as [| u x Hu _ IH]; intros y Hy; [constructor |].
    destruct Hy as [| w y Hw Hy]; [constructor |].
    simpl. constructor; [lra | now apply IH].
  - destruct x as [| u [| u' x]].
    + destruct y as [| w [| w' y]]; try discriminate.
      intros [= <-]. constructor.
    + intros [= <-]. rewrite Forall_fmap.
      inversion Hx as [| ? ? Hu _]; subst.
      eapply Forall_impl; [exact Hy |]. intros w Hw. simpl. lra.
    + destruct y as [| w [| w' y]]; try discriminate.
      intros [= <-].
      change (Forall (fun v => a + b <= v)
                ((fun v => v + w) <$> (u :: u' :: x))).
      rewrite Forall_fmap.
      inversion Hy as [| ? ? Hw _]; subst.
      eapply Forall_impl; [exact Hx |]. intros v Hv. simpl. lra.
Qed.

(** Each NF1, NF3, NF4 and disjointness row is at least 0, each NF2 row at
    least minus the margin, and so is every row of the summed loss of a
    batch. *)
Theorem loss_rows_lower_bounds (m : ELModel) (input : Batch)
    (out : list R) :
  call m input = Some out ->
  Forall (fun v => - margin m <= v) out
  /\ (forall l1, nf1_loss m (b_nf1 input) = Some l1 ->
                 Forall (fun v => 0 <= v) l1)
  /\ (forall l2, nf2_loss m (b_nf2 input) = Some l2 ->
                 Forall (fun v => - margin m <= v) l2)
  /\ (forall l3, nf3_loss m (b_nf3 input) = Some l3 ->
                 Forall (fun v => 0 <= v) l3)
  /\ (forall l4, nf4_loss m (b_nf4 input) = Some l4 ->
                 Forall (fun v => 0 <= v) l4)
  /\ (forall l5, dis_loss m (b_dis input) = Some l5 ->
                 Forall (fun v => 0 <= v) l5).
Proof.
  intros Hcall.
  assert (H1 : forall l1, nf1_loss m (b_nf1 input) = Some l1 ->
                          Forall (fun v => 0 <= v) l1)
    by (intros l1; apply mapM_Forall_bound, nf1_row_nonneg).
  assert (H2 : forall l2, nf2_loss m (b_nf2 input) = Some l2 ->
                          Forall (fun v => - margin m <= v) l2)
    by (intros l2; apply mapM_Forall_bound, nf2_row_lower).
  assert (H3 : forall l3, nf3_loss m (b_nf3 input) = Some l3 ->
                          Forall (fun v => 0 <= v) l3).
  { intros l3. unfold nf3_loss. destruct (check_batch m _); [| discriminate].
    apply mapM_Forall_bound, nf3_row_nonneg. }
  assert (H4 : forall l4, nf4_loss m (b_nf4 input) = Some l4 ->
                          Forall (fun v => 0 <= v) l4).
  { intros l4. unfold nf4_loss. destruct (check_batch m _); [| discriminate].
    apply mapM_Forall_bound, nf4_row_nonneg. }
  assert (H5 : forall l5, dis_loss m (b_dis input) = Some l5 ->
                          Forall (fun v => 0 <= v) l5)
    by (intros l5; apply mapM_Forall_bound, dis_row_nonneg).
  split; [| repeat split; assumption].
  unfold call in Hcall.
  destruct (nf1_loss m (b_nf1 input)) as [l1 |]; [| discriminate].
  destruct (nf2_loss m (b_nf2 input)) as [l2 |]; [| discriminate].
  destruct (nf3_loss m (b_nf3 input)) as [l3 |]; [| discriminate].
  destruct (nf4_loss m (b_nf4 input)) as [l4 |]; [| discriminate].
  destruct (dis_loss m (b_dis input)) as [l5 |]; [| discriminate].
  simpl in Hcall.
  destruct (tadd l1 l2) as [s12 |] eqn:E12; [| discriminate].
  simpl in Hcall.
  destruct (tadd s12 l3) as [s123 |] eqn:E123; [| discriminate].
  simpl in Hcall.
  destruct (tadd s123 l4) as [s1234 |] eqn:E1234; [| discriminate].
  simpl in Hcall.
  pose proof (tadd_Forall_bound _ _ _ _ _ (H1 _ eq_refl) (H2 _ eq_refl) E12)
    as B12.
  pose proof (tadd_Forall_bound _ _ _ _ _ B12 (H3 _ eq_refl) E123) as B123.
  pose proof (tadd_Forall_bound _ _ _ _ _ B123 (H4 _ eq_refl) E1234) as B1234.
  pose proof (tadd_Forall_bound _ _ _ _ _ B1234 (H5 _ eq_refl) Hcall) as B.
  eapply Forall_impl; [exact B |]. intros v Hv. simpl in Hv. lra.
Qed.

(** ** NF3 and NF4 as translations *)

(** C ⊑ ∃R.D: the row is the containment loss of the ball of [c] moved by
    the relation vector; the radius is not moved, and the regularization
    is that of the moved center. *)
Theorem nf3_row_translated (m : ELModel) (c r d : nat) (vc vr vd : vec) :
  cls_embeddings m !! c = Some vc ->
  rel_embeddings m !! r = Some vr ->
  cls_embeddings m !! d = Some vd ->
  length vc = S (length vr) ->
  let moved := vadd (center vc) vr in
  let dist := norm (vsub moved (center vd)) in
  nf3_row m (c, r, d)
  = Some (relu (dist + Rabs (last_coord vc) - Rabs (last_coord vd))
          + reg m moved + reg m (center vd))
  /\ (relu (dist + Rabs (last_coord vc) - Rabs (last_coord vd)) = 0
      <-> dist + Rabs (last_coord vc) <= Rabs (last_coord vd)).
Proof.
  intros Hc Hr Hd Hlen moved dist.
  destruct (row_of_width (length vr) vc Hlen) as [Hne Hw].
  destruct (vadd_pad_zero (center vc) vr (last_coord vc) Hw) as [E1 E2].
  rewrite <- (row_split vc Hne) in E1, E2.
  split.
  - unfold nf3_row, embed. rewrite Hc, Hd. simpl. rewrite Hr. simpl.
    f_equal. unfold loss. rewrite E1, E2, Rplus_0_r. reflexivity.
  - rewrite relu_zero_iff. split; intros; lra.
Qed.

(** ∃R.C ⊑ D: the row asks the ball of [c] moved back by the relation
    vector to meet the ball of [d]: its relu is zero exactly when the
    distance of the centers is at most the sum of the radii plus the
    margin. *)
Theorem nf4_row_translated (m : ELModel) (r c d : nat) (vc vr vd : vec) :
  cls_embeddings m !! c = Some vc ->
  rel_embeddings m !! r = Some vr ->
  cls_embeddings m !! d = Some vd ->
  length vc = S (length vr) ->
  let moved := vsub (center vc) vr in
  let dist := norm (vsub (center vd) moved) in
  let sr := Rabs (last_coord vc) + Rabs (last_coord vd) in
  nf4_row m (r, c, d)
  = Some (relu (dist - sr - margin m) + reg m moved + reg m (center vd))
  /\ (relu (dist - sr - margin m) = 0 <-> dist <= sr + margin m).
Proof.
  intros Hc Hr Hd Hlen moved dist sr.
  destruct (row_of_width (length vr) vc Hlen) as [Hne Hw].
  destruct (vsub_pad_zero (center vc) vr (last_coord vc) Hw) as [E1 E2].
  rewrite <- (row_split vc Hne) in E1, E2.
  split.
  - unfold nf4_row, embed. rewrite Hc, Hd. simpl. rewrite Hr. simpl.
    f_equal. rewrite E1, E2, Rminus_0_r. reflexivity.
  - rewrite relu_zero_iff. split; intros; lra.
Qed.

(** ** The batch loss *)

Lemma length_negate_radius (x : vec) : length (negate_radius x) = length x.
Proof.
  destruct x as [| a x]; [reflexivity |].
  unfold negate_radius. rewrite length_app. simpl length at 2.
  pose proof (row_split (a :: x) ltac:(discriminate)) as Hx.
  apply (f_equal length) in Hx. rewrite length_app in Hx. simpl in Hx.
  simpl. lia.
Qed.

Lemma well_shaped_negate_class (embedding_size i : nat) (cls rel : matrix) :
  well_shaped embedding_size cls rel ->
  well_shaped embedding_size (negate_class i cls) rel.
Proof.
  intros [Hcls Hrel]. split; [| exact Hrel].
  unfold negate_class, matrix in *.
  destruct (cls !! i) as [x |] eqn:Hi; [| exact Hcls].
  apply Forall_insert; [exact Hcls |].
  rewrite length_negate_radius.
  exact (proj1 (Forall_lookup _ _) Hcls i x Hi).
Qed.

(** The summed loss of a batch does not see the sign of a stored radius:
    negating the radius coordinate of any class leaves every row of
    [call] as it was. *)
Theorem call_ignores_radius_sign (m : ELModel) (embedding_size i : nat)
    (input : Batch) :
  well_shaped embedding_size (cls_embeddings m) (rel_embeddings m) ->
  call (set_cls_embeddings (negate_class i (cls_embeddings m)) m) input
  = call m input.
Proof.
  intros Hshape.
  pose proof (well_shaped_negate_class embedding_size i _ _ Hshape) as Hshape'.
  pose proof (same_balls_negate_class i (cls_embeddings m)) as Hsame.
  set (m' := set_cls_embeddings (negate_class i (cls_embeddings m)) m).
  assert (H1 : nf1_loss m' (b_nf1 input) = nf1_loss m (b_nf1 input))
    by (apply mapM_ext; intros ex; now apply nf1_row_same_balls).
  assert (H2 : nf2_loss m' (b_nf2 input) = nf2_loss m (b_nf2 input))
    by (apply mapM_ext; intros ex; now apply nf2_row_same_balls).
  assert (H3 : nf3_loss m' (b_nf3 input) = nf3_loss m (b_nf3 input)).
  { unfold nf3_loss. change (check_batch m' (b_nf3 input))
      with (check_batch m (b_nf3 input)).
    destruct (check_batch m (b_nf3 input)); [| reflexivity]. simpl.
    apply mapM_ext. intros ex.
    now apply (nf3_row_same_balls m _ embedding_size). }
  assert (H4 : nf4_loss m' (b_nf4 input) = nf4_loss m (b_nf4 input)).
  { unfold nf4_loss. change (check_batch m' (b_nf4 input))
      with (check_batch m (b_nf4 input)).
    destruct (check_batch m (b_nf4 input)); [| reflexivity]. simpl.
    apply mapM_ext. intros ex.
    now apply (nf4_row_same_balls m _ embedding_size). }
  assert (H5 : dis_loss m' (b_dis input) = dis_loss m (b_dis input))
    by (apply mapM_ext; intros ex; now apply dis_row_same_balls).
  unfold call. now rewrite H1, H2, H3, H4, H5.
Qed.

(** An index below the length of a table has a row. *)
Ltac row_in_range H :=
  match type of H with
  | (?i < length ?t)%nat =>
      let E := fresh "E" in
      destruct (t !! i) as [? |] eqn:E;
      [| exfalso; apply lookup_ge_None in E; lia]
  end.

Lemma mapM_rows {A} (f : A -> option R) (l : list A) :
  Forall (fun x => is_Some (f x)) l ->
  exists out, mapM f l = Some out /\ length out = length l.
Proof.
  intros Hl. destruct (mapM_is_Some_2 f l) as [out Hout].
  - eapply Forall_impl; [exact Hl |]. now intros x Hx.
  - exists out. split; [exact Hout |].
    apply mapM_Some_1, Forall2_length in Hout. congruence.
Qed.

Lemma tadd_same_rows (x y : list R) (n : nat) :
  length x = n -> length y = n ->
  exists out, tadd x y = Some out /\ length out = n.
Proof.
  intros Hx Hy. unfold tadd. rewrite decide_True by congruence.
  eexists. split; [reflexivity |]. rewrite length_zip_with. lia.
Qed.

Lemma check_batch_full {A} (m : ELModel) (input : list A) :
  length input = batch_size m -> check_batch m input = Some tt.
Proof. intros H. unfold check_batch. now rewrite decide_True. Qed.

Lemma check_batch_short {A} (m : ELModel) (input : list A) :
  length input <> batch_size m -> check_batch m input = None.
Proof. intros H. unfold check_batch. now rewrite decide_False. Qed.

Lemma call_is_Some_full (m : ELModel) (input : Batch) :
  batch_full m input -> batch_in_range m input ->
  exists out, call m input = Some out /\ length out = batch_size m.
Proof.
  intros (F1 & F2 & F3 & F4 & F5) (R1 & R2 & R3 & R4 & R5).
  cbv zeta in R1, R2, R3, R4, R5.
  destruct (mapM_rows (nf1_row m) (b_nf1 input)) as (l1 & E1 & L1).
  { eapply Forall_impl; [exact R1 |]. intros [c d] [Hc Hd].
    unfold nf1_row, embed. simpl in *.
    row_in_range Hc. row_in_range Hd. now eexists. }
  destruct (mapM_rows (nf2_row m) (b_nf2 input)) as (l2 & E2 & L2).
  { eapply Forall_impl; [exact R2 |]. intros [[c d] e] (Hc & Hd & He).
    unfold nf2_row, embed. simpl in *.
    row_in_range Hc. row_in_range Hd. row_in_range He. now eexists. }
  destruct (mapM_rows (nf3_row m) (b_nf3 input)) as (l3 & E3 & L3).
  { eapply Forall_impl; [exact R3 |]. intros [[c r] d] (Hc & Hr & Hd).
    unfold nf3_row, embed. simpl in *.
    row_in_range Hc. row_in_range Hd. row_in_range Hr. now eexists. }
  destruct (mapM_rows (nf4_row m) (b_nf4 input)) as (l4 & E4 & L4).
  { eapply Forall_impl; [exact R4 |]. intros [[r c] d] (Hr & Hc & Hd).
    unfold nf4_row, embed. simpl in *.
    row_in_range Hc. row_in_range Hd. row_in_range Hr. now eexists. }
  destruct (mapM_rows (dis_row m) (b_dis input)) as (l5 & E5 & L5).
  { eapply Forall_impl; [exact R5 |]. intros [[c d] e] [Hc Hd].
    unfold dis_row, embed. simpl in *.
    row_in_range Hc. row_in_range Hd. now eexists. }
  unfold call, nf1_loss, nf2_loss, nf3_loss, nf4_loss, dis_loss.
  rewrite (check_batch_full m _ F3), (check_batch_full m _ F4).
  rewrite E1, E2. simpl. rewrite E3, E4, E5. simpl.
  destruct (tadd_same_rows l1 l2 (batch_size m)) as (s12 & T12 & N12);
    [congruence | congruence |].
  destruct (tadd_same_rows s12 l3 (batch_size m)) as (s123 & T123 & N123);
    [congruence | congruence |].
  destruct (tadd_same_rows s123 l4 (batch_size m))
    as (s1234 & T1234 & N1234); [congruence | congruence |].
  destruct (tadd_same_rows s1234 l5 (batch_size m)) as (out & T & N);
    [congruence | congruence |].
  rewrite T12. simpl. rewrite T123. simpl. rewrite T1234. simpl.
  exists out. split; [exact T | exact N].
Qed.

(** [call] returns [batch_size] rows when every batch has [batch_size]
    rows and every index is a row of its table; it fails whenever the NF3
    or the NF4 batch has another number of rows, whatever the other
    batches are. *)
Theorem call_rows (m : ELModel) (input : Batch) :
  (batch_full m input -> batch_in_range m input ->
   exists out, call m input = Some out /\ length out = batch_size m)
  /\ (length (b_nf3 input) <> batch_size m -> call m input = None)
  /\ (length (b_nf4 input) <> batch_size m -> call m input = None).
Proof.
  split; [apply call_is_Some_full | split].
  - intros Hlen. unfold call, nf3_loss.
    rewrite (check_batch_short m _ Hlen).
    destruct (nf1_loss m (b_nf1 input)); [| reflexivity].
    destruct (nf2_loss m (b_nf2 input)); reflexivity.
  - intros Hlen. unfold call, nf4_loss.
    rewrite (check_batch_short m _ Hlen).
    destruct (nf1_loss m (b_nf1 input)); [| reflexivity].
    destruct (nf2_loss m (b_nf2 input)); [| reflexivity].
    destruct (nf3_loss m (b_nf3 input)); reflexivity.
Qed.

(** ** The pinned top concept *)

Lemma sum_sq_zeros (n : nat) : sum_sq (replicate n 0) = 0.
Proof.
  induction n as [| n IH]; [reflexivity |].
  cbn. unfold sum_sq in IH. rewrite IH. lra.
Qed.

Lemma norm_zeros (n : nat) : norm (replicate n 0) = 0.
Proof. unfold norm. rewrite sum_sq_zeros. apply sqrt_0. Qed.

Lemma vsub_zeros (x : vec) : vsub x (replicate (length x) 0) = x.
Proof.
  unfold vsub. induction x as [| a x IH]; [reflexivity |].
  cbn. rewrite IH. f_equal. lra.
Qed.

(** Once a top concept of positive index is pinned, the NF1 row of
    [c ⊑ owl:Thing] has a relu that is zero exactly when the ball of [c]
    lies within distance 1000000 of the origin; the top concept itself
    always adds the constant |reg_norm| to the row. *)
Theorem pinned_top_contains (cb : Checkpoint) (w : World) (k c : nat)
    (vc : vec) (embedding_size : nat) :
  top cb = Some (S k) ->
  (S k < length (cls_embeddings (model w)))%nat ->
  top_embed (model w) = make_top_embed embedding_size ->
  cls_embeddings (model w) !! c = Some vc ->
  c <> S k ->
  length vc = S embedding_size ->
  let m' := model (on_batch_begin cb w) in
  let reach := norm (center vc) + Rabs (last_coord vc) in
  nf1_row m' (c, S k)
  = Some (relu (reach - 1000000) + reg m' (center vc) + Rabs (reg_norm m'))
  /\ (relu (reach - 1000000) = 0 <-> reach <= 1000000).
Proof.
  intros Htop Hlen Hemb Hc Hne Hw m' reach.
  split; [| rewrite relu_zero_iff; split; intros; lra].
  destruct (make_top_embed_shape embedding_size) as (Tc & Tr & _).
  destruct (row_of_width embedding_size vc Hw) as [_ Hcw].
  assert (Hm' : cls_embeddings m' = <[S k := make_top_embed embedding_size]>
                                      (cls_embeddings (model w))
                /\ reg_norm m' = reg_norm (model w)).
  { unfold m', on_batch_begin. rewrite Htop. simpl. now rewrite Hemb. }
  destruct Hm' as [Hcls Hrn].
  unfold nf1_row, embed. rewrite Hcls. unfold matrix, vec in *.
  rewrite (list_lookup_insert_ne _ (S k) c) by lia.
  rewrite list_lookup_insert_eq by exact Hlen.
  rewrite Hc. simpl. f_equal.
  unfold loss, reg. rewrite Tc, Tr, <- Hcw, vsub_zeros, norm_zeros.
  rewrite (Rabs_pos_eq 1000000) by lra.
  replace (0 - reg_norm m') with (- reg_norm m') by lra.
  rewrite Rabs_Ropp. reflexivity.
Qed.

(** ** The properties above at [pair_model] *)

Lemma pair_batch_full : batch_full pair_model pair_batch.
Proof. repeat split. Qed.

Lemma pair_batch_in_range : batch_in_range pair_model pair_batch.
Proof.
  unfold batch_in_range, pair_model, pair_batch. simpl.
  repeat split; repeat constructor; simpl; lia.
Qed.

Lemma pair_model_shaped :
  well_shaped 1 (cls_embeddings pair_model) (rel_embeddings pair_model).
Proof. split; repeat constructor. Qed.

Lemma loss_rows_lower_bounds_witness :
  exists out : list R,
    call pair_model pair_batch = Some out
    /\ Forall (fun v => - margin pair_model <= v) out.
Proof.
  destruct (call_is_Some_full pair_model pair_batch pair_batch_full
              pair_batch_in_range) as (out & Hout & _).
  exists out. split; [exact Hout |].
  exact (proj1 (loss_rows_lower_bounds pair_model pair_batch out Hout)).
Defined.

Lemma nf3_row_translated_witness :
  nf3_row pair_model (0, 0, 1)%nat
  = Some (relu (norm (vsub (vadd (center [0; 1]) [1]) (center [1; 1]))
                + Rabs (last_coord [0; 1]) - Rabs (last_coord [1; 1]))
          + reg pair_model (vadd (center [0; 1]) [1])
          + reg pair_model (center [1; 1])).
Proof.
  exact (proj1 (nf3_row_translated pair_model 0 0 1 [0; 1] [1] [1; 1]
                  eq_refl eq_refl eq_refl eq_refl)).
Defined.

Lemma nf4_row_translated_witness :
  nf4_row pair_model (0, 0, 1)%nat
  = Some (relu (norm (vsub (center [1; 1]) (vsub (center [0; 1]) [1]))
                - (Rabs (last_coord [0; 1]) + Rabs (last_coord [1; 1]))
                - margin pair_model)
          + reg pair_model (vsub (center [0; 1]) [1])
          + reg pair_model (center [1; 1])).
Proof.
  exact (proj1 (nf4_row_translated pair_model 0 0 1 [0; 1] [1] [1; 1]
                  eq_refl eq_refl eq_refl eq_refl)).
Defined.

Lemma call_ignores_radius_sign_witness :
  call (set_cls_embeddings (negate_class 1 (cls_embeddings pair_model))
          pair_model) pair_batch
  = call pair_model pair_batch.
Proof.
  exact (call_ignores_radius_sign pair_model 1 1 pair_batch
           pair_model_shaped).
Defined.

Lemma call_rows_witness :
  exists out : list R,
    call pair_model pair_batch = Some out
    /\ length out = batch_size pair_model.
Proof.
  exact (proj1 (call_rows pair_model pair_batch) pair_batch_full
           pair_batch_in_range).
Defined.

Lemma pinned_top_contains_witness :
  nf1_row (model (on_batch_begin top_last_checkpoint
                    (toy_world pair_model))) (0, 1)%nat
  = Some (relu (norm (center [0; 1]) + Rabs (last_coord [0; 1]) - 1000000)
          + reg (model (on_batch_begin top_last_checkpoint
                          (toy_world pair_model))) (center [0; 1])
          + Rabs (reg_norm (model (on_batch_begin top_last_checkpoint
                                     (toy_world pair_model))))).
Proof.
  refine (proj1 (pinned_top_contains top_last_checkpoint
                   (toy_world pair_model) 0 0 [0; 1] 1
                   eq_refl _ eq_refl eq_refl _ eq_refl)).
  - simpl. lia.
  - discriminate.
Defined.

(** * Further properties of the rank evaluator *)

(** ** Ranks *)

Lemma count_lt_eq_le_length (x : R) (a : list R) :
  (count_lt x a + count_eq x a <= length a)%nat.
Proof.
  induction a as [| y a IH]; simpl; [lia |].
  destruct (Rlt_dec y x) as [Hlt |], (Req_dec_T y x) as [Heq |]; try lia.
  exfalso. lra.
Qed.

Lemma count_eq_pos (x : R) (a : list R) (i : nat) :
  a !! i = Some x -> (1 <= count_eq x a)%nat.
Proof.
  revert i. induction a as [| y a IH]; intros i Hi; [discriminate |].
  simpl. destruct i as [| i].
  - injection Hi as ->. destruct (Req_dec_T x x); [lia | contradiction].
  - specialize (IH i Hi). destruct (Req_dec_T y x); lia.
Qed.

Lemma rankdata_average_bounds (a : list R) (i : nat) (rank : R) :
  rankdata_average a i = Some rank -> 1 <= rank <= INR (length a).
Proof.
  unfold rankdata_average. destruct (a !! i) as [x |] eqn:Hx; [| discriminate].
  intros [= <-].
  pose proof (count_lt_eq_le_length x a) as Hsum.
  pose proof (count_eq_pos x a i Hx) as Hpos.
  apply le_INR in Hsum, Hpos. rewrite plus_INR in Hsum. simpl in Hpos.
  pose proof (pos_INR (count_lt x a)). lra.
Qed.

Lemma score_triple_rank_in_range (mg : R) (rembeds : matrix)
    (prot_dict : gmap nat nat) (prot_rs : list R) (prot_embeds : matrix)
    (t : nat * nat * nat) (s : Scored) :
  score_triple mg rembeds prot_dict prot_rs prot_embeds t = Some s ->
  length (s_res s) = (length prot_rs `min` length prot_embeds)%nat
  /\ length (s_prot_embeds s) = length prot_embeds
  /\ 1 <= s_rank s <= INR (length (s_res s)).
Proof.
  destruct t as [[c r] d]. unfold score_triple. intros Hs.
  destruct (prot_dict !! c) as [c' |]; [| discriminate].
  destruct (prot_dict !! d) as [d' |]; [| discriminate].
  simpl in Hs.
  destruct (prot_embeds !! c') as [ec |]; [| discriminate].
  destruct (prot_rs !! c') as [rc |]; [| discriminate].
  destruct (rembeds !! r) as [er |]; [| discriminate].
  simpl in Hs.
  destruct (rankdata_average _ d') as [rank |] eqn:Hrank; [| discriminate].
  injection Hs as <-. simpl.
  apply rankdata_average_bounds in Hrank. rewrite length_fmap in Hrank.
  unfold matrix, vec in *.
  rewrite length_zip_with, length_fmap, length_insert in *.
  repeat split; solve [lra | reflexivity].
Qed.

(** The rank of the target of a scored triple lies between 1 and the
    number of candidates, which is the number of rows of the candidate
    matrix; scoring keeps that number. *)
Theorem score_triple_rank_bounds (mg : R) (rembeds : matrix)
    (prot_dict : gmap nat nat) (prot_rs : list R) (prot_embeds : matrix)
    (t : nat * nat * nat) (s : Scored) :
  length prot_rs = length prot_embeds ->
  score_triple mg rembeds prot_dict prot_rs prot_embeds t = Some s ->
  length (s_res s) = length prot_embeds
  /\ length (s_prot_embeds s) = length prot_embeds
  /\ 1 <= s_rank s <= INR (length prot_embeds).
Proof.
  intros Hlen Hs.
  destruct (score_triple_rank_in_range _ _ _ _ _ _ _ Hs) as (Hres & Hpe & Hr).
  rewrite Hres, Hlen, Nat.min_id in Hr. rewrite Hres, Hlen, Nat.min_id.
  repeat split; try assumption; lra.
Qed.

Lemma count_lt_negated (x : R) (res : list R) :
  count_lt (- x) (Ropp <$> res) = length (scores_above x res).
Proof.
  unfold scores_above. induction res as [| y res IH]; [reflexivity |].
  cbn. destruct (Rlt_dec (- y) (- x)), (Rlt_dec x y); simpl;
    rewrite ?IH; try reflexivity; exfalso; lra.
Qed.

Lemma count_eq_negated (x : R) (res : list R) :
  count_eq (- x) (Ropp <$> res) = length (scores_equal x res).
Proof.
  unfold scores_equal. induction res as [| y res IH]; [reflexivity |].
  cbn. destruct (Req_dec_T (- y) (- x)), (Req_dec_T y x); simpl;
    rewrite ?IH; try reflexivity; exfalso; lra.
Qed.

(** The rank of the target is the number of candidates that score
    strictly higher, plus the middle position among the candidates that
    score the same: 1 plus the number of higher scores when no other
    candidate ties with the target. *)
Theorem score_triple_rank_counts (mg : R) (rembeds : matrix)
    (prot_dict : gmap nat nat) (prot_rs : list R) (prot_embeds : matrix)
    (c r d : nat) (s : Scored) :
  score_triple mg rembeds prot_dict prot_rs prot_embeds (c, r, d) = Some s ->
  exists (d' : nat) (x : R),
    prot_dict !! d = Some d'
    /\ s_res s !! d' = Some x
    /\ s_rank s = INR (length (scores_above x (s_res s)))
                  + (INR (length (scores_equal x (s_res s))) + 1) / 2
    /\ (length (scores_equal x (s_res s)) = 1%nat ->
        s_rank s = 1 + INR (length (scores_above x (s_res s)))).
Proof.
  unfold score_triple. intros Hs.
  destruct (prot_dict !! c) as [c' |]; [| discriminate].
  destruct (prot_dict !! d) as [d' |]; [| discriminate].
  simpl in Hs.
  destruct (prot_embeds !! c') as [ec |]; [| discriminate].
  destruct (prot_rs !! c') as [rc |]; [| discriminate].
  destruct (rembeds !! r) as [er |]; [| discriminate].
  simpl in Hs. unfold rankdata_average in Hs.
  rewrite list_lookup_fmap in Hs.
  match type of Hs with
  | context [?res !! d'] => destruct (res !! d') as [x |] eqn:Hx
  end; [| discriminate].
  simpl in Hs. injection Hs as <-. simpl.
  exists d', x. split; [reflexivity |]. split; [exact Hx |].
  rewrite count_lt_negated, count_eq_negated.
  split; [reflexivity |]. intros ->. simpl. lra.
Qed.

(** ** The mean rank *)

Lemma score_all_ranks (mg : R) (rembeds : matrix) (prot_dict : gmap nat nat)
    (prot_rs : list R) (data : list (nat * nat * nat)) :
  forall (prot_embeds : matrix) (scored : list Scored),
    length prot_rs = length prot_embeds ->
    score_all mg rembeds prot_dict prot_rs prot_embeds data = Some scored ->
    length scored = length data
    /\ Forall (fun s => 1 <= s_rank s <= INR (length prot_embeds)) scored.
Proof.
  induction data as [| t data IH]; intros pe scored Hlen Hsc.
  - injection Hsc as <-. split; [reflexivity | constructor].
  - cbn [score_all] in Hsc.
    destruct (score_triple mg rembeds prot_dict prot_rs pe t) as [s |] eqn:Hs;
      [| discriminate].
    simpl in Hsc.
    destruct (score_all mg rembeds prot_dict prot_rs (s_prot_embeds s) data)
      as [rest |] eqn:Hrest; [| discriminate].
    injection Hsc as <-.
    destruct (score_triple_rank_in_range _ _ _ _ _ _ _ Hs) as (Hres & Hpe & Hr).
    rewrite Hres, Hlen, Nat.min_id in Hr.
    destruct (IH (s_prot_embeds s) rest) as [Hn Hall];
      [congruence | exact Hrest |].
    rewrite Hpe in Hall. split; [simpl; congruence |].
    constructor; [lra | exact Hall].
Qed.

Lemma sum_ranks_bounds (a b : R) (scored : list Scored) (acc : R) :
  Forall (fun s => a <= s_rank s <= b) scored ->
  acc + INR (length scored) * a
  <= foldl (fun acc s => acc + s_rank s) acc scored
  <= acc + INR (length scored) * b.
Proof.
  intros Hall. revert acc.
  induction Hall as [| s scored Hs _ IH]; intros acc.
  - simpl. lra.
  - cbn [foldl]. specialize (IH (acc + s_rank s)).
    change (length (s :: scored)) with (S (length scored)).
    rewrite S_INR. lra.
Qed.

Lemma mean_rank_of_bounds (a b : R) (scored : list Scored) :
  scored <> [] ->
  Forall (fun s => a <= s_rank s <= b) scored ->
  a <= mean_rank_of scored (length scored) <= b.
Proof.
  intros Hne Hall. unfold mean_rank_of.
  pose proof (sum_ranks_bounds a b scored 0 Hall) as Hsum.
  assert (Hn : 0 < INR (length scored)).
  { apply lt_0_INR. destruct scored; [contradiction | simpl; lia]. }
  set (n := INR (length scored)) in *.
  set (total := foldl (fun acc s => acc + s_rank s) 0 scored) in *.
  split.
  - apply (Rmult_le_reg_r n); [exact Hn |]. unfold Rdiv.
    rewrite Rmult_assoc, Rinv_l by lra. lra.
  - apply (Rmult_le_reg_r n); [exact Hn |]. unfold Rdiv.
    rewrite Rmult_assoc, Rinv_l by lra. lra.
Qed.

Lemma take_rows_length (table : matrix) (index : list nat) (rows : matrix) :
  take_rows table index = Some rows -> length rows = length index.
Proof.
  unfold take_rows. intros H. apply mapM_Some_1, Forall2_length in H.
  congruence.
Qed.

Lemma checkpoint_scores_ranks (mg : R) (cls rel : matrix) (index : list nat)
    (data : list (nat * nat * nat)) (scored : list Scored) :
  checkpoint_scores mg cls rel index data = Some scored ->
  length scored = length data
  /\ Forall (fun s => 1 <= s_rank s <= INR (length index)) scored.
Proof.
  unfold checkpoint_scores. intros H.
  destruct (take_rows cls index) as [rows |] eqn:Hrows; [| discriminate].
  simpl in H. apply take_rows_length in Hrows.
  apply score_all_ranks in H; [| now rewrite !length_fmap].
  now rewrite length_fmap, Hrows in H.
Qed.

Lemma mean_rank_in_range (mg : R) (cls rel : matrix) (index : list nat)
    (data : list (nat * nat * nat)) (scored : list Scored) :
  data <> [] ->
  checkpoint_scores mg cls rel index data = Some scored ->
  1 <= mean_rank_of scored (length data) <= INR (length index).
Proof.
  intros Hne Hsc.
  destruct (checkpoint_scores_ranks _ _ _ _ _ _ Hsc) as [Hlen Hall].
  rewrite <- Hlen. apply mean_rank_of_bounds; [| exact Hall].
  intros ->. destruct data; [contradiction | discriminate].
Qed.

(** The mean rank of a validation pass over at least one triple lies
    between 1 and the number of proteins, and every single rank does. *)
Theorem mean_rank_bounds (mg : R) (cls rel : matrix) (index : list nat)
    (data : list (nat * nat * nat)) (scored : list Scored) :
  data <> [] ->
  checkpoint_scores mg cls rel index data = Some scored ->
  1 <= mean_rank_of scored (length data) <= INR (length index)
  /\ length scored = length data
  /\ Forall (fun s => 1 <= s_rank s <= INR (length index)) scored.
Proof.
  intros Hne Hsc. split; [now apply (mean_rank_in_range mg cls rel) |].
  now apply (checkpoint_scores_ranks mg cls rel).
Qed.

(** With fewer than 100000 proteins the first validation pass always
    saves: a callback that still holds the initial [best_rank] pickles
    both tables at the end of any epoch whose loss is not NaN, when the
    validation set is not empty and well-formed. *)
Theorem first_validation_saves (cb : Checkpoint) (w : World) (epoch : nat)
    (current_loss : pyfloat) :
  best_rank cb = 100000 ->
  isnan current_loss = false ->
  valid_data cb <> [] ->
  (Z.of_nat (length (prot_index cb)) < 100000)%Z ->
  Forall (fun i => (i < length (cls_embeddings (model w)))%nat)
    (prot_index cb) ->
  Forall (triple_ok (prot_index cb) (rel_embeddings (model w)))
    (valid_data cb) ->
  exists mean_rank : R,
    on_epoch_end cb w epoch current_loss
    = Some (set_best_rank mean_rank cb,
            mkWorld (model w) (stop_training w)
              (trace w ++ [PrintValidation (epoch + 1) mean_rank]
               ++ PrintSaving (epoch + 1) mean_rank
                  :: snapshot cb (model w))
              (steps_run w))
    /\ 1 <= mean_rank < 100000.
Proof.
  intros Hbest Hnan Hne Hsmall Hindex Hdata.
  destruct (checkpoint_scores_is_Some (margin (model w))
              (cls_embeddings (model w)) (rel_embeddings (model w))
              (prot_index cb) (valid_data cb) Hindex Hdata) as [scored Hsc].
  pose proof (mean_rank_in_range _ _ _ _ _ _ Hne Hsc) as Hmr.
  assert (Hlt : INR (length (prot_index cb)) < 100000).
  { rewrite INR_IZR_INZ. now apply IZR_lt. }
  exists (mean_rank_of scored (length (valid_data cb))).
  split; [| lra].
  rewrite (on_epoch_end_scored cb w epoch current_loss scored Hnan Hne Hsc).
  rewrite Hbest.
  destruct (Rlt_dec _ 100000) as [_ | Hn]; [reflexivity | exfalso; lra].
Qed.

(** ** The callback over a whole fit *)

Lemma on_epoch_end_monotone (cb cb' : Checkpoint) (w w' : World)
    (epoch : nat) (current_loss : pyfloat) :
  on_epoch_end cb w epoch current_loss = Some (cb', w') ->
  best_rank cb' <= best_rank cb
  /\ valid_data cb' = valid_data cb
  /\ (exists new, trace w' = trace w ++ new)
  /\ model w' = model w
  /\ steps_run w' = steps_run w
  /\ (stop_training w = true -> stop_training w' = true).
Proof.
  unfold on_epoch_end. intros H.
  destruct (isnan current_loss).
  { injection H as <- <-. simpl. repeat split; try lra; eauto. }
  destruct (decide (length (valid_data cb) = 0%nat)).
  { injection H as <- <-. repeat split; try lra; try tauto.
    exists []. now rewrite app_nil_r. }
  destruct (checkpoint_scores _ _ _ _ _) as [scored |]; [| discriminate].
  simpl in H.
  destruct (Rlt_dec _ (best_rank cb)) as [Hlt | Hge];
    injection H as <- <-; simpl; repeat split; try lra; try tauto.
  - rewrite <- app_assoc. eauto.
  - eauto.
Qed.


Section FitFacts.
Variable generator : nat -> Batch.
Variable train_on_batch :
  ELModel -> Batch -> option (matrix * matrix * pyfloat).
Variable epoch_logs : list pyfloat -> pyfloat.
Variable steps_per_epoch : nat.

Lemma on_batch_begin_frame (cb : Checkpoint) (w : World) :
  trace (on_batch_begin cb w) = trace w
  /\ stop_training (on_batch_begin cb w) = stop_training w
  /\ steps_run (on_batch_begin cb w) = steps_run w.
Proof. unfold on_batch_begin. destruct (truthy (top cb)); now simpl. Qed.

Lemma run_steps_frame (cb : Checkpoint) (n : nat) :
  forall (w w' : World) (losses losses' : list pyfloat),
    run_steps generator train_on_batch cb n w losses = Some (w', losses') ->
    trace w' = trace w
    /\ stop_training w' = stop_training w
    /\ (steps_run w' <= steps_run w + n)%nat
    /\ (stop_training w = false -> steps_run w' = (steps_run w + n)%nat).
Proof.
  induction n as [| n IH]; intros w w' losses losses' H.
  - injection H as <- <-. repeat split; lia.
  - cbn [run_steps] in H.
    destruct (on_batch_begin_frame cb w) as (Ftr & Fst & Fsr).
    destruct (train_on_batch _ _) as [[[cls rel] l] |]; [| discriminate].
    simpl in H. rewrite Fst, Ftr, Fsr in H.
    destruct (stop_training w) eqn:Hstop.
    + injection H as <- <-. simpl. repeat split; try lia; try discriminate.
    + apply IH in H. simpl in H. destruct H as (Htr & Hst & Hle & Heq).
      split; [congruence |]. split; [congruence |]. split; [lia |].
      intros _. rewrite (Heq eq_refl). lia.
Qed.

Lemma disk_app (tr new : list event) :
  disk (tr ++ new)
  = foldl (fun files e =>
             match e with
             | ToPickle file names table => <[file := (names, table)]> files
             | _ => files
             end) (disk tr) new.
Proof. unfold disk. apply foldl_app. Qed.

(** One epoch end either leaves the callback and the files as they were,
    or lowers [best_rank] and leaves the tables it validated on disk. *)
Lemma on_epoch_end_disk (cb cb' : Checkpoint) (w w' : World) (epoch : nat)
    (current_loss : pyfloat) :
  on_epoch_end cb w epoch current_loss = Some (cb', w') ->
  (cb' = cb /\ disk (trace w') = disk (trace w))
  \/ (best_rank cb' < best_rank cb /\ saved_best cb' (disk (trace w'))).
Proof.
  unfold on_epoch_end. intros H.
  destruct (isnan current_loss).
  { injection H as <- <-. left. split; [reflexivity |].
    cbn [trace]. now rewrite disk_app. }
  destruct (decide (length (valid_data cb) = 0%nat)).
  { injection H as <- <-. now left. }
  destruct (checkpoint_scores _ _ _ _ _) as [scored |] eqn:Hsc;
    [| discriminate].
  cbn [mbind option_bind] in H. cbv zeta in H.
  destruct (Rlt_dec _ (best_rank cb)) as [Hlt | Hge]; injection H as <- <-.
  - right. split; [exact Hlt |].
    exists (model w), scored. cbn [trace].
    split; [exact Hsc |]. split; [reflexivity |].
    rewrite disk_app. cbn [foldl snapshot].
    cbn [out_relations_file out_classes_file rel_list cls_list
         set_best_rank].
    split.
    + apply lookup_insert_eq.
    + intros Hne. rewrite lookup_insert_ne by congruence.
      apply lookup_insert_eq.
  - left. split; [reflexivity |]. cbn [trace]. now rewrite disk_app.
Qed.

(** Over a whole fit [best_rank] never increases, and the two files keep
    the best epoch, not the last one: either nothing was saved, the
    callback and the files being as before the fit, or [best_rank] is
    strictly lower and the files hold the tables of one model, whose
    validation mean rank is the final [best_rank]: later epochs that did
    not improve have not touched them, and each save has overwritten the
    one before. *)
Theorem fit_generator_keeps_best_snapshot (epochs : nat) :
  forall (epoch : nat) (cb cb' : Checkpoint) (w w' : World),
    fit_generator generator train_on_batch epoch_logs steps_per_epoch
      epochs epoch cb w = Some (cb', w') ->
    best_rank cb' <= best_rank cb
    /\ ((cb' = cb /\ disk (trace w') = disk (trace w))
        \/ (best_rank cb' < best_rank cb
            /\ saved_best cb' (disk (trace w')))).
Proof.
  induction epochs as [| epochs IH]; intros epoch cb cb' w w' H.
  - injection H as <- <-. split; [lra | now left].
  - cbn [fit_generator] in H.
    destruct (run_steps _ _ cb steps_per_epoch w [])
      as [[w1 losses] |] eqn:Hsteps; [| discriminate].
    simpl in H.
    destruct (on_epoch_end cb w1 epoch (epoch_logs losses))
      as [[cb2 w2] |] eqn:Hend; [| discriminate].
    simpl in H.
    destruct (run_steps_frame _ _ _ _ _ _ Hsteps) as (Htr & _).
    pose proof (on_epoch_end_disk _ _ _ _ _ _ Hend) as Hdisk.
    rewrite Htr in Hdisk.
    assert (Hrest : best_rank cb' <= best_rank cb2
                    /\ ((cb' = cb2 /\ disk (trace w') = disk (trace w2))
                        \/ (best_rank cb' < best_rank cb2
                            /\ saved_best cb' (disk (trace w'))))).
    { destruct (stop_training w2).
      - injection H as <- <-. split; [lra | now left].
      - exact (IH _ _ _ _ _ H). }
    destruct Hrest as [Hle Hrest].
    destruct Hdisk as [[-> Hsame] | [Hlt Hsaved]].
    + split; [exact Hle |].
      destruct Hrest as [[-> Hsame'] | Hlater]; [left | now right].
      split; [reflexivity | congruence].
    + split; [lra |]. right.
      destruct Hrest as [[-> Hsame'] | [Hlt' Hsaved']].
      * split; [exact Hlt |]. now rewrite Hsame'.
      * split; [lra | exact Hsaved'].
Qed.


(** A fit runs at most [epochs * steps_per_epoch] training steps, and
    exactly that many when it starts and ends with [stop_training]
    unset. *)
Theorem fit_generator_step_budget (epochs : nat) :
  forall (epoch : nat) (cb cb' : Checkpoint) (w w' : World),
    fit_generator generator train_on_batch epoch_logs steps_per_epoch
      epochs epoch cb w = Some (cb', w') ->
    (steps_run w' <= steps_run w + epochs * steps_per_epoch)%nat
    /\ (stop_training w = false -> stop_training w' = false ->
        steps_run w' = (steps_run w + epochs * steps_per_epoch)%nat).
Proof.
  induction epochs as [| epochs IH]; intros epoch cb cb' w w' H.
  - injection H as <- <-. split; [lia | intros; lia].
  - cbn [fit_generator] in H.
    destruct (run_steps _ _ cb steps_per_epoch w [])
      as [[w1 losses] |] eqn:Hsteps; [| discriminate].
    simpl in H.
    destruct (on_epoch_end cb w1 epoch (epoch_logs losses))
      as [[cb2 w2] |] eqn:Hend; [| discriminate].
    simpl in H.
    destruct (run_steps_frame _ _ _ _ _ _ Hsteps) as (_ & Hst & Hle & Heq).
    destruct (on_epoch_end_monotone _ _ _ _ _ _ Hend)
      as (_ & _ & _ & _ & Hsr & _).
    destruct (stop_training w2) eqn:Hstop2.
    + injection H as <- <-. split; [lia |].
      intros _ Hfalse. congruence.
    + apply IH in H. destruct H as [Hle' Heq'].
      split; [lia |]. intros Hw Hw'.
      rewrite (Heq' Hstop2 Hw'), Hsr, (Heq Hw). lia.
Qed.
End FitFacts.

(** ** The two evaluators on non-negative radii *)

Lemma mapM_lookup_fmap {A B} (f : A -> B) (l : list A) (index : list nat) :
  mapM (fun i => (f <$> l) !! i) index
  = fmap (fmap f) (mapM (fun i => l !! i) index).
Proof.
  induction index as [| i index IH]; [reflexivity |].
  cbn [mapM]. rewrite IH, list_lookup_fmap.
  destruct (l !! i) as [x |]; [| reflexivity]. simpl.
  destruct (mapM (fun i => l !! i) index); reflexivity.
Qed.

Lemma take_rows_Forall (P : vec -> Prop) (cls : matrix) (index : list nat)
    (rows : matrix) :
  Forall (fun i => forall x, cls !! i = Some x -> P x) index ->
  take_rows cls index = Some rows -> Forall P rows.
Proof.
  unfold take_rows. intros Hall Hrows. apply mapM_Some_1 in Hrows.
  induction Hrows as [| i x index rows Hx _ IH]; [constructor |].
  inversion Hall as [| ? ? Hi Hall']; subst.
  constructor; [now apply Hi | now apply IH].
Qed.

(** When the stored radius of every protein is non-negative, the
    validation pass of the callback and the test pass of
    evaluate_interactions.py compute the same overlaps, scores and ranks
    from the same tables. *)
Theorem evaluators_agree_on_nonneg_radii (mg : R) (cls rel : matrix)
    (index : list nat) (data : list (nat * nat * nat)) :
  Forall (fun i => forall x, cls !! i = Some x -> 0 <= last_coord x) index ->
  checkpoint_scores mg cls rel index data
  = evaluate_scores mg cls rel index data.
Proof.
  intros Hpos. unfold checkpoint_scores, evaluate_scores, take_rows.
  unfold matrix, vec in *. rewrite !mapM_lookup_fmap.
  destruct (mapM (fun i => cls !! i) index) as [rows |] eqn:Hrows;
    [| reflexivity].
  simpl. f_equal.
  pose proof (take_rows_Forall _ cls index rows Hpos Hrows) as Hrowpos.
  clear Hrows. induction Hrowpos as [| x rows Hx _ IH]; [reflexivity |].
  cbn. rewrite IH. f_equal. symmetry. now apply Rabs_pos_eq.
Qed.

(** ** Validation triples outside the proteins *)

Lemma foldl_dict_from (l : list (nat * nat)) :
  forall (acc : gmap nat nat) (c k : nat),
    foldl (fun dict kv => <[kv.2 := kv.1]> dict) acc l !! c = Some k ->
    (k, c) ∈ l \/ acc !! c = Some k.
Proof.
  induction l as [| [k0 c0] l IH]; intros acc c k H; [now right |].
  simpl in H. apply IH in H. destruct H as [H | H].
  - left. now apply list_elem_of_further.
  - apply lookup_insert_Some in H. simpl in H.
    destruct H as [[<- <-] | [_ H]]; [left | now right].
    apply list_elem_of_here.
Qed.

Lemma prot_dict_lookup_None (index : list nat) (c : nat) :
  c ∉ index -> make_prot_dict index !! c = None.
Proof.
  intros Hc. destruct (make_prot_dict index !! c) as [k |] eqn:Hk;
    [| reflexivity].
  exfalso. apply Hc. unfold make_prot_dict, enumerate in Hk.
  apply foldl_dict_from in Hk. destruct Hk as [Hk | Hk].
  - now apply elem_of_zip_r in Hk.
  - now rewrite lookup_empty in Hk.
Qed.

Lemma score_triple_outside (mg : R) (rel : matrix) (index : list nat)
    (prot_rs : list R) (prot_embeds : matrix) (t : nat * nat * nat) :
  t.1.1 ∉ index \/ t.2 ∉ index ->
  score_triple mg rel (make_prot_dict index) prot_rs prot_embeds t = None.
Proof.
  destruct t as [[c r] d]. simpl. intros [Hc | Hd]; unfold score_triple.
  - now rewrite (prot_dict_lookup_None index c Hc).
  - rewrite (prot_dict_lookup_None index d Hd).
    now destruct (make_prot_dict index !! c).
Qed.

Lemma score_all_outside (mg : R) (rel : matrix) (index : list nat)
    (prot_rs : list R) (data : list (nat * nat * nat)) :
  Exists (fun t => t.1.1 ∉ index \/ t.2 ∉ index) data ->
  forall prot_embeds : matrix,
    score_all mg rel (make_prot_dict index) prot_rs prot_embeds data = None.
Proof.
  induction 1 as [t data Ht | t data _ IH]; intros pe; cbn [score_all].
  - now rewrite (score_triple_outside mg rel index prot_rs pe t Ht).
  - destruct (score_triple _ _ _ _ pe t) as [s |]; [| reflexivity].
    simpl. now rewrite IH.
Qed.

(** A validation triple with an endpoint that is not one of the proteins
    (a class that [main] left out of [proteins]) makes the validation pass
    fail on the lookup in [prot_dict]: the callback returns no state for
    any loss that is not NaN. *)
Theorem validation_outside_proteins_fails (cb : Checkpoint) (w : World)
    (epoch : nat) (current_loss : pyfloat) :
  isnan current_loss = false ->
  Exists (fun t => t.1.1 ∉ prot_index cb \/ t.2 ∉ prot_index cb)
    (valid_data cb) ->
  checkpoint_scores (margin (model w)) (cls_embeddings (model w))
    (rel_embeddings (model w)) (prot_index cb) (valid_data cb) = None
  /\ on_epoch_end cb w epoch current_loss = None.
Proof.
  intros Hnan Hout.
  assert (Hsc : checkpoint_scores (margin (model w))
                  (cls_embeddings (model w)) (rel_embeddings (model w))
                  (prot_index cb) (valid_data cb) = None).
  { unfold checkpoint_scores.
    destruct (take_rows _ _) as [rows |]; [| reflexivity]. simpl.
    now apply score_all_outside. }
  split; [exact Hsc |]. unfold on_epoch_end. rewrite Hnan.
  rewrite decide_False; [now rewrite Hsc |].
  intros Hz. destruct (valid_data cb); [inversion Hout | discriminate].
Qed.

(** ** The candidate matrix over a whole pass *)

Lemma score_triple_embeds (mg : R) (rembeds : matrix)
    (prot_dict : gmap nat nat) (prot_rs : list R) (prot_embeds : matrix)
    (c r d : nat) (s : Scored) :
  score_triple mg rembeds prot_dict prot_rs prot_embeds (c, r, d) = Some s ->
  exists (c' : nat) (ec er : vec),
    prot_dict !! c = Some c' /\ prot_embeds !! c' = Some ec
    /\ rembeds !! r = Some er
    /\ s_prot_embeds s = <[c' := vadd ec er]> prot_embeds.
Proof.
  unfold score_triple. intros Hs.
  destruct (prot_dict !! c) as [c' |]; [| discriminate].
  destruct (prot_dict !! d) as [d' |]; [| discriminate].
  simpl in Hs.
  destruct (prot_embeds !! c') as [ec |] eqn:Hec; [| discriminate].
  destruct (prot_rs !! c') as [rc |]; [| discriminate].
  destruct (rembeds !! r) as [er |] eqn:Her; [| discriminate].
  simpl in Hs.
  destruct (rankdata_average _ d') as [rank |]; [| discriminate].
  injection Hs as <-. exists c', ec, er. repeat split; assumption.
Qed.

Lemma final_embeds_cons (prot_embeds : matrix) (s : Scored)
    (scored : list Scored) :
  final_embeds prot_embeds (s :: scored)
  = final_embeds (s_prot_embeds s) scored.
Proof.
  unfold final_embeds. destruct scored as [| s' scored]; [reflexivity |].
  rewrite last_cons_cons, (last_cons s' scored).
  destruct (last scored); reflexivity.
Qed.

(** After a pass every row of the candidate matrix is the stored center
    plus the relation vector of every triple of the pass whose query is
    that protein: the translations accumulate, none is undone. *)
Theorem score_all_accumulates (mg : R) (rembeds : matrix)
    (prot_dict : gmap nat nat) (prot_rs : list R)
    (data : list (nat * nat * nat)) :
  forall (prot_embeds : matrix) (scored : list Scored),
    score_all mg rembeds prot_dict prot_rs prot_embeds data = Some scored ->
    forall (j : nat) (row : vec),
      prot_embeds !! j = Some row ->
      final_embeds prot_embeds scored !! j
      = Some (moved_row rembeds prot_dict j row data).
Proof.
  induction data as [| [[c r] d] data IH]; intros pe scored Hsc j row Hrow.
  - injection Hsc as <-. exact Hrow.
  - cbn [score_all] in Hsc.
    destruct (score_triple mg rembeds prot_dict prot_rs pe (c, r, d))
      as [s |] eqn:Hs; [| discriminate].
    simpl in Hsc.
    destruct (score_all mg rembeds prot_dict prot_rs (s_prot_embeds s) data)
      as [rest |] eqn:Hrest; [| discriminate].
    injection Hsc as <-. rewrite final_embeds_cons.
    destruct (score_triple_embeds _ _ _ _ _ _ _ _ _ Hs)
      as (c' & ec & er & Hc & Hec & Her & Hpe).
    cbn [moved_row]. rewrite Hc. unfold matrix, vec in *. rewrite Her.
    apply (IH _ _ Hrest). rewrite Hpe.
    destruct (decide (c' = j)) as [-> | Hne].
    + rewrite list_lookup_insert_eq by (now apply lookup_lt_Some in Hec).
      congruence.
    + now rewrite list_lookup_insert_ne.
Qed.

(** ** [on_batch_begin] *)

(** [on_batch_begin] writes at most the row of the top concept: every
    other row, the relation table and the other fields of the model are
    as before, the class table keeps its length, and a second call
    changes nothing more. *)
Theorem on_batch_begin_writes_top_row_only (cb : Checkpoint) (w : World) :
  let w' := on_batch_begin cb w in
  (forall j : nat, top cb <> Some j ->
     cls_embeddings (model w') !! j = cls_embeddings (model w) !! j)
  /\ length (cls_embeddings (model w')) = length (cls_embeddings (model w))
  /\ rel_embeddings (model w') = rel_embeddings (model w)
  /\ top_embed (model w') = top_embed (model w)
  /\ trace w' = trace w
  /\ steps_run w' = steps_run w
  /\ on_batch_begin cb w' = w'.
Proof.
  unfold on_batch_begin.
  destruct (top cb) as [[| k] |] eqn:Htop; simpl;
    try (repeat split; reflexivity).
  unfold pin_top, set_cls_embeddings. simpl. unfold matrix, vec in *.
  split; [intros j Hj; apply list_lookup_insert_ne; congruence |].
  split; [apply length_insert |].
  repeat split. now rewrite list_insert_insert_eq.
Qed.

(** ** The properties above on the concrete inputs *)

Lemma score_triple_rank_bounds_witness :
  length (s_res (mkScored [[1]; [1]] [1; 1] [1; 1] (3 / 2)))
  = length ([[0]; [1]] : matrix)
  /\ length (s_prot_embeds (mkScored [[1]; [1]] [1; 1] [1; 1] (3 / 2)))
     = length ([[0]; [1]] : matrix)
  /\ 1 <= s_rank (mkScored [[1]; [1]] [1; 1] [1; 1] (3 / 2))
     <= INR (length ([[0]; [1]] : matrix)).
Proof.
  exact (score_triple_rank_bounds 0 hist_rel (make_prot_dict [0; 1]%nat)
           [1; 1] [[0]; [1]] hist_triple _ eq_refl hist_first_triple).
Defined.

Lemma score_triple_rank_counts_witness :
  exists (d' : nat) (x : R),
    make_prot_dict [0; 1]%nat !! 1%nat = Some d'
    /\ s_res (mkScored [[1]; [1]] [1; 1] [1; 1] (3 / 2)) !! d' = Some x
    /\ s_rank (mkScored [[1]; [1]] [1; 1] [1; 1] (3 / 2))
       = INR (length (scores_above x [1; 1]))
         + (INR (length (scores_equal x [1; 1])) + 1) / 2
    /\ (length (scores_equal x [1; 1]) = 1%nat ->
        s_rank (mkScored [[1]; [1]] [1; 1] [1; 1] (3 / 2))
        = 1 + INR (length (scores_above x [1; 1]))).
Proof.
  exact (score_triple_rank_counts 0 hist_rel (make_prot_dict [0; 1]%nat)
           [1; 1] [[0]; [1]] 0 0 1 _ hist_first_triple).
Defined.

Lemma mean_rank_bounds_witness :
  1 <= mean_rank_of [mkScored [[0]] [1] [1] 1] 1 <= INR 1.
Proof.
  refine (proj1 (mean_rank_bounds 0 [[0; 1]] [[0]] [0%nat] [(0, 0, 0)%nat]
                   [mkScored [[0]] [1] [1] 1] _ solo_scores)).
  discriminate.
Defined.

Lemma solo_triples_ok :
  Forall (triple_ok (prot_index solo_checkpoint)
            (rel_embeddings solo_model)) (valid_data solo_checkpoint).
Proof.
  repeat constructor; simpl; try lia; apply list_elem_of_here.
Qed.

Lemma first_validation_saves_witness :
  exists mean_rank : R,
    on_epoch_end solo_checkpoint (toy_world solo_model) 0 (Finite 0)
    = Some (set_best_rank mean_rank solo_checkpoint,
            mkWorld solo_model false
              ([] ++ [PrintValidation (0 + 1) mean_rank]
               ++ PrintSaving (0 + 1) mean_rank
                  :: snapshot solo_checkpoint solo_model)
              0)
    /\ 1 <= mean_rank < 100000.
Proof.
  refine (first_validation_saves solo_checkpoint (toy_world solo_model) 0
            (Finite 0) eq_refl eq_refl _ eq_refl _ solo_triples_ok).
  - discriminate.
  - repeat constructor.
Defined.

Lemma keep_step_runs (cb : Checkpoint) (tr : list event) (n : nat) :
  top cb = None ->
  run_steps empty_batches keep_step cb 1 (mkWorld solo_model false tr n) []
  = Some (mkWorld solo_model false tr (S n), [Finite 0]).
Proof.
  intros Htop. cbn [run_steps]. unfold on_batch_begin. rewrite Htop.
  reflexivity.
Qed.

Lemma solo_first_epoch_saves :
  on_epoch_end solo_checkpoint (mkWorld solo_model false [] 1) 0 (Finite 0)
  = Some (set_best_rank 1 solo_checkpoint,
          mkWorld solo_model false solo_saved_trace 1).
Proof.
  rewrite (on_epoch_end_scored solo_checkpoint (mkWorld solo_model false [] 1)
             0 (Finite 0) [mkScored [[0]] [1] [1] 1] eq_refl);
    [| discriminate | exact solo_scores].
  unfold mean_rank_of. simpl.
  replace ((0 + 1) / 1) with 1 by lra.
  destruct (Rlt_dec 1 100000) as [_ | Hn]; [reflexivity | exfalso; lra].
Qed.

Lemma solo_second_epoch_keeps :
  on_epoch_end (set_best_rank 1 solo_checkpoint)
    (mkWorld solo_model false solo_saved_trace 2) 1 (Finite 0)
  = Some (set_best_rank 1 solo_checkpoint, solo_twice_world).
Proof.
  rewrite (on_epoch_end_scored (set_best_rank 1 solo_checkpoint)
             (mkWorld solo_model false solo_saved_trace 2) 1 (Finite 0)
             [mkScored [[0]] [1] [1] 1] eq_refl);
    [| discriminate | exact solo_scores].
  unfold mean_rank_of. simpl.
  replace ((0 + 1) / 1) with 1 by lra.
  destruct (Rlt_dec 1 1) as [Hn | _]; [exfalso; lra | reflexivity].
Qed.

Lemma solo_fit_twice :
  fit_generator empty_batches keep_step last_loss 1 2 0 solo_checkpoint
    (toy_world solo_model)
  = Some (set_best_rank 1 solo_checkpoint, solo_twice_world).
Proof.
  unfold toy_world. cbn [fit_generator].
  rewrite keep_step_runs by reflexivity.
  cbn [mbind option_bind last_loss List.last].
  rewrite solo_first_epoch_saves. cbn [mbind option_bind stop_training].
  rewrite keep_step_runs by reflexivity.
  cbn [mbind option_bind last_loss List.last].
  rewrite solo_second_epoch_keeps. reflexivity.
Qed.

Lemma fit_generator_keeps_best_snapshot_witness :
  best_rank (set_best_rank 1 solo_checkpoint) <= best_rank solo_checkpoint
  /\ ((set_best_rank 1 solo_checkpoint = solo_checkpoint
       /\ disk (trace solo_twice_world) = disk (trace (toy_world solo_model)))
      \/ (best_rank (set_best_rank 1 solo_checkpoint)
          < best_rank solo_checkpoint
          /\ saved_best (set_best_rank 1 solo_checkpoint)
               (disk (trace solo_twice_world)))).
Proof.
  exact (fit_generator_keeps_best_snapshot empty_batches keep_step last_loss
           1 2 0 solo_checkpoint (set_best_rank 1 solo_checkpoint)
           (toy_world solo_model) solo_twice_world solo_fit_twice).
Defined.


Lemma fit_generator_step_budget_witness :
  (steps_run nan_halted_world
   <= steps_run (toy_world solo_model) + 3 * 1)%nat.
Proof.
  exact (proj1 (fit_generator_step_budget empty_batches nan_step last_loss 1
                  3 0 solo_checkpoint solo_checkpoint (toy_world solo_model)
                  nan_halted_world eq_refl)).
Defined.

Lemma evaluators_agree_on_nonneg_radii_witness :
  checkpoint_scores 0 hist_cls hist_rel [0; 1]%nat [hist_triple]
  = evaluate_scores 0 hist_cls hist_rel [0; 1]%nat [hist_triple].
Proof.
  apply evaluators_agree_on_nonneg_radii.
  constructor; [| constructor; [| constructor]];
    intros x [= <-]; unfold last_coord; simpl; lra.
Defined.

Lemma validation_outside_proteins_fails_witness :
  checkpoint_scores 0 [[0; 1]] [[0]] [0%nat] [(0, 0, 1)%nat] = None
  /\ on_epoch_end outside_checkpoint (toy_world solo_model) 0 (Finite 0)
     = None.
Proof.
  apply (validation_outside_proteins_fails outside_checkpoint
           (toy_world solo_model) 0 (Finite 0) eq_refl).
  constructor. right. simpl. intros Hin.
  apply elem_of_cons in Hin. destruct Hin as [Hin | Hin]; [discriminate | now apply elem_of_nil in Hin].
Defined.

Lemma score_all_accumulates_witness :
  final_embeds [[0]; [1]]
    [mkScored [[1]; [1]] [1; 1] [1; 1] (3 / 2);
     mkScored [[2]; [1]] [1; 1 / 2] [1; 3 / 4] 2] !! 0%nat
  = Some (moved_row hist_rel (make_prot_dict [0; 1]%nat) 0 [0]
            [hist_triple; hist_triple]).
Proof.
  exact (score_all_accumulates 0 hist_rel (make_prot_dict [0; 1]%nat)
           [1; 1] [hist_triple; hist_triple] [[0]; [1]] _
           hist_scores_twice 0%nat [0] eq_refl).
Defined.

(** * The axiom parser *)

(** ** Index dictionaries *)

Lemma dense_empty : dense empty_dict.
Proof.
  split; [reflexivity |]. intros k i. simpl.
  rewrite lookup_empty, lookup_nil. split; discriminate.
Qed.

Lemma dense_lookup_lt (d : IndexDict) (k : string) (i : nat) :
  dense d -> d_map d !! k = Some i -> (i < size (d_map d))%nat.
Proof.
  intros [Hsize Hiff] Hk. rewrite Hsize.
  apply Hiff in Hk. now apply lookup_lt_Some in Hk.
Qed.

Lemma add_key_present (c : string) (d : IndexDict) (i : nat) :
  d_map d !! c = Some i -> add_key c d = d.
Proof.
  intros Hc. unfold add_key, add_class. rewrite Hc. now destruct d.
Qed.

Lemma add_key_absent (c : string) (d : IndexDict) :
  d_map d !! c = None ->
  add_key c d
  = mkIndexDict (<[c := size (d_map d)]> (d_map d)) (d_keys d ++ [c]).
Proof. intros Hc. unfold add_key, add_class. now rewrite Hc. Qed.

Lemma add_key_dense (c : string) (d : IndexDict) :
  dense d -> dense (add_key c d).
Proof.
  intros Hd. destruct (d_map d !! c) as [i |] eqn:Hc.
  { now rewrite (add_key_present c d i Hc). }
  rewrite (add_key_absent c d Hc). destruct Hd as [Hsize Hiff].
  split; simpl.
  - rewrite map_size_insert_None by exact Hc.
    rewrite length_app. simpl. lia.
  - intros k i. rewrite Hsize. destruct (decide (c = k)) as [<- | Hne].
    + rewrite lookup_insert_eq. split.
      * intros [= <-]. rewrite lookup_app_r by lia.
        now rewrite Nat.sub_diag.
      * intros Hi. f_equal.
        destruct (decide (i < length (d_keys d))%nat) as [Hlt | Hge].
        -- rewrite lookup_app_l in Hi by exact Hlt.
           apply Hiff in Hi. congruence.
        -- apply lookup_lt_Some in Hi. rewrite length_app in Hi.
           simpl in Hi. lia.
    + rewrite lookup_insert_ne by exact Hne. rewrite Hiff. split.
      * intros Hi. rewrite lookup_app_l; [exact Hi |].
        now apply lookup_lt_Some in Hi.
      * intros Hi.
        destruct (decide (i < length (d_keys d))%nat) as [Hlt | Hge].
        -- now rewrite lookup_app_l in Hi.
        -- rewrite lookup_app_r in Hi by lia.
           destruct (i - length (d_keys d))%nat; [| discriminate].
           simpl in Hi. congruence.
Qed.

Lemma add_key_lookup (c : string) (d : IndexDict) :
  is_Some (d_map (add_key c d) !! c).
Proof.
  destruct (d_map d !! c) as [i |] eqn:Hc.
  - rewrite (add_key_present c d i Hc), Hc. now eexists.
  - rewrite (add_key_absent c d Hc). simpl. rewrite lookup_insert_eq.
    now eexists.
Qed.

Lemma add_key_keeps (c : string) (d : IndexDict) (k : string) (i : nat) :
  d_map d !! k = Some i -> d_map (add_key c d) !! k = Some i.
Proof.
  intros Hk. destruct (d_map d !! c) as [j |] eqn:Hc.
  - now rewrite (add_key_present c d j Hc).
  - rewrite (add_key_absent c d Hc). simpl.
    rewrite lookup_insert_ne; [exact Hk | congruence].
Qed.

Lemma add_key_keys (c : string) (d : IndexDict) :
  d_keys d `prefix_of` d_keys (add_key c d).
Proof.
  unfold add_key. simpl. destruct (d_map d !! c); [reflexivity |].
  now apply prefix_app_r.
Qed.

Lemma add_key_size (c : string) (d : IndexDict) :
  (size (d_map d) <= size (d_map (add_key c d)))%nat.
Proof.
  destruct (d_map d !! c) as [j |] eqn:Hc.
  - now rewrite (add_key_present c d j Hc).
  - rewrite (add_key_absent c d Hc). simpl.
    rewrite map_size_insert_None by exact Hc. lia.
Qed.

(** ** One line *)

Lemma axioms_in_range_mono (nc nr nc' nr' : nat) (data : AxiomData) :
  (nc <= nc')%nat -> (nr <= nr')%nat ->
  axioms_in_range nc nr data -> axioms_in_range nc' nr' data.
Proof.
  intros Hc Hr (H1 & H2 & H3 & H4 & H5).
  repeat split; (eapply Forall_impl; [eassumption |]); simpl; intros; lia.
Qed.

Lemma extends_refl (st : Parsed) : extends st st.
Proof. split; [| split; [| split]]; auto. Qed.

Lemma extends_trans (st1 st2 st3 : Parsed) :
  extends st1 st2 -> extends st2 st3 -> extends st1 st3.
Proof.
  intros (A1 & A2 & A3 & A4) (B1 & B2 & B3 & B4).
  split; [| split; [| split]];
    [etrans; eassumption | etrans; eassumption | auto | auto].
Qed.

(** Facts about one, two and three [add_key] in a row. *)
Ltac add_key_facts :=
  repeat match goal with
    | |- dense (add_key _ _) => apply add_key_dense
    | |- _ `prefix_of` d_keys (add_key _ _) =>
        etrans; [| apply add_key_keys]
    | |- (_ <= size (d_map (add_key _ _)))%nat =>
        etrans; [| apply add_key_size]
    | |- d_map (add_key _ _) !! _ = Some _ => apply add_key_keeps
    end; try assumption; try reflexivity.

Lemma load_intersection_ok (line : string) (st st' : Parsed) :
  load_intersection line st = Some st' ->
  parsed_ok st -> parsed_ok st' /\ extends st st'.
Proof.
  unfold load_intersection. intros H (Hc & Hr & Hd).
  destruct (split_space line !! 0%nat) as [it0 |]; [| discriminate].
  destruct (split_space line !! 1%nat) as [it1 |]; [| discriminate].
  destruct (split_space line !! 2%nat) as [it2 |]; [| discriminate].
  cbn [mbind option_bind] in H.
  set (classes := add_key it2 (add_key (drop_last it1)
                    (add_key (drop_chars 21 it0) (p_classes st)))) in *.
  assert (Hdense : dense classes) by (unfold classes; add_key_facts).
  assert (Hsize : (size (d_map (p_classes st)) <= size (d_map classes))%nat)
    by (unfold classes; add_key_facts).
  destruct (d_map classes !! drop_chars 21 it0) as [ci |] eqn:Eci;
    cbn [mbind option_bind] in H; [| discriminate].
  destruct (d_map classes !! drop_last it1) as [di |] eqn:Edi;
    cbn [mbind option_bind] in H; [| discriminate].
  destruct (d_map classes !! it2) as [ei |] eqn:Eei;
    cbn [mbind option_bind] in H; [| discriminate].
  cbn [mbind option_bind] in H. injection H as <-.
  pose proof (dense_lookup_lt _ _ _ Hdense Eci) as Lci.
  pose proof (dense_lookup_lt _ _ _ Hdense Edi) as Ldi.
  pose proof (dense_lookup_lt _ _ _ Hdense Eei) as Lei.
  apply (axioms_in_range_mono _ _ (size (d_map classes))
           (size (d_map (p_relations st)))) in Hd; [| exact Hsize | lia].
  destruct Hd as (H1 & H2 & H3 & H4 & H5).
  split.
  - split; [exact Hdense |]. split; [exact Hr |]. simpl.
    destruct (decide (it2 = "owl:Nothing"%string)); simpl;
      repeat split; try assumption;
      apply Forall_app; (split; [assumption |]);
      repeat constructor; simpl; assumption.
  - split; [| split; [| split]]; cbn [p_classes p_relations].
    + unfold classes. add_key_facts.
    + reflexivity.
    + intros k i Hk. unfold classes. add_key_facts.
    + auto.
Qed.

Lemma load_some_first_ok (line : string) (st st' : Parsed) :
  load_some_first line st = Some st' ->
  parsed_ok st -> parsed_ok st' /\ extends st st'.
Proof.
  unfold load_some_first. intros H (Hc & Hr & Hd).
  destruct (split_space line !! 0%nat) as [it0 |]; [| discriminate].
  destruct (split_space line !! 1%nat) as [it1 |]; [| discriminate].
  destruct (split_space line !! 2%nat) as [it2 |]; [| discriminate].
  cbn [mbind option_bind] in H.
  set (classes := add_key it2 (add_key (drop_last it1) (p_classes st)))
    in *.
  set (relations := add_key (drop_chars 21 it0) (p_relations st)) in *.
  assert (Hdense : dense classes) by (unfold classes; add_key_facts).
  assert (Hrdense : dense relations) by (unfold relations; add_key_facts).
  assert (Hsize : (size (d_map (p_classes st)) <= size (d_map classes))%nat)
    by (unfold classes; add_key_facts).
  assert (Hrsize : (size (d_map (p_relations st))
                    <= size (d_map relations))%nat)
    by (unfold relations; add_key_facts).
  destruct (d_map relations !! drop_chars 21 it0) as [ri |] eqn:Eri;
    cbn [mbind option_bind] in H; [| discriminate].
  destruct (d_map classes !! drop_last it1) as [ci |] eqn:Eci;
    cbn [mbind option_bind] in H; [| discriminate].
  destruct (d_map classes !! it2) as [di |] eqn:Edi;
    cbn [mbind option_bind] in H; [| discriminate].
  cbn [mbind option_bind] in H. injection H as <-.
  pose proof (dense_lookup_lt _ _ _ Hrdense Eri) as Lri.
  pose proof (dense_lookup_lt _ _ _ Hdense Eci) as Lci.
  pose proof (dense_lookup_lt _ _ _ Hdense Edi) as Ldi.
  apply (axioms_in_range_mono _ _ (size (d_map classes))
           (size (d_map relations))) in Hd; [| exact Hsize | exact Hrsize].
  destruct Hd as (H1 & H2 & H3 & H4 & H5).
  split.
  - split; [exact Hdense |]. split; [exact Hrdense |]. simpl.
    repeat split; try assumption.
    apply Forall_app. split; [assumption |].
    repeat constructor; simpl; assumption.
  - split; [| split; [| split]]; cbn [p_classes p_relations].
    + unfold classes. add_key_facts.
    + unfold relations. add_key_facts.
    + intros k i Hk. unfold classes. add_key_facts.
    + intros k i Hk. unfold relations. add_key_facts.
Qed.

Lemma load_some_second_ok (line : string) (st st' : Parsed) :
  load_some_second line st = Some st' ->
  parsed_ok st -> parsed_ok st' /\ extends st st'.
Proof.
  unfold load_some_second. intros H (Hc & Hr & Hd).
  destruct (split_space line !! 0%nat) as [it0 |]; [| discriminate].
  destruct (split_space line !! 1%nat) as [it1 |]; [| discriminate].
  destruct (split_space line !! 2%nat) as [it2 |]; [| discriminate].
  cbn [mbind option_bind] in H.
  set (classes := add_key (drop_last it2) (add_key it0 (p_classes st)))
    in *.
  set (relations := add_key (drop_chars 21 it1) (p_relations st)) in *.
  assert (Hdense : dense classes) by (unfold classes; add_key_facts).
  assert (Hrdense : dense relations) by (unfold relations; add_key_facts).
  assert (Hsize : (size (d_map (p_classes st)) <= size (d_map classes))%nat)
    by (unfold classes; add_key_facts).
  assert (Hrsize : (size (d_map (p_relations st))
                    <= size (d_map relations))%nat)
    by (unfold relations; add_key_facts).
  destruct (d_map classes !! it0) as [ci |] eqn:Eci;
    cbn [mbind option_bind] in H; [| discriminate].
  destruct (d_map relations !! drop_chars 21 it1) as [ri |] eqn:Eri;
    cbn [mbind option_bind] in H; [| discriminate].
  destruct (d_map classes !! drop_last it2) as [di |] eqn:Edi;
    cbn [mbind option_bind] in H; [| discriminate].
  cbn [mbind option_bind] in H. injection H as <-.
  pose proof (dense_lookup_lt _ _ _ Hrdense Eri) as Lri.
  pose proof (dense_lookup_lt _ _ _ Hdense Eci) as Lci.
  pose proof (dense_lookup_lt _ _ _ Hdense Edi) as Ldi.
  apply (axioms_in_range_mono _ _ (size (d_map classes))
           (size (d_map relations))) in Hd; [| exact Hsize | exact Hrsize].
  destruct Hd as (H1 & H2 & H3 & H4 & H5).
  split.
  - split; [exact Hdense |]. split; [exact Hrdense |]. simpl.
    repeat split; try assumption.
    apply Forall_app. split; [assumption |].
    repeat constructor; simpl; assumption.
  - split; [| split; [| split]]; cbn [p_classes p_relations].
    + unfold classes. add_key_facts.
    + unfold relations. add_key_facts.
    + intros k i Hk. unfold classes. add_key_facts.
    + intros k i Hk. unfold relations. add_key_facts.
Qed.

Lemma load_subclass_ok (line : string) (st st' : Parsed) :
  load_subclass line st = Some st' ->
  parsed_ok st -> parsed_ok st' /\ extends st st'.
Proof.
  unfold load_subclass. intros H (Hc & Hr & Hd).
  destruct (split_space line !! 0%nat) as [it0 |]; [| discriminate].
  destruct (split_space line !! 1%nat) as [it1 |]; [| discriminate].
  cbn [mbind option_bind] in H.
  set (classes := add_key it1 (add_key it0 (p_classes st))) in *.
  assert (Hdense : dense classes) by (unfold classes; add_key_facts).
  assert (Hsize : (size (d_map (p_classes st)) <= size (d_map classes))%nat)
    by (unfold classes; add_key_facts).
  destruct (d_map classes !! it0) as [ci |] eqn:Eci;
    cbn [mbind option_bind] in H; [| discriminate].
  destruct (d_map classes !! it1) as [di |] eqn:Edi;
    cbn [mbind option_bind] in H; [| discriminate].
  cbn [mbind option_bind] in H. injection H as <-.
  pose proof (dense_lookup_lt _ _ _ Hdense Eci) as Lci.
  pose proof (dense_lookup_lt _ _ _ Hdense Edi) as Ldi.
  apply (axioms_in_range_mono _ _ (size (d_map classes))
           (size (d_map (p_relations st)))) in Hd; [| exact Hsize | lia].
  destruct Hd as (H1 & H2 & H3 & H4 & H5).
  split.
  - split; [exact Hdense |]. split; [exact Hr |]. simpl.
    repeat split; try assumption.
    apply Forall_app. split; [assumption |].
    repeat constructor; simpl; assumption.
  - split; [| split; [| split]]; cbn [p_classes p_relations].
    + unfold classes. add_key_facts.
    + reflexivity.
    + intros k i Hk. unfold classes. add_key_facts.
    + auto.
Qed.

Lemma load_line_ok (st st' : Parsed) (line : string) :
  load_line st line = Some st' ->
  parsed_ok st -> parsed_ok st' /\ extends st st'.
Proof.
  unfold load_line. intros H Hok.
  destruct (startswith "SubObjectPropertyOf" line).
  { injection H as <-. split; [exact Hok | apply extends_refl]. }
  destruct (drop_last (drop_chars 11 (strip line))) as [| a clause] eqn:Hcl.
  { injection H as <-. split; [exact Hok | apply extends_refl]. }
  destruct (startswith "ObjectIntersectionOf(" (String a clause)).
  { now apply (load_intersection_ok (String a clause)). }
  destruct (startswith "ObjectSomeValuesFrom(" (String a clause)).
  { now apply (load_some_first_ok (String a clause)). }
  destruct (contains "ObjectSomeValuesFrom" (String a clause)).
  { now apply (load_some_second_ok (String a clause)). }
  now apply (load_subclass_ok (String a clause)).
Qed.

(** ** The whole file *)

Lemma load_fold_None (lines : list string) :
  foldl (fun st line => st ← st; load_line st line) None lines = None.
Proof. induction lines as [| line lines IH]; [reflexivity | exact IH]. Qed.

Lemma load_fold_ok (lines : list string) :
  forall st0 st : Parsed,
    foldl (fun st line => st ← st; load_line st line) (Some st0) lines
    = Some st ->
    parsed_ok st0 -> parsed_ok st /\ extends st0 st.
Proof.
  induction lines as [| line lines IH]; intros st0 st H Hok.
  - injection H as <-. split; [exact Hok | apply extends_refl].
  - cbn [foldl mbind option_bind] in H.
    destruct (load_line st0 line) as [st1 |] eqn:Hline.
    + destruct (load_line_ok st0 st1 line Hline Hok) as [Hok1 Hext1].
      destruct (IH st1 st H Hok1) as [Hok2 Hext2].
      split; [exact Hok2 | now apply (extends_trans st0 st1 st)].
    + now rewrite load_fold_None in H.
Qed.

Lemma parsed_ok_empty : parsed_ok empty_parsed.
Proof.
  split; [apply dense_empty |]. split; [apply dense_empty |].
  repeat split; constructor.
Qed.

Lemma load_lines_ok (lines : list string) (st : Parsed) :
  load_lines lines = Some st -> parsed_ok st.
Proof.
  intros H. exact (proj1 (load_fold_ok lines _ _ H parsed_ok_empty)).
Qed.

Lemma take_Forall {A} (P : A -> Prop) (val : list A) (index : list nat)
    (out : list A) :
  take val index = Some out -> Forall P val -> Forall P out.
Proof.
  unfold take. intros Hout Hval. apply mapM_Some_1 in Hout.
  induction Hout as [| i x index out Hx _ IH]; constructor; [| exact IH].
  exact (proj1 (Forall_lookup _ _) Hval i x Hx).
Qed.

Lemma load_data_ok (shuffle : nat -> list nat) (lines : list string)
    (st : Parsed) :
  load_data shuffle lines = Some st -> parsed_ok st.
Proof.
  unfold load_data. intros H.
  destruct (load_lines lines) as [st0 |] eqn:Hst0; [| discriminate].
  cbn [mbind option_bind] in H.
  destruct (load_lines_ok lines st0 Hst0)
    as (Hc & Hr & H1 & H2 & H3 & H4 & H5).
  destruct (take (a_nf1 _) _) as [nf1 |] eqn:E1; [| discriminate].
  cbn [mbind option_bind] in H.
  destruct (take (a_nf2 _) _) as [nf2 |] eqn:E2; [| discriminate].
  cbn [mbind option_bind] in H.
  destruct (take (a_nf3 _) _) as [nf3 |] eqn:E3; [| discriminate].
  cbn [mbind option_bind] in H.
  destruct (take (a_nf4 _) _) as [nf4 |] eqn:E4; [| discriminate].
  cbn [mbind option_bind] in H.
  destruct (take (a_disjoint _) _) as [dis |] eqn:E5; [| discriminate].
  cbn [mbind option_bind] in H. injection H as <-.
  split; [exact Hc |]. split; [exact Hr |]. cbn.
  repeat split; eapply take_Forall; eassumption.
Qed.

(** The indices [load_data] assigns are dense: a name has index [i]
    exactly when it is the [i]-th distinct name met, so the indices of the
    classes are 0 to [nb_classes - 1], each used once; likewise for the
    relations. *)
Theorem load_data_indices_dense (shuffle : nat -> list nat)
    (lines : list string) (st : Parsed) :
  load_data shuffle lines = Some st ->
  let classes := p_classes st in
  let relations := p_relations st in
  size (d_map classes) = length (d_keys classes)
  /\ size (d_map relations) = length (d_keys relations)
  /\ (forall k i, d_map classes !! k = Some i <-> d_keys classes !! i = Some k)
  /\ (forall k i, d_map relations !! k = Some i
                  <-> d_keys relations !! i = Some k)
  /\ (forall k1 k2 i, d_map classes !! k1 = Some i ->
                      d_map classes !! k2 = Some i -> k1 = k2)
  /\ (forall i, (i < size (d_map classes))%nat ->
                exists k, d_map classes !! k = Some i).
Proof.
  intros H classes relations.
  destruct (load_data_ok shuffle lines st H) as ([Sc Ic] & [Sr Ir] & _).
  fold classes in Sc, Ic. fold relations in Sr, Ir.
  split; [exact Sc |]. split; [exact Sr |]. split; [exact Ic |].
  split; [exact Ir |]. split.
  - intros k1 k2 i H1 H2. apply Ic in H1, H2. congruence.
  - intros i Hi. rewrite Sc in Hi.
    destruct (lookup_lt_is_Some_2 _ _ Hi) as [k Hk].
    exists k. now apply Ic.
Qed.

(** Every index stored in an axiom set is a valid row: class indices are
    below the number of classes, relation indices below the number of
    relations, in all five sets that [load_data] returns. *)
Theorem load_data_indices_in_range (shuffle : nat -> list nat)
    (lines : list string) (st : Parsed) :
  load_data shuffle lines = Some st ->
  axioms_in_range (size (d_map (p_classes st)))
    (size (d_map (p_relations st))) (p_data st).
Proof.
  intros H. exact (proj2 (proj2 (load_data_ok shuffle lines st H))).
Qed.

(** Reading further lines never changes what the first lines assigned:
    the parse of a longer file extends the parse of each of its prefixes,
    which exists. *)
Theorem load_lines_extends (lines more : list string) (st' : Parsed) :
  load_lines (lines ++ more) = Some st' ->
  exists st : Parsed,
    load_lines lines = Some st
    /\ d_keys (p_classes st) `prefix_of` d_keys (p_classes st')
    /\ d_keys (p_relations st) `prefix_of` d_keys (p_relations st')
    /\ (forall k i, d_map (p_classes st) !! k = Some i ->
                    d_map (p_classes st') !! k = Some i)
    /\ (forall k i, d_map (p_relations st) !! k = Some i ->
                    d_map (p_relations st') !! k = Some i).
Proof.
  unfold load_lines. rewrite foldl_app. intros H.
  destruct (foldl _ (Some empty_parsed) lines) as [st |] eqn:Hst.
  - exists st. split; [reflexivity |].
    pose proof (proj1 (load_fold_ok lines _ _ Hst parsed_ok_empty)) as Hok.
    exact (proj2 (load_fold_ok more _ _ H Hok)).
  - now rewrite load_fold_None in H.
Qed.

(** ** Lines that make the parse fail *)

Lemma contains_space_cons (a : ascii) (s : string) :
  contains " " (String a s) = false ->
  Ascii.eqb a " "%char = false /\ contains " " s = false.
Proof.
  cbn [contains String.prefix]. intros H. apply orb_false_elim in H.
  destruct H as [Hp Hs]. split; [| exact Hs].
  destruct (ascii_dec " "%char a) as [<- | Hne].
  - destruct s; discriminate.
  - apply Ascii.eqb_neq. congruence.
Qed.

Lemma split_space_no_space (s : string) :
  contains " " s = false -> split_space s = [s].
Proof.
  induction s as [| a s IH]; intros H; [reflexivity |].
  apply contains_space_cons in H. destruct H as [Ha Hs].
  cbn [split_space]. rewrite Ha, (IH Hs). reflexivity.
Qed.

Lemma load_line_unsplittable (st : Parsed) (line : string) :
  unsplittable line -> load_line st line = None.
Proof.
  intros (Hskip & Hne & Hsp). unfold load_line. rewrite Hskip.
  fold (clause_of line).
  destruct (clause_of line) as [| a clause] eqn:Hcl; [contradiction |].
  assert (Hit : split_space (String a clause) !! 1%nat = None)
    by (now rewrite (split_space_no_space _ Hsp)).
  unfold load_intersection, load_some_first, load_some_second,
    load_subclass.
  rewrite Hit.
  destruct (split_space (String a clause) !! 0%nat);
    repeat match goal with |- context [if ?b then _ else _] => destruct b end;
    reflexivity.
Qed.

Lemma load_fold_unsplittable (lines : list string) :
  Exists unsplittable lines ->
  forall st0 : option Parsed,
    foldl (fun st line => st ← st; load_line st line) st0 lines = None.
Proof.
  induction 1 as [line lines Hline | line lines _ IH]; intros st0.
  - cbn [foldl]. destruct st0 as [st0 |]; cbn [mbind option_bind];
      [rewrite (load_line_unsplittable st0 line Hline) |];
      apply load_fold_None.
  - cbn [foldl]. apply IH.
Qed.

(** A line whose clause is not empty and holds no space (as
    [SubClassOf(A)]) is not skipped: every branch reads a second token,
    and [load_data] fails with it. *)
Theorem load_data_unsplittable_line_fails (shuffle : nat -> list nat)
    (lines : list string) :
  Exists unsplittable lines -> load_data shuffle lines = None.
Proof.
  intros H. unfold load_data, load_lines.
  now rewrite (load_fold_unsplittable lines H).
Qed.

(** ** The shuffle *)

Lemma mapM_lookup_seq_from {A} (l : list A) :
  forall k : list A,
    mapM (fun i => (k ++ l) !! i) (seq (length k) (length l)) = Some l.
Proof.
  induction l as [| x l IH]; intros k; [reflexivity |].
  cbn [length seq mapM]. rewrite list_lookup_middle by reflexivity.
  cbn [mbind option_bind].
  specialize (IH (k ++ [x])). rewrite <- app_assoc in IH. simpl in IH.
  rewrite length_app in IH. simpl in IH.
  replace (length k + 1)%nat with (S (length k)) in IH by lia.
  now rewrite IH.
Qed.

Lemma take_all {A} (l : list A) : take l (seq 0 (length l)) = Some l.
Proof. exact (mapM_lookup_seq_from l []). Qed.

Lemma mapM_Permutation {A B} (f : A -> option B) (l1 l2 : list A) :
  l1 ≡ₚ l2 ->
  forall o2, mapM f l2 = Some o2 ->
             exists o1, mapM f l1 = Some o1 /\ o1 ≡ₚ o2.
Proof.
  induction 1 as [| x l1 l2 _ IH | x y l | l1 l2 l3 _ IH1 _ IH2];
    intros o2 H.
  - injection H as <-. now exists [].
  - cbn [mapM] in *. destruct (f x) as [v |]; [| discriminate].
    cbn [mbind option_bind] in *.
    destruct (mapM f l2) as [o2' |]; [| discriminate].
    injection H as <-. destruct (IH o2' eq_refl) as (o1 & -> & Hp).
    exists (v :: o1). split; [reflexivity | now constructor].
  - cbn [mapM] in *. destruct (f x) as [v |]; [| discriminate].
    cbn [mbind option_bind] in *.
    destruct (f y) as [u |]; [| discriminate].
    cbn [mbind option_bind] in *.
    destruct (mapM f l) as [o |]; [| discriminate].
    injection H as <-. exists (u :: v :: o).
    split; [reflexivity | constructor].
  - destruct (IH2 o2 H) as (o & Ho & Hp2).
    destruct (IH1 o Ho) as (o1 & Ho1 & Hp1).
    exists o1. split; [exact Ho1 | exact (perm_trans Hp1 Hp2)].
Qed.

Lemma take_Permutation {A} (val : list A) (index : list nat) :
  index ≡ₚ seq 0 (length val) ->
  exists out, take val index = Some out /\ out ≡ₚ val.
Proof.
  intros Hp. exact (mapM_Permutation _ _ _ Hp val (take_all val)).
Qed.

Section Shuffle.
Variable shuffle : nat -> list nat.
Hypothesis shuffle_perm : forall n : nat, shuffle n ≡ₚ seq 0 n.

(** When the parse succeeds so does [load_data]: the shuffle only
    reorders each axiom set and leaves both dictionaries as parsed. *)
Theorem load_data_reorders (lines : list string) (st0 : Parsed) :
  load_lines lines = Some st0 ->
  exists st : Parsed,
    load_data shuffle lines = Some st
    /\ p_classes st = p_classes st0
    /\ p_relations st = p_relations st0
    /\ a_nf1 (p_data st) ≡ₚ a_nf1 (p_data st0)
    /\ a_nf2 (p_data st) ≡ₚ a_nf2 (p_data st0)
    /\ a_nf3 (p_data st) ≡ₚ a_nf3 (p_data st0)
    /\ a_nf4 (p_data st) ≡ₚ a_nf4 (p_data st0)
    /\ a_disjoint (p_data st) ≡ₚ a_disjoint (p_data st0).
Proof.
  intros H. unfold load_data. rewrite H. cbn [mbind option_bind].
  destruct (take_Permutation (a_nf1 (p_data st0)) _ (shuffle_perm _))
    as (nf1 & -> & P1).
  destruct (take_Permutation (a_nf2 (p_data st0)) _ (shuffle_perm _))
    as (nf2 & -> & P2).
  destruct (take_Permutation (a_nf3 (p_data st0)) _ (shuffle_perm _))
    as (nf3 & -> & P3).
  destruct (take_Permutation (a_nf4 (p_data st0)) _ (shuffle_perm _))
    as (nf4 & -> & P4).
  destruct (take_Permutation (a_disjoint (p_data st0)) _ (shuffle_perm _))
    as (dis & -> & P5).
  cbn [mbind option_bind]. eexists. split; [reflexivity |].
  cbn. repeat split; assumption.
Qed.
End Shuffle.

(** ** Names by index *)

Lemma items_from (d : IndexDict) :
  dense d ->
  forall pre suf : list string,
    d_keys d = pre ++ suf ->
    omap (fun k => i ← d_map d !! k; Some (k, i)) suf
    = zip suf (seq (length pre) (length suf)).
Proof.
  intros [_ Hiff] pre suf. revert pre.
  induction suf as [| k suf IH]; intros pre Hkeys; [reflexivity |].
  cbn [omap list_omap length seq zip_with].
  assert (Hk : d_map d !! k = Some (length pre)).
  { apply Hiff. rewrite Hkeys. now apply list_lookup_middle. }
  rewrite Hk. cbn [mbind option_bind]. f_equal.
  specialize (IH (pre ++ [k])). rewrite length_app in IH. simpl in IH.
  replace (length pre + 1)%nat with (S (length pre)) in IH by lia.
  apply IH. now rewrite <- app_assoc.
Qed.

Lemma items_dense (d : IndexDict) :
  dense d -> items d = zip (d_keys d) (seq 0 (length (d_keys d))).
Proof. intros Hd. exact (items_from d Hd [] (d_keys d) eq_refl). Qed.

Lemma invert_lookup (keys : list string) (i : nat) :
  foldl (fun inv kv => <[kv.2 := kv.1]> inv) (∅ : gmap nat string)
    (zip keys (seq 0 (length keys))) !! i
  = keys !! i.
Proof.
  revert i. induction keys as [| k keys IH] using rev_ind; intros i.
  - simpl. now rewrite lookup_empty.
  - rewrite length_app. simpl length.
    replace (length keys + 1)%nat with (S (length keys)) by lia.
    rewrite seq_S. simpl.
    rewrite zip_with_app by (now rewrite length_seq).
    rewrite foldl_app. simpl.
    destruct (decide (i = length keys)) as [-> | Hne].
    + rewrite lookup_insert_eq. symmetry. now apply list_lookup_middle.
    + rewrite lookup_insert_ne by congruence. rewrite IH.
      destruct (decide (i < length keys)%nat) as [Hlt | Hge].
      * now rewrite lookup_app_l.
      * rewrite !lookup_ge_None_2; [reflexivity | | lia].
        rewrite length_app. simpl. lia.
Qed.

Lemma names_by_index_dense (d : IndexDict) :
  dense d -> names_by_index d = Some (d_keys d).
Proof.
  intros Hd. unfold names_by_index, invert.
  rewrite (items_dense d Hd), (proj1 Hd).
  rewrite (mapM_ext _ (fun i => d_keys d !! i)) by apply invert_lookup.
  apply take_all.
Qed.

(** ** Proteins *)

Lemma elem_of_zip_seq (keys : list string) (k : string) (i : nat) :
  (k, i) ∈ zip keys (seq 0 (length keys)) <-> keys !! i = Some k.
Proof.
  rewrite list_elem_of_lookup. split.
  - intros [j Hj]. rewrite lookup_zip_with in Hj.
    destruct (keys !! j) as [k' |] eqn:Hk; [| discriminate].
    cbn [mbind option_bind] in Hj.
    rewrite lookup_seq_lt in Hj by (now apply lookup_lt_Some in Hk).
    cbn in Hj. injection Hj as -> <-. exact Hk.
  - intros Hi. exists i. rewrite lookup_zip_with, Hi.
    cbn [mbind option_bind].
    rewrite lookup_seq_lt by (now apply lookup_lt_Some in Hi).
    reflexivity.
Qed.

Lemma NoDup_filter_snd_zip_seq (P : string * nat -> bool)
    (keys : list string) (from : nat) :
  NoDup (List.filter P (zip keys (seq from (length keys)))).*2.
Proof.
  assert (Hsub : forall n,
             (List.filter P (zip keys (seq from n))).*2
             `sublist_of` seq from n).
  { revert from. induction keys as [| k keys IH]; intros from n.
    - apply sublist_nil_l.
    - destruct n as [| n]; [apply sublist_nil_l |].
      cbn [seq zip_with List.filter].
      destruct (P (k, from)); cbn [fmap list_fmap snd].
      + apply sublist_skip, IH.
      + apply sublist_cons, IH. }
  eapply sublist_NoDup; [apply NoDup_seq | apply Hsub].
Qed.

(** The proteins are the classes whose name does not start with the GO
    prefix, each once, by increasing index. *)
Lemma select_proteins_dense (classes : IndexDict) :
  dense classes ->
  NoDup (select_proteins classes).*2
  /\ (forall k i, (k, i) ∈ select_proteins classes
                  <-> d_map classes !! k = Some i
                      /\ startswith go_prefix k = false)
  /\ Forall (fun i => (i < size (d_map classes))%nat)
       (select_proteins classes).*2.
Proof.
  intros Hd. unfold select_proteins. rewrite (items_dense classes Hd).
  assert (Hmem : forall k i,
             (k, i) ∈ List.filter
                        (fun kv => negb (startswith go_prefix kv.1))
                        (zip (d_keys classes)
                           (seq 0 (length (d_keys classes))))
             <-> d_map classes !! k = Some i
                 /\ startswith go_prefix k = false).
  { intros k i. rewrite list_elem_of_In, filter_In, <- list_elem_of_In.
    rewrite elem_of_zip_seq, <- (proj2 Hd k i). simpl.
    rewrite negb_true_iff. reflexivity. }
  split; [apply NoDup_filter_snd_zip_seq |]. split; [exact Hmem |].
  apply Forall_forall. intros i Hi.
  apply list_elem_of_fmap in Hi. destruct Hi as ([k i'] & -> & Hki).
  apply Hmem in Hki. destruct Hki as [Hki _].
  exact (dense_lookup_lt classes k i' Hd Hki).
Qed.

Lemma prot_dict_lookup_iff (index : list nat) (c k : nat) :
  NoDup index ->
  make_prot_dict index !! c = Some k <-> index !! k = Some c.
Proof.
  intros Hnd.
  assert (Hto : forall k', make_prot_dict index !! c = Some k' ->
                           index !! k' = Some c).
  { intros k' Hk. unfold make_prot_dict, enumerate in Hk.
    apply foldl_dict_from in Hk. destruct Hk as [Hk | Hk].
    - apply list_elem_of_lookup in Hk. destruct Hk as [j Hj].
      rewrite lookup_zip_with in Hj.
      destruct (seq 0 (length index) !! j) as [k'' |] eqn:Hs;
        [| discriminate].
      cbn [mbind option_bind] in Hj.
      destruct (index !! j) as [c' |] eqn:Hc; [| discriminate].
      cbn in Hj. injection Hj as -> ->.
      rewrite lookup_seq_lt in Hs by (now apply lookup_lt_Some in Hc).
      now injection Hs as <-.
    - now rewrite lookup_empty in Hk. }
  split; [apply Hto |]. intros Hk.
  destruct (prot_dict_lookup index c) as (k' & Hk' & _).
  { now apply (list_elem_of_lookup_2 _ k). }
  rewrite Hk'. f_equal.
  exact (NoDup_lookup _ _ _ _ Hnd (Hto k' Hk') Hk).
Qed.

(** [prot_dict] inverts [prot_index] when no class occurs twice in it:
    a class is mapped to a position exactly when it stands there, so the
    row of a protein in [prot_embeds] is the row of its class. *)
Theorem prot_dict_inverts_index (index : list nat) (c k : nat) :
  NoDup index ->
  (make_prot_dict index !! c = Some k <-> index !! k = Some c)
  /\ (c ∈ index <-> is_Some (make_prot_dict index !! c)).
Proof.
  intros Hnd. split; [now apply prot_dict_lookup_iff |]. split.
  - intros Hin. destruct (prot_dict_lookup index c Hin) as (k' & Hk' & _).
    now exists k'.
  - intros [k' Hk']. apply (prot_dict_lookup_iff index c k' Hnd) in Hk'.
    now apply (list_elem_of_lookup_2 _ k').
Qed.

(** ** The validation file *)

Lemma load_valid_line_short (classes relations : gmap string nat)
    (data : list (nat * nat * nat)) (line : string) :
  short_line line -> load_valid_line classes relations data line = None.
Proof.
  unfold short_line, load_valid_line. intros Hlen.
  destruct (split_ws (strip line)) as [| t0 [| t1 [| t2 ts]]];
    simpl in *; try reflexivity. lia.
Qed.

Lemma load_valid_line_long (classes relations : gmap string nat)
    (data : list (nat * nat * nat)) (line : string) :
  ~ short_line line ->
  load_valid_line classes relations data line
  = Some (data ++ option_list (valid_triple_of classes relations line)).
Proof.
  unfold short_line, load_valid_line, valid_triple_of. intros Hlen.
  destruct (split_ws (strip line)) as [| t0 [| t1 [| t2 ts]]];
    simpl in Hlen; try lia.
  simpl.
  destruct (classes !! wrap_uri t0), (classes !! wrap_uri t1),
    (relations !! wrap_uri t2); simpl; rewrite ?app_nil_r; reflexivity.
Qed.

Lemma load_valid_fold_None (classes relations : gmap string nat)
    (lines : list string) :
  foldl (fun data line => data ← data;
                          load_valid_line classes relations data line)
    None lines = None.
Proof. induction lines as [| line lines IH]; [reflexivity | exact IH]. Qed.

Lemma load_valid_fold (classes relations : gmap string nat)
    (lines : list string) :
  forall data0 : list (nat * nat * nat),
    (Exists short_line lines ->
     foldl (fun data line => data ← data;
                             load_valid_line classes relations data line)
       (Some data0) lines = None)
    /\ (Forall (fun line => ~ short_line line) lines ->
        foldl (fun data line => data ← data;
                                load_valid_line classes relations data line)
          (Some data0) lines
        = Some (data0 ++ omap (valid_triple_of classes relations) lines)).
Proof.
  induction lines as [| line lines IH]; intros data0.
  - split; [intros H; inversion H |].
    intros _. simpl. now rewrite app_nil_r.
  - split.
    + intros H. cbn [foldl mbind option_bind].
      assert (Hdec : short_line line \/ ~ short_line line)
        by (unfold short_line; lia).
      destruct Hdec as [Hs | Hl].
      * rewrite (load_valid_line_short _ _ _ _ Hs).
        apply load_valid_fold_None.
      * rewrite (load_valid_line_long _ _ _ _ Hl).
        apply IH. inversion H; [contradiction | assumption].
    + intros H. inversion H as [| ? ? Hl Hrest]; subst.
      cbn [foldl mbind option_bind].
      rewrite (load_valid_line_long _ _ _ _ Hl).
      rewrite (proj2 (IH _) Hrest). f_equal.
      rewrite <- app_assoc. f_equal.
      cbn [omap list_omap].
      destruct (valid_triple_of classes relations line); reflexivity.
Qed.

Lemma valid_triple_of_known (classes relations : gmap string nat)
    (line : string) (t : nat * nat * nat) :
  valid_triple_of classes relations line = Some t ->
  (exists k, classes !! k = Some t.1.1)
  /\ (exists k, relations !! k = Some t.1.2)
  /\ (exists k, classes !! k = Some t.2).
Proof.
  unfold valid_triple_of. intros H.
  destruct (split_ws (strip line) !! 0%nat) as [t0 |]; [| discriminate].
  destruct (split_ws (strip line) !! 1%nat) as [t1 |]; [| discriminate].
  destruct (split_ws (strip line) !! 2%nat) as [t2 |]; [| discriminate].
  cbn [mbind option_bind] in H.
  destruct (classes !! wrap_uri t0) as [c |] eqn:Hc; [| discriminate].
  destruct (classes !! wrap_uri t1) as [d |] eqn:Hd; [| discriminate].
  destruct (relations !! wrap_uri t2) as [r |] eqn:Hr; [| discriminate].
  cbn [mbind option_bind] in H. injection H as <-. cbn [fst snd].
  split; [| split]; eexists; eassumption.
Qed.

Lemma omap_length_le {A B : Type} (f : A -> option B) (l : list A) :
  (length (omap f l) <= length l)%nat.
Proof.
  induction l as [| x l IH]; [reflexivity |].
  cbn [omap list_omap]. destruct (f x); simpl in *; lia.
Qed.

(** [load_valid_data] fails exactly on a file with a line of fewer than
    three fields (a blank line is one); otherwise it returns, in the order
    of the file, the triple of every line whose two classes and relation
    are known, and drops the other lines. *)
Theorem load_valid_data_triples (lines : list string)
    (classes relations : gmap string nat) :
  (Exists short_line lines ->
   load_valid_data lines classes relations = None)
  /\ (Forall (fun line => ~ short_line line) lines ->
      load_valid_data lines classes relations
      = Some (omap (valid_triple_of classes relations) lines))
  /\ (forall data, load_valid_data lines classes relations = Some data ->
        (length data <= length lines)%nat
        /\ Forall (fun t => (exists k, classes !! k = Some t.1.1)
                            /\ (exists k, relations !! k = Some t.1.2)
                            /\ (exists k, classes !! k = Some t.2)) data).
Proof.
  unfold load_valid_data.
  destruct (load_valid_fold classes relations lines []) as [Hshort Hlong].
  split; [exact Hshort |]. split; [exact Hlong |].
  intros data Hdata.
  assert (Hall : Forall (fun line => ~ short_line line) lines).
  { apply Forall_forall. intros line Hin Hs.
    rewrite Hshort in Hdata; [discriminate |].
    apply Exists_exists. eauto. }
  rewrite (Hlong Hall) in Hdata. injection Hdata as <-. simpl. split.
  - apply omap_length_le.
  - apply Forall_forall. intros t Ht.
    apply list_elem_of_omap in Ht. destruct Ht as (line & _ & Hline).
    exact (valid_triple_of_known _ _ _ _ Hline).
Qed.

(** ** Steps per epoch *)

Lemma nb_train_data_max (data : AxiomData) :
  (length (a_nf1 data) <= nb_train_data data)%nat
  /\ (length (a_nf2 data) <= nb_train_data data)%nat
  /\ (length (a_nf3 data) <= nb_train_data data)%nat
  /\ (length (a_nf4 data) <= nb_train_data data)%nat
  /\ (length (a_disjoint data) <= nb_train_data data)%nat.
Proof. unfold nb_train_data. simpl. repeat split; lia. Qed.

(** [train_steps] is the number of batches that covers the largest axiom
    set, and no more: every set has at most [steps * batch_size] axioms,
    and [steps * batch_size] exceeds the largest set by less than one
    batch.  A batch size of 0 makes the division raise. *)
Theorem train_steps_covers (data : AxiomData) (batch_size : nat) :
  (batch_size = 0%nat ->
   train_steps (nb_train_data data) batch_size = None)
  /\ (forall steps,
        train_steps (nb_train_data data) batch_size = Some steps ->
        (0 < batch_size)%nat
        /\ (nb_train_data data <= steps * batch_size)%nat
        /\ (steps * batch_size < nb_train_data data + batch_size)%nat
        /\ (length (a_nf1 data) <= steps * batch_size)%nat
        /\ (length (a_nf2 data) <= steps * batch_size)%nat
        /\ (length (a_nf3 data) <= steps * batch_size)%nat
        /\ (length (a_nf4 data) <= steps * batch_size)%nat
        /\ (length (a_disjoint data) <= steps * batch_size)%nat).
Proof.
  unfold train_steps. split.
  - intros ->. reflexivity.
  - intros steps H.
    destruct (decide (batch_size = 0%nat)) as [| Hb]; [discriminate |].
    injection H as <-.
    pose proof (nb_train_data_max data) as (M1 & M2 & M3 & M4 & M5).
    set (nb := nb_train_data data) in *.
    pose proof (Nat.div_mod_eq (nb + batch_size - 1) batch_size) as Hdm.
    pose proof (Nat.mod_upper_bound (nb + batch_size - 1) batch_size Hb)
      as Hmod.
    assert (Hlo : (nb <= (nb + batch_size - 1) `div` batch_size
                         * batch_size)%nat) by nia.
    assert (Hhi : ((nb + batch_size - 1) `div` batch_size * batch_size
                   < nb + batch_size)%nat) by nia.
    repeat split; lia.
Qed.

(** ** The set-up of [main] *)

Lemma load_valid_data_values (lines : list string)
    (classes relations : gmap string nat) (data : list (nat * nat * nat)) :
  load_valid_data lines classes relations = Some data ->
  Forall (fun t => (exists k, classes !! k = Some t.1.1)
                   /\ (exists k, relations !! k = Some t.1.2)
                   /\ (exists k, classes !! k = Some t.2)) data.
Proof.
  unfold load_valid_data. intros Hdata.
  destruct (load_valid_fold classes relations lines []) as [Hshort Hlong].
  assert (Hall : Forall (fun line => ~ short_line line) lines).
  { apply Forall_forall. intros line Hin Hs.
    rewrite Hshort in Hdata; [discriminate |].
    apply Exists_exists. eauto. }
  rewrite (Hlong Hall) in Hdata. injection Hdata as <-. simpl.
  apply Forall_forall. intros t Ht.
  apply list_elem_of_omap in Ht. destruct Ht as (line & _ & Hline).
  exact (valid_triple_of_known _ _ _ _ Hline).
Qed.

Lemma main_setup_inv (shuffle : nat -> list nat)
    (lines valid_lines : list string) (f1 f2 : string) (batch_size : nat)
    (su : Setup) :
  main_setup shuffle lines valid_lines f1 f2 batch_size = Some su ->
  exists (st : Parsed) (valid : list (nat * nat * nat)) (steps : nat),
    load_data shuffle lines = Some st
    /\ load_valid_data valid_lines (d_map (p_classes st))
         (d_map (p_relations st)) = Some valid
    /\ train_steps (nb_train_data (p_data st)) batch_size = Some steps
    /\ su = mkSetup (p_data st) (p_classes st) (p_relations st)
              (size (d_map (p_classes st))) (size (d_map (p_relations st)))
              steps
              (init_checkpoint f1 f2 (d_keys (p_classes st))
                 (d_keys (p_relations st)) valid
                 (select_proteins (p_classes st))
                 (get_top (d_map (p_classes st)))).
Proof.
  unfold main_setup. intros H.
  destruct (load_data shuffle lines) as [st |] eqn:Hst; [| discriminate].
  cbn [mbind option_bind] in H.
  destruct (load_data_ok shuffle lines st Hst) as (Hc & Hr & _).
  destruct (load_valid_data _ _ _) as [valid |] eqn:Hvalid; [| discriminate].
  cbn [mbind option_bind] in H.
  destruct (train_steps _ _) as [steps |] eqn:Hsteps; [| discriminate].
  cbn [mbind option_bind] in H.
  rewrite (names_by_index_dense _ Hc) in H.
  cbn [mbind option_bind] in H.
  rewrite (names_by_index_dense _ Hr) in H.
  cbn [mbind option_bind] in H. injection H as <-.
  exists st, valid, steps.
  split; [| split; [| split]]; first [reflexivity | assumption].
Qed.

(** The name lists [main] hands to the callback line up with the rows of
    the embedding tables: [cls_list] has one name per class, no name
    twice, and the name at position [i] is the class of index [i];
    likewise for [rel_list].  So the look-up [cls_dict[i]] never fails. *)
Theorem main_setup_names_by_row (shuffle : nat -> list nat)
    (lines valid_lines : list string) (f1 f2 : string) (batch_size : nat)
    (su : Setup) :
  main_setup shuffle lines valid_lines f1 f2 batch_size = Some su ->
  let cb := su_checkpoint su in
  length (cls_list cb) = su_nb_classes su
  /\ length (rel_list cb) = su_nb_relations su
  /\ NoDup (cls_list cb) /\ NoDup (rel_list cb)
  /\ (forall k i, d_map (su_classes su) !! k = Some i
                  <-> cls_list cb !! i = Some k)
  /\ (forall k i, d_map (su_relations su) !! k = Some i
                  <-> rel_list cb !! i = Some k)
  /\ top cb = d_map (su_classes su) !! "owl:Thing"%string.
Proof.
  intros H cb. subst cb.
  destruct (main_setup_inv _ _ _ _ _ _ _ H)
    as (st & valid & steps & Hst & _ & _ & ->).
  destruct (load_data_ok shuffle lines st Hst) as ([Sc Ic] & [Sr Ir] & _).
  cbn. split; [now rewrite Sc |]. split; [now rewrite Sr |].
  split; [| split; [| split; [exact Ic | split; [exact Ir | reflexivity]]]].
  - apply NoDup_alt. intros i j k Hi Hj.
    apply Ic in Hi, Hj. congruence.
  - apply NoDup_alt. intros i j k Hi Hj.
    apply Ir in Hi, Hj. congruence.
Qed.

(** What the callback gets for validation: the proteins are exactly the
    classes without the GO prefix, [prot_index] lists each once and only
    rows of the class table, [prot_dict] sends a class to its position in
    [prot_index], and every validation triple holds indices of the
    tables. *)
Theorem main_setup_validation_in_range (shuffle : nat -> list nat)
    (lines valid_lines : list string) (f1 f2 : string) (batch_size : nat)
    (su : Setup) :
  main_setup shuffle lines valid_lines f1 f2 batch_size = Some su ->
  let cb := su_checkpoint su in
  NoDup (prot_index cb)
  /\ Forall (fun i => (i < su_nb_classes su)%nat) (prot_index cb)
  /\ (forall k i, (k, i) ∈ proteins cb
                  <-> d_map (su_classes su) !! k = Some i
                      /\ startswith go_prefix k = false)
  /\ (forall c k, make_prot_dict (prot_index cb) !! c = Some k
                  <-> prot_index cb !! k = Some c)
  /\ Forall (fun t => (t.1.1 < su_nb_classes su)%nat
                      /\ (t.1.2 < su_nb_relations su)%nat
                      /\ (t.2 < su_nb_classes su)%nat) (valid_data cb).
Proof.
  intros H cb. subst cb.
  destruct (main_setup_inv _ _ _ _ _ _ _ H)
    as (st & valid & steps & Hst & Hvalid & _ & ->).
  destruct (load_data_ok shuffle lines st Hst) as (Hc & Hr & _).
  destruct (select_proteins_dense _ Hc) as (Hnd & Hmem & Hlt).
  cbn. unfold prot_index. cbn.
  split; [exact Hnd |]. split; [exact Hlt |]. split; [exact Hmem |].
  split; [intros c k; now apply prot_dict_lookup_iff |].
  eapply Forall_impl; [exact (load_valid_data_values _ _ _ _ Hvalid) |].
  intros [[c r] d] ([k1 H1] & [k2 H2] & [k3 H3]). simpl in *.
  split; [exact (dense_lookup_lt _ _ _ Hc H1) |].
  split; [exact (dense_lookup_lt _ _ _ Hr H2) |].
  exact (dense_lookup_lt _ _ _ Hc H3).
Qed.

(** ** The example sampler *)

Lemma take_in_range {A} (val : list A) (index : list nat) :
  Forall (fun i => (i < length val)%nat) index ->
  exists rows : list A,
    take val index = Some rows
    /\ length rows = length index
    /\ Forall (fun x => x ∈ val) rows.
Proof.
  unfold take. induction 1 as [| i index Hi _ (rows & Hrows & Hlen & Hin)].
  - exists []. repeat split. constructor.
  - destruct (lookup_lt_is_Some_2 _ _ Hi) as [x Hx].
    exists (x :: rows). cbn [mapM]. rewrite Hx. cbn [mbind option_bind].
    rewrite Hrows. cbn. split; [reflexivity |]. split; [now rewrite Hlen |].
    constructor; [| exact Hin]. now apply (list_elem_of_lookup_2 _ i).
Qed.

Section SamplerFacts.
Variable rng : Type.
Variable choice : rng -> nat -> nat -> option (list nat * rng).
Hypothesis choice_spec : choice_draws choice.

Lemma choice_is_Some (r : rng) (a n : nat) :
  n = 0%nat \/ a <> 0%nat ->
  exists (l : list nat) (r' : rng),
    choice r a n = Some (l, r')
    /\ length l = n /\ Forall (fun i => (i < a)%nat) l.
Proof.
  intros Hok. pose proof (choice_spec r a n) as Hs.
  destruct (choice r a n) as [[l r'] |]; [now exists l, r' | lia].
Qed.

Lemma choice_is_None (r : rng) (n : nat) :
  n <> 0%nat -> choice r 0%nat n = None.
Proof.
  intros Hn. pose proof (choice_spec r 0%nat n) as Hs.
  destruct (choice r 0%nat n) as [[l r'] |]; [| reflexivity].
  destruct Hs as [Hlen Hall]. destruct l as [| i l]; [simpl in Hlen; lia |].
  inversion Hall; lia.
Qed.

Lemma draw_rows {A} (val : list A) (r : rng) (n : nat) :
  n = 0%nat \/ val <> [] ->
  exists (l : list nat) (r' : rng) (rows : list A),
    choice r (length val) n = Some (l, r')
    /\ take val l = Some rows
    /\ length rows = n /\ Forall (fun x => x ∈ val) rows.
Proof.
  intros Hok.
  destruct (choice_is_Some r (length val) n) as (l & r' & Hc & Hlen & Hall).
  { destruct Hok as [-> | Hne]; [now left | right].
    destruct val; [congruence | simpl; lia]. }
  destruct (take_in_range val l Hall) as (rows & Hrows & Hlen' & Hin).
  exists l, r', rows. repeat split; try assumption. congruence.
Qed.

Lemma next_draws (g : Generator) (r : rng) :
  (g_start g < g_steps g)%nat ->
  g_batch_size g = 0%nat \/ nonempty_sets (g_data g) ->
  exists (out : option (Batch * list R)) (r' : rng),
    next rng choice g r
    = Some (out,
            mkGenerator (g_data g) (g_batch_size g) (g_steps g)
              (g_start g + 1), r')
    /\ drawn_batch (g_data g) (g_batch_size g) out.
Proof.
  intros Hlt Hok. unfold next.
  destruct (decide (g_start g < g_steps g)%nat) as [_ | ?]; [| lia].
  cbv zeta.
  destruct (draw_rows (a_nf1 (g_data g)) r (g_batch_size g))
    as (l1 & r1 & nf1 & C1 & T1 & L1 & M1).
  { destruct Hok as [? | (? & _)]; [now left | now right]. }
  destruct (draw_rows (a_nf2 (g_data g)) r1 (g_batch_size g))
    as (l2 & r2 & nf2 & C2 & T2 & L2 & M2).
  { destruct Hok as [? | (_ & ? & _)]; [now left | now right]. }
  destruct (draw_rows (a_nf3 (g_data g)) r2 (g_batch_size g))
    as (l3 & r3 & nf3 & C3 & T3 & L3 & M3).
  { destruct Hok as [? | (_ & _ & ? & _)]; [now left | now right]. }
  destruct (draw_rows (a_nf4 (g_data g)) r3 (g_batch_size g))
    as (l4 & r4 & nf4 & C4 & T4 & L4 & M4).
  { destruct Hok as [? | (_ & _ & _ & ? & _)]; [now left | now right]. }
  destruct (draw_rows (a_disjoint (g_data g)) r4 (g_batch_size g))
    as (l5 & r5 & dis & C5 & T5 & L5 & M5).
  { destruct Hok as [? | (_ & _ & _ & _ & ?)]; [now left | now right]. }
  rewrite C1. cbn [mbind option_bind]. rewrite C2. cbn [mbind option_bind].
  rewrite C3. cbn [mbind option_bind]. rewrite C4. cbn [mbind option_bind].
  rewrite C5. cbn [mbind option_bind].
  rewrite T1. cbn [mbind option_bind]. rewrite T2. cbn [mbind option_bind].
  rewrite T3. cbn [mbind option_bind]. rewrite T4. cbn [mbind option_bind].
  rewrite T5. cbn [mbind option_bind].
  eexists _, r5. split; [reflexivity |].
  eexists. split; [reflexivity |].
  split; repeat split; assumption.
Qed.

Lemma next_n_draws (n : nat) :
  forall (g : Generator) (r : rng),
    (g_start g + n <= g_steps g)%nat ->
    g_batch_size g = 0%nat \/ nonempty_sets (g_data g) ->
    exists (outs : list (option (Batch * list R))) (r' : rng),
      next_n rng choice n g r
      = Some (outs,
              mkGenerator (g_data g) (g_batch_size g) (g_steps g)
                (g_start g + n), r')
      /\ length outs = n
      /\ Forall (drawn_batch (g_data g) (g_batch_size g)) outs.
Proof.
  induction n as [| n IH]; intros g r Hle Hok.
  - exists [], r. cbn [next_n]. rewrite Nat.add_0_r.
    destruct g. repeat split. constructor.
  - destruct (next_draws g r) as (out & r1 & Hnext & Hout); [lia | exact Hok |].
    set (g1 := mkGenerator (g_data g) (g_batch_size g) (g_steps g)
                 (g_start g + 1)) in *.
    destruct (IH g1 r1) as (outs & r2 & Hrest & Hlen & Hall).
    { subst g1. simpl. lia. }
    { exact Hok. }
    exists (out :: outs), r2. cbn [next_n]. rewrite Hnext.
    cbn [mbind option_bind]. rewrite Hrest. cbn [mbind option_bind].
    subst g1. cbn [g_data g_batch_size g_steps g_start].
    replace (g_start g + 1 + n)%nat with (g_start g + S n)%nat by lia.
    split; [reflexivity |]. split; [simpl; now rewrite Hlen |].
    constructor; assumption.
Qed.

(** One epoch of the sampler: from a fresh generator, [steps] calls of
    [next] each return a batch of [batch_size] rows per axiom set, every
    row an axiom of that set, with [batch_size] zero labels; the call
    after them returns nothing and rewinds the generator to its fresh
    state. *)
Theorem generator_epoch (g : Generator) (r : rng) :
  g_start g = 0%nat ->
  g_batch_size g = 0%nat \/ nonempty_sets (g_data g) ->
  exists (outs : list (option (Batch * list R))) (g' : Generator)
         (r' : rng),
    next_n rng choice (g_steps g) g r = Some (outs, g', r')
    /\ length outs = g_steps g
    /\ Forall (drawn_batch (g_data g) (g_batch_size g)) outs
    /\ next rng choice g' r' = Some (None, g, r').
Proof.
  intros Hstart Hok.
  destruct (next_n_draws (g_steps g) g r) as (outs & r' & Hn & Hlen & Hall);
    [lia | exact Hok |].
  eexists outs, _, r'. split; [exact Hn |]. split; [exact Hlen |].
  split; [exact Hall |].
  unfold next. cbn [g_start g_steps].
  destruct (decide (g_start g + g_steps g < g_steps g)%nat) as [? | _];
    [lia |].
  unfold reset. cbn. destruct g. simpl in Hstart. now subst.
Qed.

(** With a positive batch size the sampler cannot draw from an empty
    axiom set: if the ontology has no axiom of one of the five forms,
    the first call of [next] raises. *)
Theorem generator_empty_set_fails (g : Generator) (r : rng) :
  (g_start g < g_steps g)%nat ->
  g_batch_size g <> 0%nat ->
  ~ nonempty_sets (g_data g) ->
  next rng choice g r = None.
Proof.
  intros Hlt Hbs Hempty. unfold next.
  destruct (decide (g_start g < g_steps g)%nat) as [_ | ?]; [| lia].
  cbv zeta.
  destruct (a_nf1 (g_data g)) as [| x1 t1] eqn:E1.
  { cbn [length]. now rewrite choice_is_None. }
  destruct (choice r _ _) as [[l1 r1] |]; [| reflexivity].
  cbn [mbind option_bind].
  destruct (a_nf2 (g_data g)) as [| x2 t2] eqn:E2.
  { cbn [length]. now rewrite choice_is_None. }
  destruct (choice r1 _ _) as [[l2 r2] |]; [| reflexivity].
  cbn [mbind option_bind].
  destruct (a_nf3 (g_data g)) as [| x3 t3] eqn:E3.
  { cbn [length]. now rewrite choice_is_None. }
  destruct (choice r2 _ _) as [[l3 r3] |]; [| reflexivity].
  cbn [mbind option_bind].
  destruct (a_nf4 (g_data g)) as [| x4 t4] eqn:E4.
  { cbn [length]. now rewrite choice_is_None. }
  destruct (choice r3 _ _) as [[l4 r4] |]; [| reflexivity].
  cbn [mbind option_bind].
  destruct (a_disjoint (g_data g)) as [| x5 t5] eqn:E5.
  { cbn [length]. now rewrite choice_is_None. }
  exfalso. apply Hempty. unfold nonempty_sets.
  rewrite E1, E2, E3, E4, E5. repeat split; discriminate.
Qed.

(** The sampler and the model fit together: a batch drawn from what
    [load_data] returned holds only rows of the tables of a model built
    with [nb_classes] and [nb_relations] rows and the same batch size, so
    the forward pass returns one loss per row, as many as the labels. *)
Theorem sampled_batch_evaluates (shuffle : nat -> list nat)
    (lines : list string) (st : Parsed) (g g' : Generator) (r r' : rng)
    (b : Batch) (labels : list R) (m : ELModel) :
  load_data shuffle lines = Some st ->
  g_data g = p_data st ->
  next rng choice g r = Some (Some (b, labels), g', r') ->
  length (cls_embeddings m) = size (d_map (p_classes st)) ->
  length (rel_embeddings m) = size (d_map (p_relations st)) ->
  batch_size m = g_batch_size g ->
  exists out : list R,
    call m b = Some out /\ length out = length labels.
Proof.
  intros Hst Hdata Hnext Hnc Hnr Hbs.
  pose proof (proj2 (proj2 (load_data_ok shuffle lines st Hst))) as Hrange.
  rewrite <- Hdata, <- Hnc, <- Hnr in Hrange.
  destruct Hrange as (R1 & R2 & R3 & R4 & R5).
  unfold next in Hnext.
  destruct (decide (g_start g < g_steps g)%nat) as [_ | ?];
    [| discriminate].
  cbv zeta in Hnext.
  pose proof (choice_spec r (length (a_nf1 (g_data g))) (g_batch_size g))
    as S1.
  destruct (choice r _ _) as [[l1 r1] |]; [| discriminate].
  cbn [mbind option_bind] in Hnext.
  pose proof (choice_spec r1 (length (a_nf2 (g_data g))) (g_batch_size g))
    as S2.
  destruct (choice r1 _ _) as [[l2 r2] |]; [| discriminate].
  cbn [mbind option_bind] in Hnext.
  pose proof (choice_spec r2 (length (a_nf3 (g_data g))) (g_batch_size g))
    as S3.
  destruct (choice r2 _ _) as [[l3 r3] |]; [| discriminate].
  cbn [mbind option_bind] in Hnext.
  pose proof (choice_spec r3 (length (a_nf4 (g_data g))) (g_batch_size g))
    as S4.
  destruct (choice r3 _ _) as [[l4 r4] |]; [| discriminate].
  cbn [mbind option_bind] in Hnext.
  pose proof (choice_spec r4 (length (a_disjoint (g_data g)))
                (g_batch_size g)) as S5.
  destruct (choice r4 _ _) as [[l5 r5] |]; [| discriminate].
  cbn [mbind option_bind] in Hnext.
  destruct (take (a_nf1 _) l1) as [nf1 |] eqn:T1; [| discriminate].
  cbn [mbind option_bind] in Hnext.
  destruct (take (a_nf2 _) l2) as [nf2 |] eqn:T2; [| discriminate].
  cbn [mbind option_bind] in Hnext.
  destruct (take (a_nf3 _) l3) as [nf3 |] eqn:T3; [| discriminate].
  cbn [mbind option_bind] in Hnext.
  destruct (take (a_nf4 _) l4) as [nf4 |] eqn:T4; [| discriminate].
  cbn [mbind option_bind] in Hnext.
  destruct (take (a_disjoint _) l5) as [dis |] eqn:T5; [| discriminate].
  cbn [mbind option_bind] in Hnext.
  injection Hnext as <- <- _ _.
  rewrite length_replicate, <- Hbs.
  apply call_is_Some_full.
  - unfold batch_full. cbn. rewrite Hbs.
    pose proof (length_mapM _ _ _ T1). pose proof (length_mapM _ _ _ T2).
    pose proof (length_mapM _ _ _ T3). pose proof (length_mapM _ _ _ T4).
    pose proof (length_mapM _ _ _ T5).
    destruct S1, S2, S3, S4, S5. repeat split; congruence.
  - unfold batch_in_range. cbv zeta. cbn [b_nf1 b_nf2 b_nf3 b_nf4 b_dis].
    split; [exact (take_Forall _ _ _ _ T1 R1) |].
    split; [exact (take_Forall _ _ _ _ T2 R2) |].
    split; [exact (take_Forall _ _ _ _ T3 R3) |].
    split; [exact (take_Forall _ _ _ _ T4 R4) |].
    eapply Forall_impl; [exact (take_Forall _ _ _ _ T5 R5) |].
    intros ex (Hc & Hd & _). now split.
Qed.
End SamplerFacts.

(** ** The parser and the sampler on the concrete inputs *)

Lemma toy_lines_loaded : load_data rev_shuffle toy_lines = Some toy_parsed.
Proof. vm_compute. reflexivity. Qed.

Lemma toy_setup_built :
  main_setup rev_shuffle toy_lines toy_valid_lines "cls.pkl" "rel.pkl" 1
  = Some toy_setup.
Proof. vm_compute. reflexivity. Qed.

Lemma first_choice_draws : choice_draws first_choice.
Proof.
  intros r a n. unfold first_choice.
  destruct (decide (a = 0 /\ n <> 0)%nat) as [Hd | Hd]; [exact Hd |].
  split; [apply length_replicate |].
  apply Forall_forall. intros i Hi. apply elem_of_replicate in Hi.
  destruct Hi as [-> Hn]. lia.
Qed.

Lemma toy_data_nonempty : nonempty_sets toy_data.
Proof. repeat split; discriminate. Qed.

Lemma load_data_indices_dense_witness :
  size (d_map (p_classes toy_parsed)) = length (d_keys (p_classes toy_parsed)).
Proof.
  exact (proj1 (load_data_indices_dense rev_shuffle toy_lines toy_parsed
                  toy_lines_loaded)).
Defined.

Lemma load_data_indices_in_range_witness :
  axioms_in_range (size (d_map (p_classes toy_parsed)))
    (size (d_map (p_relations toy_parsed))) (p_data toy_parsed).
Proof.
  exact (load_data_indices_in_range rev_shuffle toy_lines toy_parsed
           toy_lines_loaded).
Defined.

Lemma load_lines_extends_witness :
  exists st : Parsed,
    load_lines (firstn 2 toy_lines) = Some st
    /\ d_keys (p_classes st) `prefix_of` d_keys (p_classes toy_parsed).
Proof.
  destruct (load_lines_extends (firstn 2 toy_lines) (skipn 2 toy_lines)
              toy_parsed ltac:(vm_compute; reflexivity))
    as (st & Hst & Hpre & _).
  exists st. split; assumption.
Defined.

Lemma load_data_unsplittable_line_fails_witness :
  load_data rev_shuffle ("SubClassOf(<http://4932.P1>)"%string :: toy_lines)
  = None.
Proof.
  apply load_data_unsplittable_line_fails. constructor.
  unfold unsplittable. vm_compute. repeat split; discriminate.
Defined.

Lemma load_data_reorders_witness :
  exists st : Parsed,
    load_data rev_shuffle toy_lines = Some st
    /\ p_classes st = p_classes toy_parsed.
Proof.
  destruct (load_data_reorders rev_shuffle
              (fun n => reverse_Permutation (seq 0 n)) toy_lines toy_parsed
              ltac:(vm_compute; reflexivity))
    as (st & Hst & Hc & _).
  exists st. split; assumption.
Defined.

Lemma prot_dict_inverts_index_witness :
  make_prot_dict [2; 0]%nat !! 2%nat = Some 0%nat
  <-> [2; 0]%nat !! 0%nat = Some 2%nat.
Proof.
  apply (prot_dict_inverts_index [2; 0]%nat 2 0).
  apply (bool_decide_unpack _). reflexivity.
Defined.

Lemma load_valid_data_triples_witness :
  load_valid_data toy_valid_lines (d_map toy_classes) (d_map toy_relations)
  = Some (omap (valid_triple_of (d_map toy_classes) (d_map toy_relations))
            toy_valid_lines).
Proof.
  apply (proj1 (proj2 (load_valid_data_triples toy_valid_lines
                         (d_map toy_classes) (d_map toy_relations)))).
  repeat constructor; unfold short_line; vm_compute; lia.
Defined.

Lemma train_steps_covers_witness :
  (0 < 2)%nat /\ (nb_train_data toy_data <= 1 * 2)%nat.
Proof.
  destruct (proj2 (train_steps_covers toy_data 2) 1%nat eq_refl)
    as (Hpos & Hcover & _).
  split; assumption.
Defined.

Lemma main_setup_names_by_row_witness :
  length (cls_list (su_checkpoint toy_setup)) = su_nb_classes toy_setup.
Proof.
  exact (proj1 (main_setup_names_by_row rev_shuffle toy_lines
                  toy_valid_lines "cls.pkl" "rel.pkl" 1 toy_setup
                  toy_setup_built)).
Defined.

Lemma main_setup_validation_in_range_witness :
  NoDup (prot_index (su_checkpoint toy_setup)).
Proof.
  exact (proj1 (main_setup_validation_in_range rev_shuffle toy_lines
                  toy_valid_lines "cls.pkl" "rel.pkl" 1 toy_setup
                  toy_setup_built)).
Defined.

Lemma generator_epoch_witness :
  exists (outs : list (option (Batch * list R))) (g' : Generator)
         (r' : unit),
    next_n unit first_choice (g_steps toy_generator) toy_generator tt
    = Some (outs, g', r')
    /\ length outs = g_steps toy_generator
    /\ Forall (drawn_batch (g_data toy_generator)
                 (g_batch_size toy_generator)) outs
    /\ next unit first_choice g' r' = Some (None, toy_generator, r').
Proof.
  apply (generator_epoch unit first_choice first_choice_draws toy_generator
           tt eq_refl).
  right. exact toy_data_nonempty.
Defined.

Lemma generator_empty_set_fails_witness :
  next unit first_choice empty_generator tt = None.
Proof.
  apply (generator_empty_set_fails unit first_choice first_choice_draws).
  - simpl. lia.
  - simpl. lia.
  - intros (_ & Hnf2 & _). now apply Hnf2.
Defined.

Lemma sampled_batch_evaluates_witness :
  exists out : list R,
    call toy_sized_model
      (mkBatch [(0, 1)%nat] [(0, 2, 1)%nat] [(0, 0, 2)%nat] [(0, 2, 1)%nat]
         [(0, 1, 3)%nat])
    = Some out
    /\ length out = length [0].
Proof.
  apply (sampled_batch_evaluates unit first_choice first_choice_draws
           rev_shuffle toy_lines toy_parsed toy_generator
           (mkGenerator toy_data 1 2 1) tt tt _ [0] toy_sized_model
           toy_lines_loaded eq_refl).
  - vm_compute. reflexivity.
  - vm_compute. reflexivity.
  - vm_compute. reflexivity.
  - reflexivity.
Defined.

(** ** The filtered ranks *)

Lemma score_nonneg (mg rc prs dst : R) : 0 <= score mg rc prs dst.
Proof.
  unfold score. pose proof (overlap_range mg rc prs dst) as [Hov _].
  pose proof (inv_np_exp_range _ (edst_nonneg mg rc prs dst)).
  lra.
Qed.

(** Raising entries of an array can only lower the doubled rank weight
    of a fixed value. *)
Lemma count_weight_mono (v : R) (a b : list R) :
  Forall2 Rle a b ->
  (2 * count_lt v b + count_eq v b <= 2 * count_lt v a + count_eq v a)%nat.
Proof.
  induction 1 as [| y y' a b Hy _ IH]; simpl; [lia |].
  destruct (Rlt_dec y' v), (Req_dec_T y' v), (Rlt_dec y v), (Req_dec_T y v);
    try lia; exfalso; lra.
Qed.

Lemma rankdata_average_mono (a b : list R) (i : nat) (x ra rb : R) :
  Forall2 Rle a b ->
  a !! i = Some x -> b !! i = Some x ->
  rankdata_average a i = Some ra ->
  rankdata_average b i = Some rb ->
  rb <= ra.
Proof.
  intros Hab Ha Hb. unfold rankdata_average. rewrite Ha, Hb.
  cbn [mbind option_bind]. intros [= <-] [= <-].
  pose proof (count_weight_mono x a b Hab) as Hw.
  apply le_INR in Hw. rewrite !plus_INR, !mult_INR in Hw. simpl in Hw.
  lra.
Qed.

Lemma score_triple_res (mg : R) (rembeds : matrix)
    (prot_dict : gmap nat nat) (prot_rs : list R) (prot_embeds : matrix)
    (c r d : nat) (s : Scored) :
  score_triple mg rembeds prot_dict prot_rs prot_embeds (c, r, d) = Some s ->
  exists c' d' : nat,
    prot_dict !! c = Some c' /\ prot_dict !! d = Some d'
    /\ rankdata_average (Ropp <$> s_res s) d' = Some (s_rank s)
    /\ Forall (fun x => 0 <= x) (s_res s).
Proof.
  unfold score_triple. intros Hs.
  destruct (prot_dict !! c) as [c' |]; [| discriminate].
  destruct (prot_dict !! d) as [d' |]; [| discriminate].
  cbn [mbind option_bind] in Hs.
  destruct (prot_embeds !! c') as [ec |]; [| discriminate].
  cbn [mbind option_bind] in Hs.
  destruct (prot_rs !! c') as [rc |]; [| discriminate].
  cbn [mbind option_bind] in Hs.
  destruct (rembeds !! r) as [er |]; [| discriminate].
  cbn [mbind option_bind] in Hs.
  match type of Hs with
  | context [rankdata_average ?a d'] =>
      destruct (rankdata_average a d') as [rank |] eqn:Hrank
  end; [| discriminate].
  cbn [mbind option_bind] in Hs. injection Hs as <-. cbn.
  exists c', d'. split; [reflexivity |]. split; [reflexivity |].
  split; [exact Hrank |].
  apply Forall_forall. intros x Hx.
  apply elem_of_zip_with in Hx. destruct Hx as (prs & dst & -> & _ & _).
  apply score_nonneg.
Qed.

Lemma labels_ok_empty (n : nat) (prot_dict : gmap nat nat) :
  labels_ok n prot_dict [] ∅.
Proof. intros r labels H. now rewrite lookup_empty in H. Qed.

Lemma ones_lookup (n c' : nat) (row : list R) :
  ones n !! c' = Some row -> row = replicate n 1.
Proof.
  unfold ones. intros H. apply lookup_replicate in H. now destruct H.
Qed.

Lemma labels_ok_ones (n : nat) (prot_dict : gmap nat nat)
    (known : list (nat * nat * nat)) (r : nat) :
  length (ones n) = n
  /\ forall (c' : nat) (row : list R),
       ones n !! c' = Some row ->
       length row = n
       /\ forall (d' : nat) (v : R),
            row !! d' = Some v ->
            (v = 0 \/ v = 1)
            /\ (v = 0 ->
                exists c d, (c, r, d) ∈ known
                            /\ prot_dict !! c = Some c'
                            /\ prot_dict !! d = Some d').
Proof.
  split; [apply length_replicate |].
  intros c' row Hrow. apply ones_lookup in Hrow. subst row.
  split; [apply length_replicate |].
  intros d' v Hv. apply lookup_replicate in Hv. destruct Hv as [-> _].
  split; [now right | intros; exfalso; lra].
Qed.

Lemma mark_known_ok (n : nat) (prot_dict : gmap nat nat)
    (known : list (nat * nat * nat)) (trlabels trlabels' : gmap nat matrix)
    (t : nat * nat * nat) :
  labels_ok n prot_dict known trlabels ->
  mark_known n prot_dict trlabels t = Some trlabels' ->
  labels_ok n prot_dict (known ++ [t]) trlabels'.
Proof.
  intros Hok Hmark. destruct t as [[c r] d]. unfold mark_known in Hmark.
  destruct (prot_dict !! c) as [c' |] eqn:Hc; [| discriminate].
  destruct (prot_dict !! d) as [d' |] eqn:Hd; [| discriminate].
  cbn [mbind option_bind] in Hmark. cbv zeta in Hmark.
  set (labels := default (ones n) (trlabels !! r)) in *.
  unfold labels_ok, matrix, vec in *.
  destruct (labels !! c') as [row |] eqn:Hrow; [| discriminate].
  cbn [mbind option_bind] in Hmark.
  destruct (decide (d' < length row)%nat) as [Hlt |]; [| discriminate].
  injection Hmark as <-.
  assert (Hlabels :
            length labels = n
            /\ forall (c1 : nat) (row1 : list R),
                 labels !! c1 = Some row1 ->
                 length row1 = n
                 /\ forall (d1 : nat) (v : R),
                      row1 !! d1 = Some v ->
                      (v = 0 \/ v = 1)
                      /\ (v = 0 ->
                          exists c0 d0, (c0, r, d0) ∈ known
                                        /\ prot_dict !! c0 = Some c1
                                        /\ prot_dict !! d0 = Some d1)).
  { subst labels. destruct (trlabels !! r) as [labels0 |] eqn:Hr; simpl.
    - destruct (Hok r labels0 Hr) as (Hlen & _ & Hrows). now split.
    - apply labels_ok_ones. }
  destruct Hlabels as [Hlen Hrows].
  intros r1 labels1 Hr1.
  destruct (decide (r1 = r)) as [-> | Hne].
  - rewrite lookup_insert_eq in Hr1. injection Hr1 as <-.
    split; [now rewrite length_insert |].
    split.
    { exists (c, r, d). split; [| reflexivity].
      apply elem_of_app. right. apply list_elem_of_here. }
    intros c1 row1 Hrow1.
    destruct (decide (c1 = c')) as [-> | Hc1].
    + rewrite list_lookup_insert_eq in Hrow1
        by (now apply lookup_lt_Some in Hrow).
      injection Hrow1 as <-.
      destruct (Hrows c' row Hrow) as [Hrowlen Hentries].
      split; [now rewrite length_insert |].
      intros d1 v Hv.
      destruct (decide (d1 = d')) as [-> | Hd1].
      * rewrite list_lookup_insert_eq in Hv by exact Hlt.
        injection Hv as <-. split; [now left |]. intros _.
        exists c, d. split; [| now split].
        apply elem_of_app. right. apply list_elem_of_here.
      * rewrite list_lookup_insert_ne in Hv by congruence.
        destruct (Hentries d1 v Hv) as [Hv01 Hzero].
        split; [exact Hv01 |]. intros Hv0.
        destruct (Hzero Hv0) as (c0 & d0 & Hin & Hc0 & Hd0).
        exists c0, d0. split; [| now split].
        apply elem_of_app. now left.
    + rewrite list_lookup_insert_ne in Hrow1 by congruence.
      destruct (Hrows c1 row1 Hrow1) as [Hrowlen Hentries].
      split; [exact Hrowlen |].
      intros d1 v Hv. destruct (Hentries d1 v Hv) as [Hv01 Hzero].
      split; [exact Hv01 |]. intros Hv0.
      destruct (Hzero Hv0) as (c0 & d0 & Hin & Hc0 & Hd0).
      exists c0, d0. split; [| now split].
      apply elem_of_app. now left.
  - rewrite lookup_insert_ne in Hr1 by congruence.
    destruct (Hok r1 labels1 Hr1) as (Hlen1 & (t0 & Hin0 & Hr0) & Hrows1).
    split; [exact Hlen1 |]. split.
    { exists t0. split; [| exact Hr0]. apply elem_of_app. now left. }
    intros c1 row1 Hrow1. destruct (Hrows1 c1 row1 Hrow1) as [Hl Hentries].
    split; [exact Hl |].
    intros d1 v Hv. destruct (Hentries d1 v Hv) as [Hv01 Hzero].
    split; [exact Hv01 |]. intros Hv0.
    destruct (Hzero Hv0) as (c0 & d0 & Hin & Hc0 & Hd0).
    exists c0, d0. split; [| now split].
    apply elem_of_app. now left.
Qed.

Lemma fill_None (n : nat) (prot_dict : gmap nat nat)
    (data : list (nat * nat * nat)) :
  foldl (fun acc t => acc ← acc; mark_known n prot_dict acc t) None data
  = None.
Proof. induction data as [| t data IH]; [reflexivity | exact IH]. Qed.

Lemma fill_ok (n : nat) (prot_dict : gmap nat nat)
    (data : list (nat * nat * nat)) :
  forall (known : list (nat * nat * nat)) (trlabels trlabels' : gmap nat matrix),
    labels_ok n prot_dict known trlabels ->
    foldl (fun acc t => acc ← acc; mark_known n prot_dict acc t)
      (Some trlabels) data = Some trlabels' ->
    labels_ok n prot_dict (known ++ data) trlabels'.
Proof.
  induction data as [| t data IH]; intros known trl trl' Hok H.
  - injection H as <-. now rewrite app_nil_r.
  - cbn [foldl mbind option_bind] in H.
    destruct (mark_known n prot_dict trl t) as [trl1 |] eqn:Hmark.
    + replace (known ++ t :: data) with ((known ++ [t]) ++ data)
        by (now rewrite <- app_assoc).
      apply (IH _ trl1); [| exact H].
      exact (mark_known_ok _ _ _ _ _ _ Hok Hmark).
    + now rewrite fill_None in H.
Qed.

Lemma make_trlabels_ok (n : nat) (prot_dict : gmap nat nat)
    (train_data valid_data : list (nat * nat * nat))
    (trlabels : gmap nat matrix) :
  make_trlabels n prot_dict train_data valid_data = Some trlabels ->
  labels_ok n prot_dict (train_data ++ valid_data) trlabels.
Proof.
  unfold make_trlabels. intros H.
  destruct (foldl _ (Some ∅) train_data) as [trl1 |] eqn:Htrain.
  - apply (fill_ok n prot_dict valid_data train_data trl1); [| exact H].
    apply (fill_ok n prot_dict train_data [] ∅ trl1);
      [apply labels_ok_empty | exact Htrain].
  - now rewrite fill_None in H.
Qed.

Lemma prot_dict_injective (index : list nat) (c c0 k : nat) :
  make_prot_dict index !! c = Some k ->
  make_prot_dict index !! c0 = Some k ->
  c = c0.
Proof.
  assert (Hto : forall c1, make_prot_dict index !! c1 = Some k ->
                           index !! k = Some c1).
  { intros c1 Hk. unfold make_prot_dict, enumerate in Hk.
    apply foldl_dict_from in Hk. destruct Hk as [Hk | Hk].
    - apply list_elem_of_lookup in Hk. destruct Hk as [j Hj].
      rewrite lookup_zip_with in Hj.
      destruct (seq 0 (length index) !! j) as [k' |] eqn:Hs;
        [| discriminate].
      cbn [mbind option_bind] in Hj.
      destruct (index !! j) as [c' |] eqn:Hc; [| discriminate].
      cbn in Hj. injection Hj as -> ->.
      rewrite lookup_seq_lt in Hs by (now apply lookup_lt_Some in Hc).
      now injection Hs as <-.
    - now rewrite lookup_empty in Hk. }
  intros H1 H2. apply Hto in H1, H2. congruence.
Qed.

(** The filtered rank of a test triple that is not a known triple is at
    most its raw rank. *)
Lemma filtered_rank_le (mg : R) (rembeds : matrix) (index : list nat)
    (prot_rs : list R) (prot_embeds : matrix)
    (known : list (nat * nat * nat)) (trlabels : gmap nat matrix)
    (t : nat * nat * nat) (s : Scored) (frank : R) :
  labels_ok (length prot_embeds) (make_prot_dict index) known trlabels ->
  length prot_rs = length prot_embeds ->
  score_triple mg rembeds (make_prot_dict index) prot_rs prot_embeds t
  = Some s ->
  filtered_rank trlabels (make_prot_dict index) s t = Some frank ->
  t ∉ known ->
  1 <= frank <= s_rank s.
Proof.
  intros Hok Hlen Hs Hf Hnew. destruct t as [[c r] d].
  destruct (score_triple_res _ _ _ _ _ _ _ _ _ Hs)
    as (c' & d' & Hc & Hd & Hrank & Hpos).
  destruct (score_triple_rank_in_range _ _ _ _ _ _ _ Hs) as (Hres & _ & _).
  rewrite Hlen, Nat.min_id in Hres.
  unfold filtered_rank in Hf. rewrite Hc, Hd in Hf.
  cbn [mbind option_bind] in Hf.
  destruct (trlabels !! r) as [labels |] eqn:Hr; [| discriminate].
  cbn [mbind option_bind] in Hf.
  destruct (labels !! c') as [row |] eqn:Hrow; [| discriminate].
  cbn [mbind option_bind] in Hf.
  destruct (Hok r labels Hr) as (_ & _ & Hrows).
  destruct (Hrows c' row Hrow) as [Hrowlen Hentries].
  unfold tmul in Hf.
  destruct (decide (length (s_res s) = length row)) as [_ | Hne];
    [| congruence].
  cbn [mbind option_bind] in Hf.
  split; [exact (proj1 (rankdata_average_bounds _ _ _ Hf)) |].
  pose proof Hf as Hf'. unfold rankdata_average in Hf'.
  destruct ((Ropp <$> zip_with Rmult (s_res s) row) !! d') as [y |] eqn:Hy;
    [| discriminate].
  clear Hf'.
  rewrite list_lookup_fmap, lookup_zip_with in Hy.
  destruct (s_res s !! d') as [x |] eqn:Hx; [| discriminate].
  cbn [mbind option_bind fmap option_fmap option_map] in Hy.
  destruct (row !! d') as [v |] eqn:Hv; [| discriminate].
  cbn in Hy. injection Hy as <-.
  destruct (Hentries d' v Hv) as [Hv01 Hzero].
  assert (Hv1 : v = 1).
  { destruct Hv01 as [Hv0 | Hv1]; [| exact Hv1]. exfalso.
    destruct (Hzero Hv0) as (c0 & d0 & Hin & Hc0 & Hd0).
    rewrite (prot_dict_injective index c c0 c' Hc Hc0) in Hnew.
    rewrite (prot_dict_injective index d d0 d' Hd Hd0) in Hnew.
    contradiction. }
  subst v.
  apply (rankdata_average_mono (Ropp <$> s_res s)
           (Ropp <$> zip_with Rmult (s_res s) row) d' (- x));
    [| | | exact Hrank | exact Hf].
  - apply Forall2_fmap, Forall2_same_length_lookup.
    split; [now rewrite length_zip_with, Hres, Hrowlen, Nat.min_id |].
    intros j y z Hyj Hzj. rewrite lookup_zip_with, Hyj in Hzj.
    cbn [mbind option_bind] in Hzj.
    destruct (row !! j) as [w |] eqn:Hw; [| discriminate].
    cbn in Hzj. injection Hzj as <-.
    pose proof (proj1 (Forall_lookup _ _) Hpos j y Hyj) as Hy0.
    destruct (proj1 (Hentries j w Hw)) as [-> | ->]; simpl in *; lra.
  - rewrite list_lookup_fmap, Hx. reflexivity.
  - rewrite list_lookup_fmap, lookup_zip_with, Hx.
    cbn [mbind option_bind]. rewrite Hv. cbn. f_equal. lra.
Qed.

Lemma count_rank_dominates (k : nat) (raw filtered : Tally)
    (rank frank : R) :
  tally_dominates k raw filtered ->
  1 <= frank <= rank ->
  tally_dominates (S k) (count_rank rank raw) (count_rank frank filtered).
Proof.
  intros (H1 & H10 & H100 & Hsum & Ha & Hb & Hc) [Hlo Hhi].
  unfold tally_dominates, count_rank. cbn.
  destruct (Req_dec_T rank 1), (Req_dec_T frank 1), (Rle_dec rank 10),
    (Rle_dec frank 10), (Rle_dec rank 100), (Rle_dec frank 100);
    try (exfalso; lra); repeat split; solve [lia | lra].
Qed.

Lemma test_loop_dominates (mg : R) (rembeds : matrix) (index : list nat)
    (prot_rs : list R) (known : list (nat * nat * nat))
    (trlabels : gmap nat matrix) (data : list (nat * nat * nat)) :
  Forall (fun t => t ∉ known) data ->
  forall (prot_embeds : matrix) (k : nat) (raw filtered raw' filtered' : Tally),
    labels_ok (length prot_embeds) (make_prot_dict index) known trlabels ->
    length prot_rs = length prot_embeds ->
    tally_dominates k raw filtered ->
    test_loop mg rembeds (make_prot_dict index) prot_rs trlabels prot_embeds
      data raw filtered = Some (raw', filtered') ->
    tally_dominates (k + length data) raw' filtered'.
Proof.
  induction 1 as [| t data Ht _ IH];
    intros pe k raw filtered raw' filtered' Hok Hlen Hdom Hloop.
  - injection Hloop as <- <-. now rewrite Nat.add_0_r.
  - cbn [test_loop] in Hloop.
    destruct (score_triple mg rembeds (make_prot_dict index) prot_rs pe t)
      as [s |] eqn:Hs; [| discriminate].
    cbn [mbind option_bind] in Hloop.
    destruct (filtered_rank trlabels (make_prot_dict index) s t)
      as [frank |] eqn:Hf; [| discriminate].
    cbn [mbind option_bind] in Hloop.
    destruct (score_triple_rank_in_range _ _ _ _ _ _ _ Hs) as (_ & Hpe & _).
    replace (k + length (t :: data))%nat with (S k + length data)%nat
      by (simpl; lia).
    eapply (IH (s_prot_embeds s) (S k)); [| | | exact Hloop].
    + now rewrite Hpe.
    + now rewrite Hpe.
    + apply count_rank_dominates; [exact Hdom |].
      exact (filtered_rank_le _ _ _ _ _ _ _ _ _ _ Hok Hlen Hs Hf Ht).
Qed.

Lemma empty_tally_dominates : tally_dominates 0 empty_tally empty_tally.
Proof. unfold tally_dominates, empty_tally. cbn. repeat split; solve [lia | lra]. Qed.

Lemma evaluate_ranks_inv (mg : R) (embeds rembeds : matrix)
    (prot_index : list nat)
    (train_data valid_data test_data : list (nat * nat * nat))
    (raw filtered : Metrics) :
  evaluate_ranks mg embeds rembeds prot_index train_data valid_data test_data
  = Some (raw, filtered) ->
  exists (prot_rs : list R) (prot_embeds : matrix)
         (trlabels : gmap nat matrix) (traw tfiltered : Tally),
    length prot_rs = length prot_embeds
    /\ make_trlabels (length prot_embeds) (make_prot_dict prot_index)
         train_data valid_data = Some trlabels
    /\ test_loop mg rembeds (make_prot_dict prot_index) prot_rs trlabels
         prot_embeds test_data empty_tally empty_tally
       = Some (traw, tfiltered)
    /\ test_data <> []
    /\ raw = averaged (length test_data) traw
    /\ filtered = averaged (length test_data) tfiltered.
Proof.
  unfold evaluate_ranks. intros H.
  destruct (mapM _ prot_index) as [prot_rs |] eqn:Hrs; [| discriminate].
  cbn [mbind option_bind] in H.
  destruct (take_rows _ prot_index) as [prot_embeds |] eqn:Hpe;
    [| discriminate].
  cbn [mbind option_bind] in H.
  destruct (make_trlabels _ _ _ _) as [trlabels |] eqn:Htr; [| discriminate].
  cbn [mbind option_bind] in H.
  destruct (test_loop _ _ _ _ _ _ _ _ _) as [[traw tfiltered] |] eqn:Hloop;
    [| discriminate].
  cbn [mbind option_bind] in H.
  destruct (decide (length test_data = 0%nat)) as [| Hn]; [discriminate |].
  injection H as <- <-.
  exists prot_rs, prot_embeds, trlabels, traw, tfiltered.
  split.
  { apply length_mapM in Hrs. apply take_rows_length in Hpe. congruence. }
  split; [exact Htr |]. split; [exact Hloop |].
  split; [now destruct test_data |]. now split.
Qed.

(** When no test triple is among the training and validation triples,
    filtering can only help: every filtered hit rate is at least the raw
    one, the filtered mean rank is at most the raw one, and the filtered
    rates are ordered, top1 below top10 below top100 below 1. *)
Theorem filtered_metrics_dominate (mg : R) (embeds rembeds : matrix)
    (prot_index : list nat)
    (train_data valid_data test_data : list (nat * nat * nat))
    (raw filtered : Metrics) :
  evaluate_ranks mg embeds rembeds prot_index train_data valid_data test_data
  = Some (raw, filtered) ->
  Forall (fun t => t ∉ train_data ++ valid_data) test_data ->
  m_top1 raw <= m_top1 filtered
  /\ m_top10 raw <= m_top10 filtered
  /\ m_top100 raw <= m_top100 filtered
  /\ m_mean_rank filtered <= m_mean_rank raw
  /\ m_top1 filtered <= m_top10 filtered
  /\ m_top10 filtered <= m_top100 filtered
  /\ m_top100 filtered <= 1.
Proof.
  intros H Hnew.
  destruct (evaluate_ranks_inv _ _ _ _ _ _ _ _ _ H)
    as (prot_rs & pe & trl & traw & tfilt & Hlen & Htr & Hloop & Hne
        & -> & ->).
  pose proof (make_trlabels_ok _ _ _ _ _ Htr) as Hok.
  pose proof (test_loop_dominates mg rembeds prot_index prot_rs _ trl
                test_data Hnew pe 0 _ _ _ _ Hok Hlen empty_tally_dominates
                Hloop) as (H1 & H10 & H100 & Hsum & Ha & Hb & Hc).
  assert (Hn : 0 < INR (length test_data)).
  { apply lt_0_INR. destruct test_data; [congruence | simpl; lia]. }
  assert (Hdiv : forall a b : R, a <= b ->
                   a / INR (length test_data) <= b / INR (length test_data)).
  { intros a b Hab. unfold Rdiv. apply Rmult_le_compat_r; [| exact Hab].
    left. now apply Rinv_0_lt_compat. }
  unfold averaged. cbn.
  repeat split; try (apply Hdiv; first [now apply le_INR | assumption]).
  simpl in Hc. apply le_INR in Hc.
  apply (Rmult_le_reg_r (INR (length test_data))); [exact Hn |].
  unfold Rdiv. rewrite Rmult_assoc, Rinv_l by lra. lra.
Qed.

Lemma filtered_rank_unseen (trlabels : gmap nat matrix)
    (prot_dict : gmap nat nat) (s : Scored) (t : nat * nat * nat) :
  trlabels !! t.1.2 = None -> filtered_rank trlabels prot_dict s t = None.
Proof.
  destruct t as [[c r] d]. simpl. intros Hr. unfold filtered_rank.
  destruct (prot_dict !! c); [| reflexivity].
  destruct (prot_dict !! d); [| reflexivity].
  cbn [mbind option_bind]. now rewrite Hr.
Qed.

Lemma test_loop_unseen (mg : R) (rembeds : matrix)
    (prot_dict : gmap nat nat) (prot_rs : list R)
    (trlabels : gmap nat matrix) (data : list (nat * nat * nat)) :
  Exists (fun t => trlabels !! t.1.2 = None) data ->
  forall (prot_embeds : matrix) (raw filtered : Tally),
    test_loop mg rembeds prot_dict prot_rs trlabels prot_embeds data raw
      filtered = None.
Proof.
  induction 1 as [t data Ht | t data _ IH]; intros pe raw filtered;
    cbn [test_loop].
  - destruct (score_triple _ _ _ _ pe t) as [s |]; [| reflexivity].
    cbn [mbind option_bind].
    now rewrite (filtered_rank_unseen _ _ _ _ Ht).
  - destruct (score_triple _ _ _ _ pe t) as [s |]; [| reflexivity].
    cbn [mbind option_bind].
    destruct (filtered_rank _ _ s t) as [frank |]; [| reflexivity].
    cbn [mbind option_bind]. apply IH.
Qed.

(** The evaluation needs a test set, and a training or validation triple
    for every relation it tests: it raises on an empty test set (the
    division by [n]) and on a test triple whose relation occurs in no
    training and no validation triple (the look-up [trlabels[r]]). *)
Theorem evaluate_ranks_raises (mg : R) (embeds rembeds : matrix)
    (prot_index : list nat)
    (train_data valid_data test_data : list (nat * nat * nat)) :
  test_data = []
  \/ Exists (fun t => forall t0, t0 ∈ train_data ++ valid_data ->
                                 t0.1.2 <> t.1.2) test_data ->
  evaluate_ranks mg embeds rembeds prot_index train_data valid_data test_data
  = None.
Proof.
  intros Hbad. unfold evaluate_ranks.
  destruct (mapM _ prot_index) as [prot_rs |]; [| reflexivity].
  cbn [mbind option_bind].
  destruct (take_rows _ prot_index) as [prot_embeds |]; [| reflexivity].
  cbn [mbind option_bind].
  destruct (make_trlabels _ _ _ _) as [trlabels |] eqn:Htr; [| reflexivity].
  cbn [mbind option_bind].
  destruct Hbad as [-> | Hunseen].
  - reflexivity.
  - rewrite test_loop_unseen; [reflexivity |].
    pose proof (make_trlabels_ok _ _ _ _ _ Htr) as Hok.
    eapply Exists_impl; [exact Hunseen |].
    intros t Ht. cbv beta in Ht.
    destruct (trlabels !! t.1.2) as [labels |] eqn:Hr; [| reflexivity].
    destruct (Hok _ _ Hr) as (_ & (t0 & Hin & Heq) & _).
    now destruct (Ht t0 Hin).
Qed.

Lemma hist_trlabels :
  make_trlabels 2 (make_prot_dict [0; 1]%nat) hist_train []
  = Some {[ 0%nat := [[0; 1]; [1; 1]] ]}.
Proof. vm_compute. reflexivity. Qed.

Lemma hist_filtered_rank :
  filtered_rank {[ 0%nat := [[0; 1]; [1; 1]] ]} (make_prot_dict [0; 1]%nat)
    (mkScored [[1]; [1]] [1; 1] [1; 1] (3 / 2)) hist_triple
  = Some 1.
Proof.
  unfold filtered_rank, hist_triple.
  rewrite prot_dict_two_0, prot_dict_two_1. cbn [mbind option_bind].
  rewrite lookup_singleton_eq. cbn [mbind option_bind].
  cbn [lookup list_lookup mbind option_bind s_res].
  replace (tmul [1; 1] [0; 1]) with (Some [1 * 0; 1 * 1]) by reflexivity.
  cbn [mbind option_bind]. unfold rankdata_average.
  cbn [fmap list_fmap lookup list_lookup mbind option_bind count_lt count_eq].
  repeat real_step. simpl INR. f_equal. lra.
Qed.

Lemma hist_ranks_evaluated :
  evaluate_ranks 0 hist_cls hist_rel [0; 1]%nat hist_train [] [hist_triple]
  = Some (hist_raw_metrics, hist_filtered_metrics).
Proof.
  unfold evaluate_ranks, hist_cls.
  cbn [fmap list_fmap mapM take_rows lookup list_lookup mbind option_bind
       mret option_ret length].
  rewrite hist_trlabels. cbn [mbind option_bind].
  replace (Rabs (last_coord [0; 1])) with 1 by (real_eval; lra).
  replace (Rabs (last_coord [1; 1])) with 1 by (real_eval; lra).
  cbn [center removelast test_loop].
  match goal with
  | |- context [score_triple ?a ?b ?c ?d ?e ?f] =>
      rewrite (hist_first_triple : score_triple a b c d e f = _)
  end.
  cbn [mbind option_bind].
  rewrite hist_filtered_rank. cbn [mbind option_bind s_rank].
  unfold count_rank, empty_tally. cbn [top1 top10 top100 mean_rank].
  destruct (Req_dec_T (3 / 2) 1) as [? | _]; [exfalso; lra |].
  destruct (Req_dec_T 1 1) as [_ | ?]; [| exfalso; lra].
  destruct (Rle_dec (3 / 2) 10) as [_ | ?]; [| exfalso; lra].
  destruct (Rle_dec (3 / 2) 100) as [_ | ?]; [| exfalso; lra].
  destruct (Rle_dec 1 10) as [_ | ?]; [| exfalso; lra].
  destruct (Rle_dec 1 100) as [_ | ?]; [| exfalso; lra].
  reflexivity.
Qed.

Lemma filtered_metrics_dominate_witness :
  m_top1 hist_raw_metrics <= m_top1 hist_filtered_metrics
  /\ m_top10 hist_raw_metrics <= m_top10 hist_filtered_metrics
  /\ m_top100 hist_raw_metrics <= m_top100 hist_filtered_metrics
  /\ m_mean_rank hist_filtered_metrics <= m_mean_rank hist_raw_metrics
  /\ m_top1 hist_filtered_metrics <= m_top10 hist_filtered_metrics
  /\ m_top10 hist_filtered_metrics <= m_top100 hist_filtered_metrics
  /\ m_top100 hist_filtered_metrics <= 1.
Proof.
  apply (filtered_metrics_dominate 0 hist_cls hist_rel [0; 1]%nat hist_train
           [] [hist_triple] _ _ hist_ranks_evaluated).
  constructor; [| constructor].
  unfold hist_train, hist_triple. cbn [app].
  rewrite elem_of_cons, elem_of_nil. intros [Heq | []]. discriminate.
Defined.

Lemma evaluate_ranks_raises_witness :
  evaluate_ranks 0 hist_cls hist_rel [0; 1]%nat [] [] [hist_triple] = None.
Proof.
  apply evaluate_ranks_raises. right. constructor.
  intros t0 Hin. cbn [app] in Hin. now apply elem_of_nil in Hin.
Defined.
